(** * CanvasScrollImageSequence: a shallow embedding

    Source: [src/components/CanvasScrollImageSequence.tsx].

    The component preloads a list of images, maps the scroll position of a
    tall container to a frame index, draws that frame on a canvas with a
    "cover" fit and drives two text overlays, the second one behind an 800ms
    timer.

    Modelling conventions.
    - A JavaScript [number] is an exact rational ([Q]).  NaN and the
      infinities are not represented, so where the source divides without a
      guard (the aspect ratios of [drawFrame]) the statements assume sizes
      that are positive.  Sums, products and quotients are exact where the
      source rounds them to a double; a statement that one such rounding
      could falsify (the frame selected next to a tie) allows for it.
      Values that the source uses as indices or handles (frame indices,
      timer and animation-frame handles) are [Z], and the pixel size of the
      canvas is the whole number the [unsigned long] attributes hold.
    - React state and refs, the local [ticking] flag of the scroll effect and
      the part of the browser the component talks to (timer table, animation
      frame queue, layout, canvas operations, console) are the fields of one
      record [World]; every handler is a function [World -> World].
    - A state setter takes effect at once; the re-render that React performs
      after a handler, with the re-run of the effects whose dependencies
      changed, is the function [commit]. *)

From Stdlib Require Import ZArith QArith Qround Qabs Lia Lqa List Bool String DecimalString.
From Stdlib Require Import Ascii NArith Permutation Sorted DecimalNat.
Import ListNotations.

(** ** JavaScript numbers *)

Module JS.

Definition number := Q.

(** [a > b] and [a < b] on numbers. *)
Definition gt (a b : number) : bool := negb (Qle_bool a b).
Definition lt (a b : number) : bool := negb (Qle_bool b a).

(** [Math.max(a, b)] and [Math.min(a, b)]. *)
Definition Math_max (a b : number) : number := if Qle_bool a b then b else a.
Definition Math_min (a b : number) : number := if Qle_bool a b then a else b.

(** [Math.round(x)]: the integer closest to [x], a tie going to the larger
    one, which is the floor of [x + 1/2]. *)
Definition Math_round (x : number) : Z := Qfloor (x + (1 # 2)).

(** The conversion of a number to a Web IDL [unsigned long]: the fractional
    part is dropped and the result is taken modulo 2^32. *)
Definition IntegerPart (x : number) : Z :=
  if Qle_bool 0 x then Qfloor x else Qceiling x.

Definition toUnsignedLong (x : number) : Z := (IntegerPart x mod 4294967296)%Z.

End JS.

Import JS.

(** ** Data model *)

(** An [HTMLImageElement], as far as the component reads it. *)
Module Image.
Record t := { src : string; width : number; height : number }.
End Image.

(** The rectangle returned by [getBoundingClientRect()]. *)
Module DOMRect.
Record t := { top : number; width : number; height : number }.
End DOMRect.

(** The pixel size of the [<canvas>] element.  [canvas.width] and
    [canvas.height] are [unsigned long] attributes that reflect the content
    attributes of the same names: a number assigned to one of them is
    converted to an [unsigned long], and a value above 2^31 - 1 is replaced
    by the default of the attribute, 300 for the width and 150 for the
    height.  Reading them gives whole numbers. *)
Module Canvas.
Record t := { width : number; height : number }.

Definition reflect (defaultValue : Z) (x : number) : number :=
  let n := toUnsignedLong x in
  inject_Z (if (n <=? 2147483647)%Z then n else defaultValue).

(** [canvas.width = rect.width; canvas.height = rect.height]. *)
Definition resized (rect : DOMRect.t) : t :=
  {| width := reflect 300 (DOMRect.width rect);
     height := reflect 150 (DOMRect.height rect) |}.
End Canvas.

(** [interface LoadedImage]. *)
Record LoadedImage := { image : Image.t; loaded : bool }.

(** [interface CanvasScrollImageSequenceProps]. *)
Record Props := {
  images : list string;
  containerHeight : number;
  textTriggerFrame : Z
}.

(** [images.length]. *)
Definition images_length (props : Props) : Z := Z.of_nat (List.length (images props)).

(** What the component does to the 2D context. *)
Inductive CanvasOp :=
| ClearRect (x y w h : number)
| DrawImage (img : Image.t) (dx dy dw dh : number).

(** What the component writes to the console. *)
Inductive ConsoleMsg :=
| FailedToLoadImage (src : string)
| ErrorPreloadingImages (src : string)
| SuccessfullyPreloaded (n : nat).

(** The promise of one image, and the promise returned by [Promise.all]. *)
Inductive Acquisition := Unsettled | Resolved (li : LoadedImage) | Rejected.
Inductive PromiseAll := AllPending | AllFulfilled | AllRejected (src : string).

(** The layout the component reads: the rectangle of the tall container
    ([containerRef.current], [None] when the ref is null), the rectangle of
    the canvas' parent element ([None] when there is no parent),
    [window.innerHeight], and whether [canvas.getContext("2d")] gives a
    context. *)
Record Page := {
  containerRect : option DOMRect.t;
  parentRect : option DOMRect.t;
  innerHeight : number;
  context2d : bool
}.

Record World := {
  (* useState *)
  currentFrame : Z;
  showText : bool;
  showDescription : bool;
  imagesLoaded : bool;
  (* useRef *)
  canvasRef : option Canvas.t;
  animationRef : Z;
  descriptionTimeout : option Z;
  loadedImagesRef : list LoadedImage;
  lastFrameRef : Z;
  (* locals of the effects *)
  ticking : bool;
  acquisitions : list Acquisition;
  preload : PromiseAll;
  (* the browser *)
  rafQueue : list (Z * number);   (* handle, captured scrollProgress *)
  timers : list (Z * Z);          (* handle, time at which it is due *)
  clock : Z;                      (* milliseconds *)
  nextHandle : Z;
  page : Page;
  drawn : list CanvasOp;          (* oldest first *)
  console : list ConsoleMsg       (* oldest first *)
}.

(** *** Field updates *)

Definition set_currentFrame (v : Z) (w : World) : World :=
  let 'Build_World _ a2 a3 a4 a5 a6 a7 a8 a9 a10 a11 a12 a13 a14 a15 a16 a17 a18 a19 := w in
  Build_World v a2 a3 a4 a5 a6 a7 a8 a9 a10 a11 a12 a13 a14 a15 a16 a17 a18 a19.
Definition set_showText (v : bool) (w : World) : World :=
  let 'Build_World a1 _ a3 a4 a5 a6 a7 a8 a9 a10 a11 a12 a13 a14 a15 a16 a17 a18 a19 := w in
  Build_World a1 v a3 a4 a5 a6 a7 a8 a9 a10 a11 a12 a13 a14 a15 a16 a17 a18 a19.
Definition set_showDescription (v : bool) (w : World) : World :=
  let 'Build_World a1 a2 _ a4 a5 a6 a7 a8 a9 a10 a11 a12 a13 a14 a15 a16 a17 a18 a19 := w in
  Build_World a1 a2 v a4 a5 a6 a7 a8 a9 a10 a11 a12 a13 a14 a15 a16 a17 a18 a19.
Definition set_imagesLoaded (v : bool) (w : World) : World :=
  let 'Build_World a1 a2 a3 _ a5 a6 a7 a8 a9 a10 a11 a12 a13 a14 a15 a16 a17 a18 a19 := w in
  Build_World a1 a2 a3 v a5 a6 a7 a8 a9 a10 a11 a12 a13 a14 a15 a16 a17 a18 a19.
Definition set_canvasRef (v : option Canvas.t) (w : World) : World :=
  let 'Build_World a1 a2 a3 a4 _ a6 a7 a8 a9 a10 a11 a12 a13 a14 a15 a16 a17 a18 a19 := w in
  Build_World a1 a2 a3 a4 v a6 a7 a8 a9 a10 a11 a12 a13 a14 a15 a16 a17 a18 a19.
Definition set_animationRef (v : Z) (w : World) : World :=
  let 'Build_World a1 a2 a3 a4 a5 _ a7 a8 a9 a10 a11 a12 a13 a14 a15 a16 a17 a18 a19 := w in
  Build_World a1 a2 a3 a4 a5 v a7 a8 a9 a10 a11 a12 a13 a14 a15 a16 a17 a18 a19.
Definition set_descriptionTimeout (v : option Z) (w : World) : World :=
  let 'Build_World a1 a2 a3 a4 a5 a6 _ a8 a9 a10 a11 a12 a13 a14 a15 a16 a17 a18 a19 := w in
  Build_World a1 a2 a3 a4 a5 a6 v a8 a9 a10 a11 a12 a13 a14 a15 a16 a17 a18 a19.
Definition set_loadedImagesRef (v : list LoadedImage) (w : World) : World :=
  let 'Build_World a1 a2 a3 a4 a5 a6 a7 _ a9 a10 a11 a12 a13 a14 a15 a16 a17 a18 a19 := w in
  Build_World a1 a2 a3 a4 a5 a6 a7 v a9 a10 a11 a12 a13 a14 a15 a16 a17 a18 a19.
Definition set_lastFrameRef (v : Z) (w : World) : World :=
  let 'Build_World a1 a2 a3 a4 a5 a6 a7 a8 _ a10 a11 a12 a13 a14 a15 a16 a17 a18 a19 := w in
  Build_World a1 a2 a3 a4 a5 a6 a7 a8 v a10 a11 a12 a13 a14 a15 a16 a17 a18 a19.
Definition set_ticking (v : bool) (w : World) : World :=
  let 'Build_World a1 a2 a3 a4 a5 a6 a7 a8 a9 _ a11 a12 a13 a14 a15 a16 a17 a18 a19 := w in
  Build_World a1 a2 a3 a4 a5 a6 a7 a8 a9 v a11 a12 a13 a14 a15 a16 a17 a18 a19.
Definition set_acquisitions (v : list Acquisition) (w : World) : World :=
  let 'Build_World a1 a2 a3 a4 a5 a6 a7 a8 a9 a10 _ a12 a13 a14 a15 a16 a17 a18 a19 := w in
  Build_World a1 a2 a3 a4 a5 a6 a7 a8 a9 a10 v a12 a13 a14 a15 a16 a17 a18 a19.
Definition set_preload (v : PromiseAll) (w : World) : World :=
  let 'Build_World a1 a2 a3 a4 a5 a6 a7 a8 a9 a10 a11 _ a13 a14 a15 a16 a17 a18 a19 := w in
  Build_World a1 a2 a3 a4 a5 a6 a7 a8 a9 a10 a11 v a13 a14 a15 a16 a17 a18 a19.
Definition set_rafQueue (v : list (Z * number)) (w : World) : World :=
  let 'Build_World a1 a2 a3 a4 a5 a6 a7 a8 a9 a10 a11 a12 _ a14 a15 a16 a17 a18 a19 := w in
  Build_World a1 a2 a3 a4 a5 a6 a7 a8 a9 a10 a11 a12 v a14 a15 a16 a17 a18 a19.
Definition set_timers (v : list (Z * Z)) (w : World) : World :=
  let 'Build_World a1 a2 a3 a4 a5 a6 a7 a8 a9 a10 a11 a12 a13 _ a15 a16 a17 a18 a19 := w in
  Build_World a1 a2 a3 a4 a5 a6 a7 a8 a9 a10 a11 a12 a13 v a15 a16 a17 a18 a19.
Definition set_clock (v : Z) (w : World) : World :=
  let 'Build_World a1 a2 a3 a4 a5 a6 a7 a8 a9 a10 a11 a12 a13 a14 _ a16 a17 a18 a19 := w in
  Build_World a1 a2 a3 a4 a5 a6 a7 a8 a9 a10 a11 a12 a13 a14 v a16 a17 a18 a19.
Definition set_nextHandle (v : Z) (w : World) : World :=
  let 'Build_World a1 a2 a3 a4 a5 a6 a7 a8 a9 a10 a11 a12 a13 a14 a15 _ a17 a18 a19 := w in
  Build_World a1 a2 a3 a4 a5 a6 a7 a8 a9 a10 a11 a12 a13 a14 a15 v a17 a18 a19.
Definition set_page (v : Page) (w : World) : World :=
  let 'Build_World a1 a2 a3 a4 a5 a6 a7 a8 a9 a10 a11 a12 a13 a14 a15 a16 _ a18 a19 := w in
  Build_World a1 a2 a3 a4 a5 a6 a7 a8 a9 a10 a11 a12 a13 a14 a15 a16 v a18 a19.
Definition set_drawn (v : list CanvasOp) (w : World) : World :=
  let 'Build_World a1 a2 a3 a4 a5 a6 a7 a8 a9 a10 a11 a12 a13 a14 a15 a16 a17 _ a19 := w in
  Build_World a1 a2 a3 a4 a5 a6 a7 a8 a9 a10 a11 a12 a13 a14 a15 a16 a17 v a19.
Definition set_console (v : list ConsoleMsg) (w : World) : World :=
  let 'Build_World a1 a2 a3 a4 a5 a6 a7 a8 a9 a10 a11 a12 a13 a14 a15 a16 a17 a18 _ := w in
  Build_World a1 a2 a3 a4 a5 a6 a7 a8 a9 a10 a11 a12 a13 a14 a15 a16 a17 a18 v.

(** ** The browser services the component calls *)

Definition dropHandle {A : Type} (id : Z) (l : list (Z * A)) : list (Z * A) :=
  filter (fun e => negb (fst e =? id)%Z) l.

(** [window.setTimeout(cb, delay)]; the only callback the component ever
    registers is [() => setShowDescription(true)]. *)
Definition setTimeout (delay : Z) (w : World) : Z * World :=
  let id := nextHandle w in
  (id, set_nextHandle (id + 1) (set_timers (timers w ++ [(id, clock w + delay)%Z]) w)).

Definition clearTimeout (id : Z) (w : World) : World :=
  set_timers (dropHandle id (timers w)) w.

(** [requestAnimationFrame(cb)]; the only callback the component ever
    registers is [() => { updateFrame(scrollProgress); ticking = false }],
    which is stored as the [scrollProgress] it closes over. *)
Definition requestAnimationFrame (scrollProgress : number) (w : World) : Z * World :=
  let id := nextHandle w in
  (id, set_nextHandle (id + 1) (set_rafQueue (rafQueue w ++ [(id, scrollProgress)]) w)).

Definition cancelAnimationFrame (id : Z) (w : World) : World :=
  set_rafQueue (dropHandle id (rafQueue w)) w.

(** A handle held in a ref is tested for truthiness before it is cleared. *)
Definition clearIfSet (h : option Z) (w : World) : World :=
  match h with
  | Some id => if (id =? 0)%Z then w else clearTimeout id w
  | None => w
  end.

(** ** The component *)

(** The rectangle [drawImage] is given: lines 84-103 of [drawFrame]. *)
Record DrawRect := {
  offsetX : number;
  offsetY : number;
  drawWidth : number;
  drawHeight : number
}.

Definition coverFit (canvas : Canvas.t) (img : Image.t) : DrawRect :=
  let canvasAspect := Canvas.width canvas / Canvas.height canvas in
  let imageAspect := Image.width img / Image.height img in
  if gt imageAspect canvasAspect then
    (* Image is wider than canvas *)
    let drawHeight := Canvas.height canvas in
    let drawWidth := drawHeight * imageAspect in
    {| offsetX := (Canvas.width canvas - drawWidth) / 2; offsetY := 0;
       drawWidth := drawWidth; drawHeight := drawHeight |}
  else
    (* Image is taller than canvas *)
    let drawWidth := Canvas.width canvas in
    let drawHeight := drawWidth / imageAspect in
    {| offsetX := 0; offsetY := (Canvas.height canvas - drawHeight) / 2;
       drawWidth := drawWidth; drawHeight := drawHeight |}.

Definition drawFrame (frameIndex : Z) (w : World) : World :=
  match canvasRef w with
  | None => w
  | Some canvas =>
      if negb (imagesLoaded w) || (frameIndex <? 0)%Z
         || (Z.of_nat (List.length (loadedImagesRef w)) <=? frameIndex)%Z
      then w
      else if negb (context2d (page w)) then w
      else match nth_error (loadedImagesRef w) (Z.to_nat frameIndex) with
           | None => w
           | Some loadedImage =>
               if negb (loaded loadedImage) then w
               else
                 let r := coverFit canvas (image loadedImage) in
                 set_drawn
                   (drawn w ++
                    [ClearRect 0 0 (Canvas.width canvas) (Canvas.height canvas);
                     DrawImage (image loadedImage)
                       (offsetX r) (offsetY r) (drawWidth r) (drawHeight r)])
                   w
           end
  end.

(** The progress computed by [handleScroll], lines 161-166. *)
Definition scrollProgress (rect : DOMRect.t) (innerHeight : number) : number :=
  let containerHeight := DOMRect.height rect - innerHeight in
  if gt containerHeight 0
  then Math_max 0 (Math_min 1 (- DOMRect.top rect / containerHeight))
  else 0.

Section Component.

Variable props : Props.

(** The frame selected by [updateFrame], lines 116-119. *)
Definition frameIndex (progress : number) : Z :=
  let clampedProgress := Math_max 0 (Math_min 1 progress) in
  let exactFrame := clampedProgress * inject_Z (images_length props - 1) in
  Math_round exactFrame.

Definition updateFrame (progress : number) (w : World) : World :=
  let frameIndex := frameIndex progress in
  if negb (frameIndex =? lastFrameRef w)%Z && (0 <=? frameIndex)%Z
     && (frameIndex <? images_length props)%Z
  then
    let w := set_lastFrameRef frameIndex w in
    let w := set_currentFrame frameIndex w in
    let w := drawFrame frameIndex w in
    let w := set_showText (textTriggerFrame props <=? frameIndex)%Z w in
    if (textTriggerFrame props <=? frameIndex)%Z then
      if negb (showDescription w) then
        let w := clearIfSet (descriptionTimeout w) w in
        let (id, w) := setTimeout 800 w in
        set_descriptionTimeout (Some id) w
      else w
    else
      let w := clearIfSet (descriptionTimeout w) w in
      set_showDescription false w
  else w.

Definition handleScroll (w : World) : World :=
  match containerRect (page w) with
  | None => w
  | Some rect =>
      if negb (imagesLoaded w) then w
      else
        let scrollProgress := scrollProgress rect (innerHeight (page w)) in
        if negb (ticking w) then
          let w := set_ticking true w in
          let (id, w) := requestAnimationFrame scrollProgress w in
          set_animationRef id w
        else w
  end.

(** The callback given to [requestAnimationFrame], for the progress it
    closed over. *)
Definition animationCallback (scrollProgress : number) (w : World) : World :=
  set_ticking false (updateFrame scrollProgress w).

(** The browser renders a frame: the callbacks registered so far run, in
    the order of their registration. *)
Definition runAnimationFrame (w : World) : World :=
  fold_left (fun w cb => animationCallback (snd cb) w) (rafQueue w)
            (set_rafQueue [] w).

Definition resizeCanvas (w : World) : World :=
  match canvasRef w with
  | None => w
  | Some _ =>
      match parentRect (page w) with
      | None => w
      | Some rect =>
          let w := set_canvasRef (Some (Canvas.resized rect)) w in
          if imagesLoaded w then drawFrame (currentFrame w) w else w
      end
  end.

(** The settle timer fires: [setShowDescription(true)]. *)
Definition runTimeout (id : Z) (w : World) : World :=
  if existsb (fun t => (fst t =? id)%Z && (snd t <=? clock w)%Z) (timers w)
  then set_showDescription true (set_timers (dropHandle id (timers w)) w)
  else w.

(** *** Preloading *)

Fixpoint set_nth {A : Type} (i : nat) (x : A) (l : list A) : list A :=
  match l, i with
  | [], _ => []
  | _ :: t, O => x :: t
  | h :: t, S j => h :: set_nth j x t
  end.

Definition resolved (a : Acquisition) : option LoadedImage :=
  match a with Resolved li => Some li | _ => None end.

Fixpoint allResolved (l : list Acquisition) : option (list LoadedImage) :=
  match l with
  | [] => Some []
  | a :: t =>
      match resolved a, allResolved t with
      | Some li, Some lis => Some (li :: lis)
      | _, _ => None
      end
  end.

(** [await Promise.all(imagePromises)] once every promise is resolved: the
    [try] branch of [preloadImages]. *)
Definition promiseAll (w : World) : World :=
  match preload w, allResolved (acquisitions w) with
  | AllPending, Some values =>
      let w := set_preload AllFulfilled w in
      let w := set_loadedImagesRef values w in
      let w := set_imagesLoaded true w in
      set_console (console w ++ [SuccessfullyPreloaded (List.length (images props))]) w
  | _, _ => w
  end.

(** [img.onload] of the image at position [i]. *)
Definition onload (i : nat) (naturalWidth naturalHeight : number) (w : World) : World :=
  match nth_error (images props) i, nth_error (acquisitions w) i with
  | Some src, Some Unsettled =>
      let img := {| Image.src := src; Image.width := naturalWidth;
                    Image.height := naturalHeight |} in
      let w := set_acquisitions
                 (set_nth i (Resolved {| image := img; loaded := true |})
                          (acquisitions w)) w in
      promiseAll w
  | _, _ => w
  end.

(** [img.onerror] of the image at position [i], and the [catch] branch of
    [preloadImages] when this is the first rejection. *)
Definition onerror (i : nat) (w : World) : World :=
  match nth_error (images props) i, nth_error (acquisitions w) i with
  | Some src, Some Unsettled =>
      let w := set_console (console w ++ [FailedToLoadImage src]) w in
      let w := set_acquisitions (set_nth i Rejected (acquisitions w)) w in
      match preload w with
      | AllPending =>
          let w := set_preload (AllRejected src) w in
          set_console (console w ++ [ErrorPreloadingImages src]) w
      | _ => w
      end
  | _, _ => w
  end.

(** The first effect: one promise per image. *)
Definition preloadImages (w : World) : World :=
  set_preload AllPending
    (set_acquisitions (map (fun _ => Unsettled) (images props)) w).

(** *** Effects and re-rendering *)

(** Set-up and clean-up of the scroll effect (dependencies [updateFrame],
    [imagesLoaded]; [updateFrame] changes with [showDescription] and, through
    [drawFrame], with [imagesLoaded]). *)
Definition scrollEffect (w : World) : World :=
  handleScroll (set_ticking false w).

Definition scrollEffectCleanup (w : World) : World :=
  let w := if (animationRef w =? 0)%Z then w
           else cancelAnimationFrame (animationRef w) w in
  clearIfSet (descriptionTimeout w) w.

(** Set-up of the resize effect (dependencies [imagesLoaded],
    [currentFrame], [drawFrame]). *)
Definition resizeEffect (w : World) : World := resizeCanvas w.

(** React re-renders after a handler and re-runs the effects whose
    dependencies differ between [before] and [after]. *)
Definition commit (before after : World) : World :=
  let loadedChanged := negb (Bool.eqb (imagesLoaded before) (imagesLoaded after)) in
  let scrollDeps :=
    loadedChanged
    || negb (Bool.eqb (showDescription before) (showDescription after)) in
  let resizeDeps :=
    loadedChanged || negb (currentFrame before =? currentFrame after)%Z in
  let w := if scrollDeps then scrollEffectCleanup after else after in
  let w := if scrollDeps then scrollEffect w else w in
  if resizeDeps then resizeEffect w else w.

(** *** Events *)

Inductive Event :=
| ImageLoad (i : nat) (naturalWidth naturalHeight : number)
| ImageError (i : nat)
| Scroll (pg : Page)
| AnimationFrame
| Resize (pg : Page)
| Elapse (ms : N)
| TimerFired (id : Z).

Definition handle (e : Event) (w : World) : World :=
  match e with
  | ImageLoad i nw nh => onload i nw nh w
  | ImageError i => onerror i w
  | Scroll pg => handleScroll (set_page pg w)
  | AnimationFrame => runAnimationFrame w
  | Resize pg => resizeCanvas (set_page pg w)
  | Elapse ms => set_clock (clock w + Z.of_N ms) w
  | TimerFired id => runTimeout id w
  end.

Definition step (w : World) (e : Event) : World := commit w (handle e w).

Definition run (es : list Event) (w : World) : World := fold_left step es w.

(** The world before the first effect has run.  A canvas starts at the
    default size of 300 by 150. *)
Definition initialWorld (pg : Page) : World :=
  {| currentFrame := 0; showText := false; showDescription := false;
     imagesLoaded := false;
     canvasRef := Some {| Canvas.width := 300; Canvas.height := 150 |};
     animationRef := 0; descriptionTimeout := None;
     loadedImagesRef := []; lastFrameRef := -1;
     ticking := false; acquisitions := []; preload := AllPending;
     rafQueue := []; timers := []; clock := 0; nextHandle := 1;
     page := pg; drawn := []; console := [] |}.

(** Mounting runs the three effects in order; [Promise.all] of no promise
    at all is fulfilled right away. *)
Definition mount (pg : Page) : World :=
  let w := preloadImages (initialWorld pg) in
  let w := scrollEffect w in
  let w := resizeEffect w in
  commit w (promiseAll w).

End Component.

(** *** Unmounting and rendering *)

(** Unmounting runs the clean-up of the scroll effect, lines 184-192: the
    pending animation frame and the settle timer are cancelled.  The
    listeners it removes are the events [Scroll] and [Resize], which are
    no longer delivered. *)
Definition unmount (w : World) : World := scrollEffectCleanup w.

(** The frame counter of the rendered component, lines 250-255: absent
    until the images are loaded, then "Frame [currentFrame + 1] /
    [images.length]", given here as the two numbers. *)
Definition frameCounter (props : Props) (w : World) : option (Z * Z) :=
  if imagesLoaded w then Some ((currentFrame w + 1)%Z, images_length props)
  else None.

(** ** The script [scripts/copy-to-frames.js]

    The script lists a directory, keeps the files named "parallax test...
    .jpg", sorts them by the first number in their names and copies the
    file at position [index] to "frame[index + 1].jpg", reporting each copy.

    What is modelled of the file system is the listing it returns and, for
    each pair of source and target, whether [fs.copyFileSync] throws.
    [parseInt] returns a double: the integer the digits denote, rounded to
    53 significant bits, or [Infinity].  [Array.prototype.sort] is a stable
    insertion sort by the key the comparator compares; a comparator is
    called on every element of an array of two or more elements, and on
    none otherwise, which is when a name without a digit, for which
    [a.match(/\d+/)] is [null], makes the script throw a [TypeError]
    ([None] below). *)

Module CopyToFrames.

Definition isDigit (c : ascii) : bool :=
  (48 <=? nat_of_ascii c)%nat && (nat_of_ascii c <=? 57)%nat.

(** [a.match(/\d+/)]: the first maximal run of digits, if there is one. *)
Fixpoint takeDigits (s : string) : string :=
  match s with
  | String c t => if isDigit c then String c (takeDigits t) else EmptyString
  | EmptyString => EmptyString
  end.

Fixpoint matchDigits (s : string) : option string :=
  match s with
  | EmptyString => None
  | String c t => if isDigit c then Some (String c (takeDigits t)) else matchDigits t
  end.

(** The integer a string of digits denotes in base ten. *)
Fixpoint parseIntFrom (acc : N) (digits : string) : N :=
  match digits with
  | EmptyString => acc
  | String c t => parseIntFrom (acc * 10 + N.of_nat (nat_of_ascii c - 48)) t
  end.

(** The number value of a non-negative integer: the nearest double, a tie
    going to the even significand.  An integer below 2^53 is its own
    double; from (2^54 - 1) * 2^970 on the result is [Infinity], for which
    2^1024 stands here.  Of two such numbers the comparator only reveals
    the sign of their difference, and [Infinity - Infinity], which is
    [NaN], counts as zero for [sort]: all infinities are equal to each
    other and above every double. *)
Definition rounded (n : N) : N :=
  let e := (N.log2 n - 52)%N in
  let q := N.shiftr n e in
  let r := (n - N.shiftl q e)%N in
  let half := N.shiftl 1 (e - 1) in
  let q' := if (r <? half)%N then q
            else if (half <? r)%N then (q + 1)%N
            else if N.even q then q else (q + 1)%N in
  N.shiftl q' e.

Definition toDouble (n : N) : N :=
  if (n <? 2 ^ 53)%N then n else N.min (rounded n) (2 ^ 1024).

(** [parseInt] of a string of digits (Node reads all of them). *)
Definition parseInt (digits : string) : N := toDouble (parseIntFrom 0 digits).

(** [parseInt(file.match(/\d+/)[0])]. *)
Definition frameKey (file : string) : option N :=
  option_map parseInt (matchDigits file).

Definition startsWith (s searchString : string) : bool := String.prefix searchString s.

Definition endsWith (s searchString : string) : bool :=
  (String.length searchString <=? String.length s)%nat
  && String.eqb
       (String.substring (String.length s - String.length searchString)
                         (String.length searchString) s)
       searchString.

(** The predicate of [filter]. *)
Definition wanted (file : string) : bool :=
  startsWith file "parallax test" && endsWith file ".jpg".

Fixpoint insert (key : string -> N) (x : string) (l : list string) : list string :=
  match l with
  | [] => [x]
  | y :: t => if (key x <=? key y)%N then x :: y :: t else y :: insert key x t
  end.

Definition sortByKey (key : string -> N) (l : list string) : list string :=
  fold_right (insert key) [] l.

Definition hasKey (file : string) : bool :=
  match frameKey file with Some _ => true | None => false end.

Definition keyOf (file : string) : N :=
  match frameKey file with Some n => n | None => 0%N end.

(** [.sort((a, b) => numA - numB)]. *)
Definition sortFiles (files : list string) : option (list string) :=
  if (List.length files <=? 1)%nat then Some files
  else if forallb hasKey files then Some (sortByKey keyOf files)
  else None.

(** [`frame${index + 1}.jpg`]. *)
Definition frameName (index : nat) : string :=
  ("frame" ++ NilEmpty.string_of_uint (Nat.to_uint (index + 1)) ++ ".jpg")%string.

(** What the script prints. *)
Inductive Line :=
| Found (n : nat)
| Copied (file target : string)
| FailedToCopy (file : string)
| CopyComplete (n : nat).

(** [files.forEach((file, index) => ...)], from position [index] on. *)
Fixpoint forEach (copyFails : string -> string -> bool) (files : list string)
    (index : nat) : list Line :=
  match files with
  | [] => []
  | file :: rest =>
      (if copyFails file (frameName index) then FailedToCopy file
       else Copied file (frameName index))
        :: forEach copyFails rest (S index)
  end.

Definition script (entries : list string) (copyFails : string -> string -> bool)
  : option (list Line) :=
  match sortFiles (filter wanted entries) with
  | None => None
  | Some files =>
      Some (Found (List.length files)
              :: forEach copyFails files 0 ++ [CopyComplete (List.length files)])
  end.

(** The copies a run performed: source and target. *)
Definition copies (lines : list Line) : list (string * string) :=
  flat_map (fun l => match l with Copied f t => [(f, t)] | _ => [] end) lines.

(** The files a run reported on, copied or not, in the order of the report. *)
Definition reported (lines : list Line) : list string :=
  flat_map (fun l => match l with
                     | Copied f _ => [f]
                     | FailedToCopy f => [f]
                     | _ => []
                     end) lines.

(** The first number in a name, as written. *)
Definition firstNumber (file : string) : option N :=
  option_map (parseIntFrom 0) (matchDigits file).

Definition numberOf (file : string) : N :=
  match firstNumber file with Some n => n | None => 0%N end.

(** Decimal numerals, and names without a digit. *)
Definition decimal (n : nat) : string := NilEmpty.string_of_uint (Nat.to_uint n).

Fixpoint noDigit (s : string) : bool :=
  match s with
  | EmptyString => true
  | String c t => negb (isDigit c) && noDigit t
  end.

Definition startsWithDigit (s : string) : bool :=
  match s with
  | EmptyString => false
  | String c _ => isDigit c
  end.

(** A directory listing, and a file system on which one copy fails. *)
Definition listing : list string :=
  ["parallax test 10.jpg"; "readme.txt"; "parallax test 2.jpg";
   "parallax test 1.png"; "parallax test 03.jpg"; "x parallax test 4.jpg"]%string.

Definition oneFails (file target : string) : bool :=
  String.eqb file "parallax test 03.jpg".

(** A listing with numbers from 2^53 on, where doubles are two apart. *)
Definition bigListing : list string :=
  ["parallax test 9007199254740995.jpg"; "parallax test 9007199254740993.jpg";
   "parallax test 9007199254740992.jpg"; "parallax test 7.jpg"]%string.

End CopyToFrames.

(** ** Sample inputs

    The page of the repository ([src/app/page.tsx]) passes thirty images,
    a container of 4000 pixels and the trigger frame 26. *)

Definition tennisCourtImages : list string :=
  Eval vm_compute in
  map (fun i => ("/images/" ++ NilEmpty.string_of_uint (Nat.to_uint (i + 1)) ++ ".jpg")%string)
      (seq 0 30).

Definition homeProps : Props :=
  {| images := tennisCourtImages; containerHeight := 4000; textTriggerFrame := 26 |}.

(** The same component with no image at all. *)
Definition emptyProps : Props :=
  {| images := []; containerHeight := 4000; textTriggerFrame := 26 |}.

(** A viewport of 1000 by 500 pixels with the container's top edge at
    [top]. *)
Definition viewport (top : number) : Page :=
  {| containerRect :=
       Some {| DOMRect.top := top; DOMRect.width := 1000; DOMRect.height := 4000 |};
     parentRect :=
       Some {| DOMRect.top := 0; DOMRect.width := 1000; DOMRect.height := 500 |};
     innerHeight := 500;
     context2d := true |}.

(** Every image of [homeProps] loads, as a square of 400 pixels. *)
Definition loadAll : list Event := map (fun i => ImageLoad i 400 400) (seq 0 30).

(** Mounted at the top of the page, all images loaded, first frame drawn. *)
Definition readyWorld : World :=
  Eval vm_compute in
  run homeProps (loadAll ++ [AnimationFrame]) (mount homeProps (viewport 0)).

(** From [readyWorld]: scrolled to the end of the container, frame 29 drawn
    and the settle timer armed; 500ms later. *)
Definition pendingWorld : World :=
  Eval vm_compute in
  run homeProps [Scroll (viewport (-3500)); AnimationFrame; Elapse 500] readyWorld.

(** From [readyWorld]: scrolled to the middle of the container, the
    animation frame still to come. *)
Definition scrolledWorld : World :=
  Eval vm_compute in run homeProps [Scroll (viewport (-1750))] readyWorld.

(** A parent of 1000.5 by 500.25 pixels. *)
Definition fractionalPage : Page :=
  {| containerRect := None;
     parentRect := Some {| DOMRect.top := 0; DOMRect.width := 2001 # 2;
                           DOMRect.height := 2001 # 4 |};
     innerHeight := 500;
     context2d := true |}.

(** All images load and the first frame is rendered, the page is scrolled
    to the end of the container and a frame is rendered; then 800ms pass
    and the settle timer fires. *)
Definition bottomTrace : list Event :=
  loadAll ++ [AnimationFrame; Scroll (viewport (-3500)); AnimationFrame].

Definition settledTrace : list Event :=
  bottomTrace ++ [Elapse 800; TimerFired 3].

(** ** Specification-side notions *)

(** [clamp(x, lo, hi)] as the specification writes it. *)
Definition clamp (x lo hi : number) : number :=
  if lt x lo then lo else if gt x hi then hi else x.

(** The number of [drawImage] calls in a list of canvas operations. *)
Definition drawCalls (ops : list CanvasOp) : nat :=
  List.length (filter (fun op => match op with DrawImage _ _ _ _ _ => true | _ => false end) ops).

(** The world is ready to draw any frame: the canvas is mounted and gives a
    context, and the preload has published one loaded entry per image. *)
Definition Ready (props : Props) (w : World) : Prop :=
  canvasRef w <> None
  /\ context2d (page w) = true
  /\ imagesLoaded w = true
  /\ List.length (loadedImagesRef w) = List.length (images props)
  /\ Forall (fun li => loaded li = true) (loadedImagesRef w).

(** The test [updateFrame] makes before it does anything. *)
Definition frameChanged (props : Props) (progress : number) (w : World) : bool :=
  negb (frameIndex props progress =? lastFrameRef w)%Z
  && (0 <=? frameIndex props progress)%Z
  && (frameIndex props progress <? images_length props)%Z.

(** [Quiet w w']: going from [w] to [w'] leaves the preload as it is and,
    if the images are not loaded, draws nothing. *)
Definition Quiet (w w' : World) : Prop :=
  imagesLoaded w' = imagesLoaded w
  /\ preload w' = preload w
  /\ loadedImagesRef w' = loadedImagesRef w
  /\ acquisitions w' = acquisitions w
  /\ (imagesLoaded w = false -> drawn w' = drawn w).

(** What holds of every world the component can reach: one promise per
    image, and, until [Promise.all] is fulfilled, no loaded flag, no
    published image and nothing drawn. *)
Definition PreloadInv (props : Props) (w : World) : Prop :=
  List.length (acquisitions w) = List.length (images props)
  /\ match preload w with
     | AllFulfilled => allResolved (acquisitions w) <> None
     | _ => imagesLoaded w = false /\ drawn w = [] /\ loadedImagesRef w = []
     end.

(** Once [Promise.all] is rejected, it stays rejected with the same error,
    the flag stays down and nothing is drawn. *)
Definition Stranded (src : string) (w : World) : Prop :=
  preload w = AllRejected src
  /\ imagesLoaded w = false /\ drawn w = [] /\ loadedImagesRef w = [].

(** *** Invariants of the reachable worlds *)

(** The scheduler: handles start at 1; either nothing is scheduled and
    [ticking] is down, or [ticking] is up and the one callback in the queue
    is the one [animationRef] names.  Nothing is scheduled before the images
    are loaded. *)
Definition SchedulerInv (w : World) : Prop :=
  (1 <= nextHandle w)%Z
  /\ ((ticking w = false /\ rafQueue w = [])
      \/ (ticking w = true /\ animationRef w <> 0%Z
          /\ exists p, rafQueue w = [(animationRef w, p)]))
  /\ (imagesLoaded w = false -> rafQueue w = []).

(** The overlay: at most one settle timer is pending, the one
    [descriptionTimeout] names, and only while the primary text is visible
    and the secondary text is not; the secondary text is visible only with
    the primary one; the frame shown is the frame last drawn, a valid
    index, and the primary text is visible exactly from the trigger frame
    on. *)
Definition OverlayInv (props : Props) (w : World) : Prop :=
  (1 <= nextHandle w)%Z
  /\ (timers w = []
      \/ exists id due, id <> 0%Z /\ timers w = [(id, due)]
                        /\ descriptionTimeout w = Some id
                        /\ showText w = true /\ showDescription w = false)
  /\ (showDescription w = true -> showText w = true)
  /\ ((lastFrameRef w = (-1)%Z /\ currentFrame w = 0%Z /\ showText w = false
       /\ showDescription w = false /\ timers w = [])
      \/ ((0 <= lastFrameRef w < images_length props)%Z
          /\ currentFrame w = lastFrameRef w
          /\ showText w = (textTriggerFrame props <=? lastFrameRef w)%Z)).

(** The published images: once the flag is up, [loadedImagesRef] holds the
    value of every promise, in the order of [images]; a resolved promise
    holds a loaded image with the source of its position. *)
Definition resolvedFor (src : string) (a : Acquisition) : Prop :=
  match a with
  | Resolved li => loaded li = true /\ Image.src (image li) = src
  | _ => True
  end.

Definition PublishedInv (props : Props) (w : World) : Prop :=
  Forall2 resolvedFor (images props) (acquisitions w)
  /\ match preload w with
     | AllFulfilled =>
         imagesLoaded w = true
         /\ allResolved (acquisitions w) = Some (loadedImagesRef w)
     | AllPending =>
         imagesLoaded w = false /\ loadedImagesRef w = []
         /\ allResolved (acquisitions w) = None
     | AllRejected _ =>
         imagesLoaded w = false /\ loadedImagesRef w = []
         /\ In Rejected (acquisitions w)
     end.

(** [SameCore w w']: the step from [w] to [w'] touches neither the frame,
    the overlay, the scheduler, the timers nor the clock, and does not take
    the loaded flag down. *)
Definition SameCore (w w' : World) : Prop :=
  currentFrame w' = currentFrame w
  /\ showText w' = showText w
  /\ showDescription w' = showDescription w
  /\ animationRef w' = animationRef w
  /\ descriptionTimeout w' = descriptionTimeout w
  /\ lastFrameRef w' = lastFrameRef w
  /\ ticking w' = ticking w
  /\ rafQueue w' = rafQueue w
  /\ timers w' = timers w
  /\ nextHandle w' = nextHandle w
  /\ clock w' = clock w
  /\ (imagesLoaded w = true -> imagesLoaded w' = true).

(** [Waiting T w]: the secondary text is hidden, no pending timer is due
    before [T], and [T] is at most 800ms away. *)
Definition Waiting (T : Z) (w : World) : Prop :=
  showDescription w = false
  /\ Forall (fun t => (T <= snd t)%Z) (timers w)
  /\ (T <= clock w + 800)%Z.

(** What one call of [drawFrame] that gets through issues for the image
    [li] on a canvas of the size of [canvas]. *)
Definition drawOps (canvas : Canvas.t) (li : LoadedImage) : list CanvasOp :=
  [ClearRect 0 0 (Canvas.width canvas) (Canvas.height canvas);
   DrawImage (image li)
     (offsetX (coverFit canvas (image li))) (offsetY (coverFit canvas (image li)))
     (drawWidth (coverFit canvas (image li))) (drawHeight (coverFit canvas (image li)))].

(** [Draws w w']: from [w] to [w'] the published images stay the same and
    the canvas operations grow by whole frames of published, loaded
    images. *)
Definition Draws (w w' : World) : Prop :=
  loadedImagesRef w' = loadedImagesRef w
  /\ exists frames : list (Canvas.t * LoadedImage),
       drawn w' = drawn w ++ flat_map (fun f => drawOps (fst f) (snd f)) frames
       /\ Forall (fun f => In (snd f) (loadedImagesRef w) /\ loaded (snd f) = true) frames.

(** [CanvasLog w]: all the canvas has been asked to do is a sequence of
    whole frames of published, loaded images. *)
Definition CanvasLog (w : World) : Prop :=
  exists frames : list (Canvas.t * LoadedImage),
    drawn w = flat_map (fun f => drawOps (fst f) (snd f)) frames
    /\ Forall (fun f => In (snd f) (loadedImagesRef w) /\ loaded (snd f) = true) frames.

(** The pages an event brings give a 2D context. *)
Definition pageHasContext (e : Event) : bool :=
  match e with
  | Scroll pg | Resize pg => context2d pg
  | _ => true
  end.

(** [Shows w]: the canvas is mounted and gives a context, and if anything
    was drawn, the last thing drawn is the frame [currentFrame], fitted to
    the size the canvas has now. *)
Definition Shows (w : World) : Prop :=
  context2d (page w) = true
  /\ canvasRef w <> None
  /\ (drawn w = []
      \/ exists canvas li pre,
           canvasRef w = Some canvas
           /\ nth_error (loadedImagesRef w) (Z.to_nat (currentFrame w)) = Some li
           /\ drawn w = pre ++ drawOps canvas li).

(** What drawing relies on: nothing is drawn before the images are loaded;
    once they are, there is one loaded entry per image; the frame shown is a
    valid index, or 0. *)
Definition DrawBase (props : Props) (w : World) : Prop :=
  (imagesLoaded w = false -> drawn w = [])
  /\ (imagesLoaded w = true ->
      List.length (loadedImagesRef w) = List.length (images props)
      /\ Forall (fun li => loaded li = true) (loadedImagesRef w))
  /\ (0 <= currentFrame w)%Z
  /\ ((currentFrame w < images_length props)%Z \/ currentFrame w = 0%Z).

(** [SameView w w']: the step from [w] to [w'] changes nothing of what
    [Shows] and [DrawBase] look at. *)
Definition SameView (w w' : World) : Prop :=
  canvasRef w' = canvasRef w
  /\ currentFrame w' = currentFrame w
  /\ loadedImagesRef w' = loadedImagesRef w
  /\ drawn w' = drawn w
  /\ imagesLoaded w' = imagesLoaded w
  /\ context2d (page w') = context2d (page w).

(** The invariants together. *)
Definition Invariants (props : Props) (w : World) : Prop :=
  SchedulerInv w /\ OverlayInv props w /\ PublishedInv props w /\ PreloadInv props w.

(** A trace in which no image fails. *)
Definition noImageError (e : Event) : bool :=
  match e with ImageError _ => false | _ => true end.

(** The image at position [i] loads somewhere in the trace. *)
Definition loadsImage (i : nat) (e : Event) : bool :=
  match e with ImageLoad j _ _ => Nat.eqb i j | _ => false end.

(** *** Sizes that have an aspect ratio *)

(** A rendered length of at least one pixel, below 2^32: assigned to
    [canvas.width] or [canvas.height] it gives a positive number of
    pixels. *)
Definition wholePixels (x : number) : bool :=
  Qle_bool 1 x && lt x 4294967296.

(** The page gives the canvas' parent at least one pixel each way. *)
Definition sizedPage (pg : Page) : bool :=
  match parentRect pg with
  | Some r => wholePixels (DOMRect.width r) && wholePixels (DOMRect.height r)
  | None => true
  end.

(** The layouts an event brings are such pages, and the images it brings
    have a positive natural width and height. *)
Definition sizedEvent (e : Event) : bool :=
  match e with
  | Scroll pg | Resize pg => sizedPage pg
  | ImageLoad _ naturalWidth naturalHeight => lt 0 naturalWidth && lt 0 naturalHeight
  | _ => true
  end.

Definition positiveCanvas (canvas : Canvas.t) : Prop :=
  0 < Canvas.width canvas /\ 0 < Canvas.height canvas.

Definition positiveImage (li : LoadedImage) : Prop :=
  0 < Image.width (image li) /\ 0 < Image.height (image li).

(** [Sized w]: the canvas, the page and every image acquired so far have
    sizes for which the aspect ratios of [drawFrame] are defined. *)
Definition Sized (w : World) : Prop :=
  (forall canvas, canvasRef w = Some canvas -> positiveCanvas canvas)
  /\ sizedPage (page w) = true
  /\ Forall (fun a => forall li, a = Resolved li -> positiveImage li) (acquisitions w)
  /\ Forall positiveImage (loadedImagesRef w).

(** [SameSizes w w']: the step from [w] to [w'] changes nothing of what
    [Sized] looks at. *)
Definition SameSizes (w w' : World) : Prop :=
  canvasRef w' = canvasRef w
  /\ page w' = page w
  /\ acquisitions w' = acquisitions w
  /\ loadedImagesRef w' = loadedImagesRef w.

(** [DrawsOn cs w w']: from [w] to [w'] the published images stay the same
    and the canvas operations grow by whole frames of published, loaded
    images, each on a canvas of one of the sizes [cs]. *)
Definition DrawsOn (cs : list (option Canvas.t)) (w w' : World) : Prop :=
  loadedImagesRef w' = loadedImagesRef w
  /\ exists frames : list (Canvas.t * LoadedImage),
       drawn w' = drawn w ++ flat_map (fun f => drawOps (fst f) (snd f)) frames
       /\ Forall (fun f => In (Some (fst f)) cs
                           /\ In (snd f) (loadedImagesRef w) /\ loaded (snd f) = true)
                 frames.

(** * Facts *)

(** ** Numbers *)

Section NumberFacts.
Import JS.

Lemma gt_true a b : gt a b = true <-> b < a.
Proof.
  unfold gt. rewrite negb_true_iff, <- not_true_iff_false, Qle_bool_iff.
  split; [apply Qnot_le_lt | apply Qlt_not_le].
Qed.

Lemma gt_false a b : gt a b = false <-> a <= b.
Proof. unfold gt. rewrite negb_false_iff. apply Qle_bool_iff. Qed.

Lemma lt_true a b : lt a b = true <-> a < b.
Proof. apply gt_true. Qed.

Lemma lt_false a b : lt a b = false <-> b <= a.
Proof. apply gt_false. Qed.

Lemma Math_max_cases a b :
  (a <= b /\ Math_max a b = b) \/ (b < a /\ Math_max a b = a).
Proof.
  unfold Math_max. destruct (Qle_bool a b) eqn:E.
  - left. split; [now apply Qle_bool_iff | reflexivity].
  - right. split; [| reflexivity].
    apply Qnot_le_lt. intro H. apply Qle_bool_iff in H. congruence.
Qed.

Lemma Math_min_cases a b :
  (a <= b /\ Math_min a b = a) \/ (b < a /\ Math_min a b = b).
Proof.
  unfold Math_min. destruct (Qle_bool a b) eqn:E.
  - left. split; [now apply Qle_bool_iff | reflexivity].
  - right. split; [| reflexivity].
    apply Qnot_le_lt. intro H. apply Qle_bool_iff in H. congruence.
Qed.

(** The source clamps with [Math.max(0, Math.min(1, x))]. *)
Lemma clamp01_bounds x : 0 <= Math_max 0 (Math_min 1 x) <= 1.
Proof.
  destruct (Math_min_cases 1 x) as [[H1 ->] | [H1 ->]];
    [destruct (Math_max_cases 0 1) as [[H2 ->] | [H2 ->]]
    | destruct (Math_max_cases 0 x) as [[H2 ->] | [H2 ->]]]; lra.
Qed.

Lemma clamp01_mono x y :
  x <= y -> Math_max 0 (Math_min 1 x) <= Math_max 0 (Math_min 1 y).
Proof.
  intros Hxy.
  destruct (Math_min_cases 1 x) as [[H1 E1] | [H1 E1]]; rewrite E1;
    destruct (Math_min_cases 1 y) as [[H2 E2] | [H2 E2]]; rewrite E2;
    match goal with
    | |- Math_max 0 ?a <= Math_max 0 ?b =>
        destruct (Math_max_cases 0 a) as [[H3 E3] | [H3 E3]]; rewrite ?E3;
        destruct (Math_max_cases 0 b) as [[H4 E4] | [H4 E4]]; rewrite ?E4
    end; lra.
Qed.

Lemma clamp01_id x : 0 <= x <= 1 -> Math_max 0 (Math_min 1 x) == x.
Proof.
  intros [H0 H1].
  destruct (Math_min_cases 1 x) as [[H2 ->] | [H2 ->]];
    [destruct (Math_max_cases 0 1) as [[H3 ->] | [H3 ->]]
    | destruct (Math_max_cases 0 x) as [[H3 ->] | [H3 ->]]]; lra.
Qed.

Lemma clamp01_id_hi x : 1 <= x -> Math_max 0 (Math_min 1 x) = 1.
Proof.
  intros H.
  destruct (Math_min_cases 1 x) as [[H2 ->] | [H2 ->]]; [| lra].
  destruct (Math_max_cases 0 1) as [[H3 ->] | [H3 ->]]; [reflexivity | lra].
Qed.

Lemma Math_round_mono x y : x <= y -> (Math_round x <= Math_round y)%Z.
Proof. intros H. apply Qfloor_resp_le. lra. Qed.

Lemma Qfloor_unique x (z : Z) :
  inject_Z z <= x -> x < inject_Z (z + 1) -> Qfloor x = z.
Proof.
  intros Hlo Hhi.
  pose proof (Qfloor_resp_le _ _ Hlo) as H1. rewrite Qfloor_Z in H1.
  pose proof (Qfloor_le x) as H2.
  assert (H3 : (Qfloor x < z + 1)%Z).
  { rewrite Zlt_Qlt. eapply Qle_lt_trans; eassumption. }
  lia.
Qed.

Lemma Math_round_Z (z : Z) : Math_round (inject_Z z) = z.
Proof.
  unfold Math_round. apply Qfloor_unique.
  - lra.
  - rewrite inject_Z_plus. change (inject_Z 1) with 1. lra.
Qed.




Lemma Math_round_comp x y : x == y -> Math_round x = Math_round y.
Proof. intros E. unfold Math_round. now rewrite E. Qed.

End NumberFacts.

(** ** Progress and frame selection *)

Lemma clamp_01 x : clamp x 0 1 == Math_max 0 (Math_min 1 x).
Proof.
  unfold clamp.
  destruct (lt x 0) eqn:E0.
  - apply lt_true in E0.
    destruct (Math_min_cases 1 x) as [[H1 ->] | [H1 ->]];
      [lra | destruct (Math_max_cases 0 x) as [[H2 ->] | [H2 ->]]; lra].
  - apply lt_false in E0.
    destruct (gt x 1) eqn:E1.
    + apply gt_true in E1. rewrite (clamp01_id_hi x); [reflexivity | lra].
    + apply gt_false in E1. symmetry. apply clamp01_id. split; assumption.
Qed.

(** C5. The progress computed by [handleScroll] is
    [clamp(-top / scrollableRange, 0, 1)] when the scrollable range (height
    of the container minus height of the viewport) is positive, and [0]
    otherwise; in both cases it lies in [[0,1]]. *)
Theorem scrollProgress_clamped (rect : DOMRect.t) (innerHeight : number) :
  let scrollableRange := DOMRect.height rect - innerHeight in
  let progress := scrollProgress rect innerHeight in
  (0 < scrollableRange ->
   progress == clamp (- DOMRect.top rect / scrollableRange) 0 1
   /\ 0 <= progress <= 1)
  /\ (scrollableRange <= 0 -> progress = 0).
Proof.
  cbv zeta. unfold scrollProgress. split.
  - intros Hpos. apply gt_true in Hpos. rewrite Hpos. split.
    + symmetry. apply clamp_01.
    + apply clamp01_bounds.
  - intros Hneg. apply gt_false in Hneg. now rewrite Hneg.
Qed.

Lemma scrollProgress_clamped_witness :
  0 <= scrollProgress {| DOMRect.top := -7000; DOMRect.width := 1000; DOMRect.height := 4000 |} 500 <= 1
  /\ scrollProgress {| DOMRect.top := -7000; DOMRect.width := 1000; DOMRect.height := 300 |} 500 = 0.
Proof.
  split.
  - apply (proj1 (scrollProgress_clamped
                    {| DOMRect.top := -7000; DOMRect.width := 1000; DOMRect.height := 4000 |}
                    500)).
    reflexivity.
  - apply (proj2 (scrollProgress_clamped
                    {| DOMRect.top := -7000; DOMRect.width := 1000; DOMRect.height := 300 |}
                    500)).
    vm_compute. discriminate.
Defined.

Lemma exactFrame_bounds props c :
  (1 <= images_length props)%Z -> 0 <= c <= 1 ->
  0 <= c * inject_Z (images_length props - 1)
  /\ c * inject_Z (images_length props - 1) <= inject_Z (images_length props - 1).
Proof.
  intros HN [H0 H1].
  assert (Hk : 0 <= inject_Z (images_length props - 1)).
  { change 0 with (inject_Z 0). rewrite <- Zle_Qle. lia. }
  split.
  - apply Qmult_le_0_compat; assumption.
  - rewrite <- (Qmult_1_l (inject_Z (images_length props - 1))) at 2.
    apply Qmult_le_compat_r; assumption.
Qed.

(** With at least one image the selected index is a valid one, whatever the
    progress. *)
Lemma frameIndex_range props p :
  (1 <= images_length props)%Z ->
  (0 <= frameIndex props p <= images_length props - 1)%Z.
Proof.
  intros HN. unfold frameIndex.
  destruct (exactFrame_bounds props _ HN (clamp01_bounds p)) as [Hlo Hhi].
  split.
  - change 0%Z with (Math_round (inject_Z 0)) at 1.
    + apply Math_round_mono. exact Hlo.
  - rewrite <- (Math_round_Z (images_length props - 1)) at 2.
    apply Math_round_mono. exact Hhi.
Qed.

Lemma frameIndex_in_unit props p :
  0 <= p <= 1 ->
  frameIndex props p = Math_round (p * inject_Z (images_length props - 1)).
Proof.
  intros Hp. unfold frameIndex. apply Math_round_comp.
  now rewrite (clamp01_id _ Hp).
Qed.



(** C7, as amended. With at least one image the frame index is a
    non-decreasing function of the progress. *)
Theorem frameIndex_monotone (props : Props) (p1 p2 : number) :
  (1 <= images_length props)%Z ->
  p1 < p2 ->
  (frameIndex props p1 <= frameIndex props p2)%Z.
Proof.
  intros HN Hlt. unfold frameIndex.
  apply Math_round_mono, Qmult_le_compat_r.
  - apply clamp01_mono. lra.
  - change 0 with (inject_Z 0). rewrite <- Zle_Qle. lia.
Qed.

Lemma frameIndex_monotone_witness :
  (frameIndex homeProps (1 # 3) <= frameIndex homeProps (1 # 2))%Z.
Proof.
  apply frameIndex_monotone.
  - vm_compute. discriminate.
  - reflexivity.
Defined.

(** C7, counterexample. With no image the factor [N - 1] is [-1]: progress 0
    gives index 0 and progress 1 gives index -1. *)
Lemma frameIndex_not_monotone_when_empty :
  0 < 1
  /\ frameIndex emptyProps 0 = 0%Z
  /\ frameIndex emptyProps 1 = (-1)%Z
  /\ ~ (frameIndex emptyProps 0%Q <= frameIndex emptyProps 1%Q)%Z.
Proof.
  repeat split. vm_compute. intros H. apply H. reflexivity.
Qed.

(** ** Drawing *)

Lemma Qdiv_pos a b : 0 < a -> 0 < b -> 0 < a / b.
Proof.
  intros Ha Hb. apply Qlt_shift_div_l; [assumption | lra].
Qed.

Lemma Qdiv_lt_mult a b c : 0 < b -> a / b < c -> a < c * b.
Proof.
  intros Hb H.
  assert (E : a == a / b * b) by (field; lra).
  rewrite E. apply Qmult_lt_compat_r; assumption.
Qed.

Lemma Qdiv_ge_mult a b c : 0 < b -> c <= a / b -> c * b <= a.
Proof.
  intros Hb H.
  assert (E : a == a / b * b) by (field; lra).
  rewrite E. apply Qmult_le_compat_r; [assumption | lra].
Qed.

(** What [coverFit] computes for sizes that are all positive. *)
Lemma coverFit_spec (canvas : Canvas.t) (img : Image.t) :
  0 < Canvas.width canvas -> 0 < Canvas.height canvas ->
  0 < Image.width img -> 0 < Image.height img ->
  let surfaceWidth := Canvas.width canvas in
  let surfaceHeight := Canvas.height canvas in
  let surfaceAspect := surfaceWidth / surfaceHeight in
  let imageAspect := Image.width img / Image.height img in
  let r := coverFit canvas img in
  (surfaceAspect < imageAspect ->
   drawHeight r = surfaceHeight
   /\ drawWidth r = drawHeight r * imageAspect
   /\ offsetX r = (surfaceWidth - drawWidth r) / 2
   /\ offsetY r = 0)
  /\ (imageAspect <= surfaceAspect ->
      drawWidth r = surfaceWidth
      /\ drawHeight r = drawWidth r / imageAspect
      /\ offsetY r = (surfaceHeight - drawHeight r) / 2
      /\ offsetX r = 0)
  /\ drawWidth r / drawHeight r == imageAspect
  /\ surfaceWidth <= drawWidth r
  /\ surfaceHeight <= drawHeight r
  /\ offsetX r == (surfaceWidth - drawWidth r) / 2
  /\ offsetY r == (surfaceHeight - drawHeight r) / 2.
Proof.
  intros Hcw Hch Hiw Hih. cbv zeta.
  pose proof (Qdiv_pos _ _ Hiw Hih) as Hia.
  unfold coverFit.
  destruct (gt (Image.width img / Image.height img)
               (Canvas.width canvas / Canvas.height canvas)) eqn:E; cbn.
  - apply gt_true in E.
    split; [intros _; repeat split |].
    split; [intros Hle; exfalso; lra |].
    split; [field; split; lra |].
    split.
    + apply Qlt_le_weak. rewrite Qmult_comm.
      apply Qdiv_lt_mult; assumption.
    + split; [lra |]. split; [reflexivity | field].
  - apply gt_false in E.
    split; [intros Hlt; exfalso; lra |].
    split; [intros _; repeat split |].
    split; [field; repeat split; lra |].
    split; [lra |].
    split.
    + apply Qle_shift_div_l; [assumption |]. rewrite Qmult_comm.
      apply Qdiv_ge_mult; assumption.
    + split; [field | reflexivity].
Qed.

(** When nothing stops it, [drawFrame] clears the canvas and draws the image
    of the frame in the rectangle of [coverFit]. *)
Lemma drawFrame_draws (w : World) (i : nat) (canvas : Canvas.t) (li : LoadedImage) :
  canvasRef w = Some canvas ->
  imagesLoaded w = true ->
  context2d (page w) = true ->
  nth_error (loadedImagesRef w) i = Some li ->
  loaded li = true ->
  drawFrame (Z.of_nat i) w =
  set_drawn
    (drawn w ++
     [ClearRect 0 0 (Canvas.width canvas) (Canvas.height canvas);
      DrawImage (image li)
        (offsetX (coverFit canvas (image li))) (offsetY (coverFit canvas (image li)))
        (drawWidth (coverFit canvas (image li))) (drawHeight (coverFit canvas (image li)))])
    w.
Proof.
  intros Hc Hl Hctx Hnth Hli. unfold drawFrame.
  rewrite Hc, Hl, Hctx. cbn [negb orb].
  assert (Hlen : (i < List.length (loadedImagesRef w))%nat).
  { apply nth_error_Some. congruence. }
  replace (Z.of_nat i <? 0)%Z with false by (symmetry; apply Z.ltb_ge; lia).
  replace (Z.of_nat (List.length (loadedImagesRef w)) <=? Z.of_nat i)%Z with false
    by (symmetry; apply Z.leb_gt; lia).
  cbn [orb]. rewrite Nat2Z.id, Hnth, Hli. reflexivity.
Qed.

Lemma drawn_set_drawn ops w : drawn (set_drawn ops w) = ops.
Proof. destruct w; reflexivity. Qed.

(** C8. For a canvas and an image of positive sizes the draw procedure
    clears the surface and draws the image in a rectangle [r] given by the
    cover-fit rule: the image keeps its aspect ratio, covers the surface and
    is centred on it.  On a surface of 1000 by 500 an image of 400 by 400
    is drawn 1000 wide and 1000 high at offset (0, -250). *)
Theorem drawFrame_cover_fit
    (w : World) (i : nat) (canvas : Canvas.t) (li : LoadedImage) :
  canvasRef w = Some canvas ->
  imagesLoaded w = true ->
  context2d (page w) = true ->
  nth_error (loadedImagesRef w) i = Some li ->
  loaded li = true ->
  0 < Canvas.width canvas -> 0 < Canvas.height canvas ->
  0 < Image.width (image li) -> 0 < Image.height (image li) ->
  let surfaceWidth := Canvas.width canvas in
  let surfaceHeight := Canvas.height canvas in
  let surfaceAspect := surfaceWidth / surfaceHeight in
  let imageAspect := Image.width (image li) / Image.height (image li) in
  exists r : DrawRect,
    drawn (drawFrame (Z.of_nat i) w) =
    drawn w ++
    [ClearRect 0 0 surfaceWidth surfaceHeight;
     DrawImage (image li) (offsetX r) (offsetY r) (drawWidth r) (drawHeight r)]
    /\ (surfaceAspect < imageAspect ->
        drawHeight r = surfaceHeight
        /\ drawWidth r = drawHeight r * imageAspect
        /\ offsetX r = (surfaceWidth - drawWidth r) / 2
        /\ offsetY r = 0)
    /\ (imageAspect <= surfaceAspect ->
        drawWidth r = surfaceWidth
        /\ drawHeight r = drawWidth r / imageAspect
        /\ offsetY r = (surfaceHeight - drawHeight r) / 2
        /\ offsetX r = 0)
    /\ drawWidth r / drawHeight r == imageAspect
    /\ surfaceWidth <= drawWidth r
    /\ surfaceHeight <= drawHeight r
    /\ offsetX r == (surfaceWidth - drawWidth r) / 2
    /\ offsetY r == (surfaceHeight - drawHeight r) / 2
    /\ (surfaceWidth = 1000 -> surfaceHeight = 500 ->
        Image.width (image li) = 400 -> Image.height (image li) = 400 ->
        drawWidth r == 1000 /\ drawHeight r == 1000
        /\ offsetX r == 0 /\ offsetY r == -250).
Proof.
  intros Hc Hl Hctx Hnth Hli Hcw Hch Hiw Hih. cbv zeta.
  exists (coverFit canvas (image li)).
  split.
  { rewrite (drawFrame_draws w i canvas li Hc Hl Hctx Hnth Hli). apply drawn_set_drawn. }
  pose proof (coverFit_spec canvas (image li) Hcw Hch Hiw Hih) as Hspec.
  cbv zeta in Hspec.
  destruct Hspec as (H1 & H2 & H3 & H4 & H5 & H6 & H7).
  repeat (split; [assumption |]).
  intros Ew Eh Eiw Eih.
  unfold coverFit. rewrite Ew, Eh, Eiw, Eih. cbn.
  repeat split; reflexivity.
Qed.

Lemma drawFrame_cover_fit_witness :
  exists r : DrawRect,
    drawn (drawFrame 0 readyWorld) =
    drawn readyWorld ++
    [ClearRect 0 0 1000 500;
     DrawImage {| Image.src := "/images/1.jpg"; Image.width := 400; Image.height := 400 |}
               (offsetX r) (offsetY r) (drawWidth r) (drawHeight r)]
    /\ drawWidth r == 1000 /\ drawHeight r == 1000
    /\ offsetX r == 0 /\ offsetY r == -250.
Proof.
  destruct (drawFrame_cover_fit readyWorld 0
              {| Canvas.width := 1000; Canvas.height := 500 |}
              {| image := {| Image.src := "/images/1.jpg"; Image.width := 400;
                             Image.height := 400 |};
                 loaded := true |})
    as (r & Hdrawn & _ & _ & _ & _ & _ & _ & _ & Hex);
    try reflexivity.
  exists r. split; [exact Hdrawn |].
  apply Hex; reflexivity.
Defined.

(** ** Updating the frame *)

(** Case analysis on the tests a handler makes. *)
Ltac break_tests :=
  repeat match goal with
         | |- context [if ?c then _ else _] => destruct c eqn:?
         | |- context [match ?c with Some _ => _ | None => _ end] => destruct c eqn:?
         | |- context [let (_, _) := ?c in _] => destruct c eqn:?
         end.

Lemma updateFrame_unchanged props p w :
  frameChanged props p w = false -> updateFrame props p w = w.
Proof. unfold frameChanged, updateFrame. intros ->. reflexivity. Qed.

Lemma frameChanged_true props p w :
  frameChanged props p w = true <->
  frameIndex props p <> lastFrameRef w
  /\ (0 <= frameIndex props p < images_length props)%Z.
Proof.
  unfold frameChanged.
  rewrite !andb_true_iff, negb_true_iff, Z.eqb_neq, Z.leb_le, Z.ltb_lt. tauto.
Qed.

(** [drawFrame] changes nothing but the list of canvas operations, and
    reads neither [lastFrameRef] nor [currentFrame]. *)
Lemma drawFrame_only_draws i w : exists ops, drawFrame i w = set_drawn ops w.
Proof.
  unfold drawFrame. break_tests;
    solve [ exists (drawn w); destruct w; reflexivity | eexists; reflexivity ].
Qed.

Lemma drawFrame_drawn_frame_fields i a b w :
  drawn (drawFrame i (set_currentFrame a (set_lastFrameRef b w)))
  = drawn (drawFrame i w).
Proof.
  destruct w. unfold drawFrame. cbn. break_tests; reflexivity.
Qed.

Lemma updateFrame_changed props p w :
  frameChanged props p w = true ->
  updateFrame props p w =
  let f := frameIndex props p in
  let w1 := set_showText (textTriggerFrame props <=? f)%Z
              (drawFrame f (set_currentFrame f (set_lastFrameRef f w))) in
  if (textTriggerFrame props <=? f)%Z then
    if negb (showDescription w1) then
      let w2 := clearIfSet (descriptionTimeout w1) w1 in
      set_descriptionTimeout (Some (nextHandle w2))
        (set_nextHandle (nextHandle w2 + 1)
           (set_timers (timers w2 ++ [(nextHandle w2, (clock w2 + 800)%Z)]) w2))
    else w1
  else
    set_showDescription false (clearIfSet (descriptionTimeout w1) w1).
Proof.
  unfold frameChanged, updateFrame. intros ->. reflexivity.
Qed.

(** Unfolds a changed [updateFrame] on a world given by its fields, with
    the frame index and the operations of [drawFrame] kept abstract. *)
Ltac open_updateFrame props p w H :=
  rewrite (updateFrame_changed props p w H); cbv zeta;
  generalize (frameIndex props p); intros ?f;
  match goal with
  | |- context [drawFrame ?i ?x] =>
      let ops := fresh "ops" in
      let E := fresh "E" in
      destruct (drawFrame_only_draws i x) as [ops E]; rewrite !E; clear E
  end;
  destruct w; unfold clearIfSet, clearTimeout; cbn.

Lemma updateFrame_lastFrameRef props p w :
  frameChanged props p w = true ->
  lastFrameRef (updateFrame props p w) = frameIndex props p
  /\ currentFrame (updateFrame props p w) = frameIndex props p.
Proof.
  intros H. open_updateFrame props p w H.
  break_tests; cbn; split; reflexivity.
Qed.

Lemma updateFrame_drawn props p w :
  frameChanged props p w = true ->
  drawn (updateFrame props p w) = drawn (drawFrame (frameIndex props p) w).
Proof.
  intros H. rewrite (updateFrame_changed props p w H). cbv zeta.
  rewrite <- (drawFrame_drawn_frame_fields (frameIndex props p)
                (frameIndex props p) (frameIndex props p) w).
  generalize (drawFrame (frameIndex props p)
                (set_currentFrame (frameIndex props p)
                   (set_lastFrameRef (frameIndex props p) w))).
  intros w1. destruct w1. unfold clearIfSet, clearTimeout. cbn.
  break_tests; reflexivity.
Qed.

(** [updateFrame] leaves the preload, the animation frame queue, the layout
    and the clock alone. *)
Lemma updateFrame_untouched props p w :
  imagesLoaded (updateFrame props p w) = imagesLoaded w
  /\ rafQueue (updateFrame props p w) = rafQueue w
  /\ ticking (updateFrame props p w) = ticking w
  /\ preload (updateFrame props p w) = preload w
  /\ loadedImagesRef (updateFrame props p w) = loadedImagesRef w
  /\ acquisitions (updateFrame props p w) = acquisitions w
  /\ canvasRef (updateFrame props p w) = canvasRef w
  /\ animationRef (updateFrame props p w) = animationRef w
  /\ page (updateFrame props p w) = page w
  /\ clock (updateFrame props p w) = clock w.
Proof.
  destruct (frameChanged props p w) eqn:H.
  - open_updateFrame props p w H.
    break_tests; cbn; repeat split; reflexivity.
  - rewrite (updateFrame_unchanged props p w H). repeat split; reflexivity.
Qed.

Lemma frameIndex_reclamps props p :
  frameIndex props p = Math_round (clamp p 0 1 * inject_Z (images_length props - 1)).
Proof.
  unfold frameIndex. apply Math_round_comp. now rewrite clamp_01.
Qed.

(** C10. [updateFrame] clamps whatever progress it is given, so that when
    it changes anything (a draw is a change of the list of canvas
    operations) the frame it selects, and records, lies in [[0, N-1]]; with
    no image it changes nothing. *)
Theorem updateFrame_index_in_range (props : Props) (p : number) (w : World) :
  let N := images_length props in
  frameIndex props p = Math_round (clamp p 0 1 * inject_Z (N - 1))
  /\ (updateFrame props p w <> w ->
      (0 <= frameIndex props p <= N - 1)%Z
      /\ lastFrameRef (updateFrame props p w) = frameIndex props p
      /\ currentFrame (updateFrame props p w) = frameIndex props p)
  /\ (drawn (updateFrame props p w) <> drawn w ->
      (0 <= frameIndex props p <= N - 1)%Z)
  /\ (N = 0%Z -> updateFrame props p w = w).
Proof.
  cbv zeta. split; [apply frameIndex_reclamps |].
  assert (Hchg : updateFrame props p w <> w ->
                 frameChanged props p w = true).
  { intros Hne. destruct (frameChanged props p w) eqn:E; [reflexivity |].
    exfalso. apply Hne. now apply updateFrame_unchanged. }
  split; [| split].
  - intros Hne. specialize (Hchg Hne).
    destruct (updateFrame_lastFrameRef props p w Hchg) as [Hl Hc].
    apply frameChanged_true in Hchg. repeat split; [lia | lia | exact Hl | exact Hc].
  - intros Hne.
    assert (Hw : updateFrame props p w <> w) by (intros E; apply Hne; now rewrite E).
    specialize (Hchg Hw). apply frameChanged_true in Hchg. lia.
  - intros HN. apply updateFrame_unchanged.
    destruct (frameChanged props p w) eqn:E; [| reflexivity].
    apply frameChanged_true in E. lia.
Qed.

Lemma updateFrame_index_in_range_witness :
  (0 <= frameIndex homeProps 7%Q <= 29)%Z
  /\ lastFrameRef (updateFrame homeProps 7 readyWorld) = frameIndex homeProps 7
  /\ updateFrame emptyProps 7 readyWorld = readyWorld.
Proof.
  destruct (updateFrame_index_in_range homeProps 7 readyWorld) as (_ & Hin & _ & _).
  destruct (updateFrame_index_in_range emptyProps 7 readyWorld) as (_ & _ & _ & Hempty).
  destruct Hin as (Hr & Hl & _).
  - intros E. apply (f_equal lastFrameRef) in E. vm_compute in E. discriminate.
  - split; [exact Hr |]. split; [exact Hl |]. apply Hempty. reflexivity.
Defined.

Lemma drawCalls_app ops1 ops2 :
  drawCalls (ops1 ++ ops2) = (drawCalls ops1 + drawCalls ops2)%nat.
Proof. unfold drawCalls. now rewrite filter_app, length_app. Qed.

(** In a ready world a valid frame is drawn with exactly one [drawImage]. *)
Lemma drawFrame_ready props f w :
  Ready props w ->
  (0 <= f < images_length props)%Z ->
  drawCalls (drawn (drawFrame f w)) = S (drawCalls (drawn w)).
Proof.
  intros (Hc & Hctx & Hl & Hlen & Hall) Hf.
  destruct (canvasRef w) as [canvas |] eqn:Ec; [| congruence].
  unfold images_length in Hf. rewrite <- Hlen in Hf.
  destruct (nth_error (loadedImagesRef w) (Z.to_nat f)) as [li |] eqn:Hnth.
  - assert (Hli : loaded li = true).
    { rewrite Forall_forall in Hall. apply Hall. eapply nth_error_In; eassumption. }
    rewrite <- (Z2Nat.id f) by lia.
    rewrite (drawFrame_draws w (Z.to_nat f) canvas li Ec Hl Hctx Hnth Hli).
    rewrite drawn_set_drawn, drawCalls_app. cbn. lia.
  - apply nth_error_None in Hnth. lia.
Qed.

Lemma readyWorld_Ready : Ready homeProps readyWorld.
Proof.
  unfold Ready. repeat split; try reflexivity.
  - discriminate.
  - vm_compute. repeat constructor.
Qed.

(** ** The settle timer *)

(** C2, counterexample. In [pendingWorld] the primary text is visible, the
    secondary text is not, and timer 3 is due at 800.  A change to frame 28,
    still above the trigger frame 26, replaces it by timer 4, due at 1300. *)
Lemma settle_timer_rearmed_counterexample :
  showText pendingWorld = true
  /\ showDescription pendingWorld = false
  /\ descriptionTimeout pendingWorld = Some 3%Z
  /\ timers pendingWorld = [(3, 800)]%Z
  /\ lastFrameRef pendingWorld = 29%Z
  /\ frameIndex homeProps (28 # 29) = 28%Z
  /\ (textTriggerFrame homeProps <= 28)%Z
  /\ timers (updateFrame homeProps (28 # 29) pendingWorld) = [(4, 1300)]%Z
  /\ timers (updateFrame homeProps (28 # 29) pendingWorld) <> timers pendingWorld.
Proof.
  repeat split; try reflexivity; vm_compute; discriminate.
Qed.

(** C2, as amended. When a frame change stays at or above the trigger frame,
    the primary text is (or stays) visible; while the secondary text is not
    yet visible the timer held in [descriptionTimeout] is cleared and a new
    one, due 800ms from now, is armed in its place; once the secondary text
    is visible no timer is touched. *)
Theorem settle_timer_rearmed_unless_settled
    (props : Props) (p : number) (w : World) (id : Z) :
  frameChanged props p w = true ->
  (textTriggerFrame props <= frameIndex props p)%Z ->
  descriptionTimeout w = Some id ->
  id <> 0%Z ->
  showText (updateFrame props p w) = true
  /\ (showDescription w = false ->
      timers (updateFrame props p w)
      = dropHandle id (timers w) ++ [(nextHandle w, (clock w + 800)%Z)]
      /\ descriptionTimeout (updateFrame props p w) = Some (nextHandle w)
      /\ showDescription (updateFrame props p w) = false)
  /\ (showDescription w = true ->
      timers (updateFrame props p w) = timers w
      /\ descriptionTimeout (updateFrame props p w) = Some id
      /\ showDescription (updateFrame props p w) = true).
Proof.
  intros Hchg Habove Hid Hnz.
  apply Z.leb_le in Habove. apply Z.eqb_neq in Hnz.
  rewrite (updateFrame_changed props p w Hchg). cbv zeta. rewrite Habove.
  generalize (frameIndex props p). intros f.
  destruct (drawFrame_only_draws f (set_currentFrame f (set_lastFrameRef f w)))
    as [ops ->].
  destruct w. cbn in Hid. subst.
  unfold clearIfSet, clearTimeout. cbn. rewrite Hnz.
  split; [| split].
  - destruct showDescription0; reflexivity.
  - intros ->. cbn. repeat split; reflexivity.
  - intros ->. cbn. repeat split; reflexivity.
Qed.

Lemma settle_timer_rearmed_unless_settled_witness :
  timers (updateFrame homeProps (28 # 29) pendingWorld) = [(4, 1300)]%Z
  /\ descriptionTimeout (updateFrame homeProps (28 # 29) pendingWorld) = Some 4%Z
  /\ showDescription (updateFrame homeProps (28 # 29) pendingWorld) = false.
Proof.
  destruct (settle_timer_rearmed_unless_settled homeProps (28 # 29) pendingWorld 3)
    as (_ & Hpending & _).
  - reflexivity.
  - vm_compute. discriminate.
  - reflexivity.
  - discriminate.
  - apply Hpending. reflexivity.
Defined.

(** ** Scheduling of scroll handling *)

(** A handler that leaves [imagesLoaded], [showDescription] and
    [currentFrame] as they were causes no effect to run again. *)
Lemma commit_same before after :
  imagesLoaded after = imagesLoaded before ->
  showDescription after = showDescription before ->
  currentFrame after = currentFrame before ->
  commit before after = after.
Proof.
  intros H1 H2 H3. unfold commit.
  rewrite H1, H2, H3, !Bool.eqb_reflx, Z.eqb_refl. reflexivity.
Qed.


Lemma handleScroll_state w :
  imagesLoaded (handleScroll w) = imagesLoaded w
  /\ showDescription (handleScroll w) = showDescription w
  /\ currentFrame (handleScroll w) = currentFrame w
  /\ drawn (handleScroll w) = drawn w
  /\ canvasRef (handleScroll w) = canvasRef w.
Proof.
  unfold handleScroll, requestAnimationFrame.
  destruct w; cbn. break_tests; cbn; repeat split; reflexivity.
Qed.

Lemma step_Scroll props pg w :
  step props w (Scroll pg) = handleScroll (set_page pg w).
Proof.
  unfold step. cbn [handle].
  destruct (handleScroll_state (set_page pg w)) as (H1 & H2 & H3 & _).
  apply commit_same.
  - rewrite H1. destruct w; reflexivity.
  - rewrite H2. destruct w; reflexivity.
  - rewrite H3. destruct w; reflexivity.
Qed.


Lemma run_cons props e es w :
  run props (e :: es) w = run props es (step props w e).
Proof. reflexivity. Qed.

Lemma run_app props es1 es2 w :
  run props (es1 ++ es2) w = run props es2 (run props es1 w).
Proof. unfold run. apply fold_left_app. Qed.




(** ** The loaded flag as a gate *)

Lemma Quiet_refl w : Quiet w w.
Proof. unfold Quiet. repeat split; reflexivity. Qed.

Lemma Quiet_trans w1 w2 w3 : Quiet w1 w2 -> Quiet w2 w3 -> Quiet w1 w3.
Proof.
  intros (A1 & A2 & A3 & A4 & A5) (B1 & B2 & B3 & B4 & B5).
  unfold Quiet. repeat split; try congruence.
  intros H. rewrite B5, A5; congruence.
Qed.

(** Closes [Quiet] goals about functions that only set fields. *)
Ltac quiet_fields :=
  unfold Quiet; cbn; repeat split; try reflexivity;
  try (intros; cbn in *; subst; cbn in *; congruence).

Lemma drawFrame_not_loaded i w : imagesLoaded w = false -> drawFrame i w = w.
Proof.
  intros H. unfold drawFrame. rewrite H. cbn. destruct (canvasRef w); reflexivity.
Qed.

Lemma drawFrame_Quiet i w : Quiet w (drawFrame i w).
Proof.
  destruct (imagesLoaded w) eqn:E.
  - destruct (drawFrame_only_draws i w) as [ops ->].
    destruct w; cbn in E; subst. quiet_fields.
  - rewrite drawFrame_not_loaded by assumption. apply Quiet_refl.
Qed.

Lemma updateFrame_Quiet props p w : Quiet w (updateFrame props p w).
Proof.
  destruct (updateFrame_untouched props p w) as (H1 & _ & _ & H2 & H3 & H4 & _).
  unfold Quiet. repeat split; try assumption.
  intros Hl. destruct (frameChanged props p w) eqn:E.
  - rewrite (updateFrame_drawn props p w E), drawFrame_not_loaded; auto.
  - now rewrite (updateFrame_unchanged props p w E).
Qed.

Lemma set_ticking_Quiet b w : Quiet w (set_ticking b w).
Proof. destruct w. quiet_fields. Qed.

Lemma set_rafQueue_Quiet q w : Quiet w (set_rafQueue q w).
Proof. destruct w. quiet_fields. Qed.

Lemma set_page_Quiet pg w : Quiet w (set_page pg w).
Proof. destruct w. quiet_fields. Qed.

Lemma set_clock_Quiet t w : Quiet w (set_clock t w).
Proof. destruct w. quiet_fields. Qed.

Lemma set_canvasRef_Quiet c w : Quiet w (set_canvasRef c w).
Proof. destruct w. quiet_fields. Qed.

Lemma clearIfSet_Quiet h w : Quiet w (clearIfSet h w).
Proof.
  destruct w. unfold clearIfSet, clearTimeout. break_tests; quiet_fields.
Qed.

Lemma handleScroll_Quiet w : Quiet w (handleScroll w).
Proof.
  destruct w. unfold handleScroll, requestAnimationFrame. cbn.
  break_tests; quiet_fields.
Qed.

Lemma animationCallback_Quiet props p w : Quiet w (animationCallback props p w).
Proof.
  unfold animationCallback.
  eapply Quiet_trans; [apply updateFrame_Quiet | apply set_ticking_Quiet].
Qed.

Lemma runAnimationFrame_Quiet props w : Quiet w (runAnimationFrame props w).
Proof.
  unfold runAnimationFrame.
  eapply Quiet_trans; [apply (set_rafQueue_Quiet []) |].
  generalize (set_rafQueue [] w). generalize (rafQueue w).
  intros q. induction q as [| cb q IH]; intros w0; cbn [fold_left].
  - apply Quiet_refl.
  - eapply Quiet_trans; [apply animationCallback_Quiet | apply IH].
Qed.

Lemma resizeCanvas_Quiet w : Quiet w (resizeCanvas w).
Proof.
  unfold resizeCanvas. break_tests; try apply Quiet_refl.
  - eapply Quiet_trans; [apply set_canvasRef_Quiet | apply drawFrame_Quiet].
  - apply set_canvasRef_Quiet.
Qed.

Lemma runTimeout_Quiet id w : Quiet w (runTimeout id w).
Proof.
  destruct w. unfold runTimeout. cbn. break_tests; quiet_fields.
Qed.

Lemma scrollEffect_Quiet w : Quiet w (scrollEffect w).
Proof.
  unfold scrollEffect.
  eapply Quiet_trans; [apply set_ticking_Quiet | apply handleScroll_Quiet].
Qed.

Lemma scrollEffectCleanup_Quiet w : Quiet w (scrollEffectCleanup w).
Proof.
  unfold scrollEffectCleanup.
  eapply Quiet_trans; [| apply clearIfSet_Quiet].
  unfold cancelAnimationFrame. destruct w; cbn. break_tests; quiet_fields.
Qed.

(** Re-rendering draws nothing and sets no flag while the images are not
    loaded. *)
Lemma commit_Quiet before after : Quiet after (commit before after).
Proof.
  unfold commit, resizeEffect.
  break_tests; try apply Quiet_refl;
    repeat (eapply Quiet_trans;
            [| first [apply resizeCanvas_Quiet | apply scrollEffect_Quiet
                     | apply scrollEffectCleanup_Quiet]]);
    apply Quiet_refl.
Qed.

(** ** Preloading *)

Lemma set_nth_length {A : Type} i (x : A) l :
  List.length (set_nth i x l) = List.length l.
Proof.
  revert i. induction l as [| h t IH]; intros [| j]; cbn; try reflexivity.
  now rewrite IH.
Qed.

(** When every promise is resolved none is unsettled. *)
Lemma allResolved_settled l values i :
  allResolved l = Some values -> nth_error l i <> Some Unsettled.
Proof.
  revert values i. induction l as [| a t IH]; intros values i H.
  - destruct i; discriminate.
  - cbn in H. destruct a as [| li |]; cbn in H; try discriminate.
    destruct (allResolved t) as [lis |] eqn:Et; [| discriminate].
    destruct i as [| j]; cbn; [discriminate |]. now apply (IH lis).
Qed.

Lemma PreloadInv_Quiet props w w' :
  Quiet w w' -> PreloadInv props w -> PreloadInv props w'.
Proof.
  intros (H1 & H2 & H3 & H4 & H5) [Hlen Hinv].
  unfold PreloadInv. rewrite H2, H4. split; [exact Hlen |].
  destruct (preload w); try exact Hinv;
    destruct Hinv as (Hl & Hd & Hr); repeat split; try congruence;
    rewrite H5; assumption.
Qed.

Lemma onload_PreloadInv props i nw nh w :
  PreloadInv props w -> PreloadInv props (onload props i nw nh w).
Proof.
  intros [Hlen Hinv]. unfold onload.
  destruct (nth_error (images props) i) as [src |]; [| split; assumption].
  destruct (nth_error (acquisitions w) i) as [[| li |] |] eqn:Ei;
    try (split; assumption).
  unfold promiseAll, PreloadInv.
  destruct w; cbn in *.
  destruct preload0; cbn.
  - destruct (allResolved (set_nth i _ acquisitions0)) eqn:Ea; cbn.
    + rewrite set_nth_length. split; [assumption | congruence].
    + rewrite set_nth_length. split; assumption.
  - exfalso. destruct (allResolved acquisitions0) as [values |] eqn:Ea; [| congruence].
    exact (allResolved_settled _ _ i Ea Ei).
  - rewrite set_nth_length. split; assumption.
Qed.

Lemma onerror_PreloadInv props i w :
  PreloadInv props w -> PreloadInv props (onerror props i w).
Proof.
  intros [Hlen Hinv]. unfold onerror.
  destruct (nth_error (images props) i) as [src |]; [| split; assumption].
  destruct (nth_error (acquisitions w) i) as [[| li |] |] eqn:Ei;
    try (split; assumption).
  unfold PreloadInv.
  destruct w; cbn in *.
  destruct preload0; cbn; rewrite set_nth_length.
  - split; assumption.
  - exfalso. destruct (allResolved acquisitions0) as [values |] eqn:Ea; [| congruence].
    exact (allResolved_settled _ _ i Ea Ei).
  - split; assumption.
Qed.

Lemma handle_Quiet props e w :
  match e with
  | ImageLoad _ _ _ | ImageError _ => True
  | _ => Quiet w (handle props e w)
  end.
Proof.
  destruct e; cbn [handle]; try exact I.
  - eapply Quiet_trans; [apply set_page_Quiet | apply handleScroll_Quiet].
  - apply runAnimationFrame_Quiet.
  - eapply Quiet_trans; [apply set_page_Quiet | apply resizeCanvas_Quiet].
  - apply set_clock_Quiet.
  - apply runTimeout_Quiet.
Qed.

Lemma step_PreloadInv props w e :
  PreloadInv props w -> PreloadInv props (step props w e).
Proof.
  intros H. unfold step.
  apply (PreloadInv_Quiet props (handle props e w)); [apply commit_Quiet |].
  pose proof (handle_Quiet props e w) as Hq.
  destruct e; try (eapply PreloadInv_Quiet; eassumption).
  - now apply onload_PreloadInv.
  - now apply onerror_PreloadInv.
Qed.

Lemma run_PreloadInv props es : forall w,
  PreloadInv props w -> PreloadInv props (run props es w).
Proof.
  induction es as [| e es IH]; intros w H; [exact H |].
  rewrite run_cons. apply IH, step_PreloadInv, H.
Qed.

Lemma promiseAll_PreloadInv props w :
  PreloadInv props w -> PreloadInv props (promiseAll props w).
Proof.
  intros [Hlen Hinv]. unfold promiseAll, PreloadInv.
  destruct w; cbn in *.
  destruct preload0; cbn; try (split; assumption).
  destruct (allResolved acquisitions0) eqn:Ea; cbn; split; try assumption.
  congruence.
Qed.

Lemma mount_PreloadInv props pg : PreloadInv props (mount props pg).
Proof.
  unfold mount.
  eapply PreloadInv_Quiet; [apply commit_Quiet |].
  apply promiseAll_PreloadInv.
  eapply PreloadInv_Quiet; [apply resizeCanvas_Quiet |].
  eapply PreloadInv_Quiet; [apply scrollEffect_Quiet |].
  unfold PreloadInv, preloadImages, initialWorld. cbn.
  rewrite length_map. repeat split; reflexivity.
Qed.

Lemma Stranded_Quiet src w w' : Quiet w w' -> Stranded src w -> Stranded src w'.
Proof.
  intros (H1 & H2 & H3 & H4 & H5) (Hp & Hl & Hd & Hr).
  unfold Stranded. repeat split; try congruence. rewrite H5; assumption.
Qed.

Lemma step_Stranded props src w e :
  Stranded src w -> Stranded src (step props w e).
Proof.
  intros H. unfold step.
  apply (Stranded_Quiet src (handle props e w)); [apply commit_Quiet |].
  pose proof (handle_Quiet props e w) as Hq.
  destruct e; try (eapply Stranded_Quiet; eassumption); cbn [handle].
  - unfold onload, promiseAll.
    destruct (nth_error (images props) i) as [s |]; [| exact H].
    destruct (nth_error (acquisitions w) i) as [[| li |] |]; try exact H.
    destruct H as (Hp & Hl & Hd & Hr).
    destruct w; cbn in *; subst. repeat split; reflexivity.
  - unfold onerror.
    destruct (nth_error (images props) i) as [s |]; [| exact H].
    destruct (nth_error (acquisitions w) i) as [[| li |] |]; try exact H.
    destruct H as (Hp & Hl & Hd & Hr).
    destruct w; cbn in *; subst. repeat split; reflexivity.
Qed.

Lemma run_Stranded props src es : forall w,
  Stranded src w -> Stranded src (run props es w).
Proof.
  induction es as [| e es IH]; intros w H; [exact H |].
  rewrite run_cons. apply IH, step_Stranded, H.
Qed.

(** The failure of an image that has not settled yet. *)
Lemma step_ImageError props w i :
  PreloadInv props w ->
  nth_error (acquisitions w) i = Some Unsettled ->
  exists src,
    Stranded src (step props w (ImageError i))
    /\ (preload w = AllPending -> nth_error (images props) i = Some src)
    /\ (forall s, preload w = AllRejected s -> src = s).
Proof.
  intros [Hlen Hinv] Hi.
  assert (Hsrc : exists src, nth_error (images props) i = Some src).
  { destruct (nth_error (images props) i) as [src |] eqn:E; [now exists src |].
    apply nth_error_None in E.
    assert (nth_error (acquisitions w) i <> None) as Hn by congruence.
    apply nth_error_Some in Hn. lia. }
  destruct Hsrc as [src Hsrc].
  destruct (preload w) eqn:Ep.
  - exists src. split; [| split; [auto | discriminate]].
    unfold step. eapply Stranded_Quiet; [apply commit_Quiet |].
    cbn [handle]. unfold onerror. rewrite Hsrc, Hi.
    destruct Hinv as (Hl & Hd & Hr).
    destruct w; cbn in *; subst. repeat split; reflexivity.
  - exfalso. destruct (allResolved (acquisitions w)) as [values |] eqn:Ea; [| congruence].
    exact (allResolved_settled _ _ i Ea Hi).
  - exists src0. split; [| split; [discriminate | congruence]].
    apply step_Stranded. destruct Hinv as (Hl & Hd & Hr). repeat split; assumption.
Qed.

(** C3. If, at any point after mounting, the image at a position that has
    not settled yet fails to load, then whatever happens before and after,
    [Promise.all] ends rejected, with the error of the first image that
    failed; what had been acquired is never published, the loaded flag is
    never set and no canvas operation is ever issued. *)
Theorem preload_all_or_nothing
    (props : Props) (pg : Page) (es1 : list Event) (i : nat) (es2 : list Event) :
  let w1 := run props es1 (mount props pg) in
  let w := run props (es1 ++ ImageError i :: es2) (mount props pg) in
  nth_error (acquisitions w1) i = Some Unsettled ->
  exists src,
    preload w = AllRejected src
    /\ (preload w1 = AllPending -> nth_error (images props) i = Some src)
    /\ (forall s, preload w1 = AllRejected s -> src = s)
    /\ imagesLoaded w = false
    /\ loadedImagesRef w = []
    /\ drawn w = [].
Proof.
  cbv zeta. intros Hi.
  pose proof (run_PreloadInv props es1 _ (mount_PreloadInv props pg)) as Hinv.
  destruct (step_ImageError props _ i Hinv Hi) as (src & Hs & Hfirst & Hkeep).
  exists src. rewrite run_app, run_cons.
  destruct (run_Stranded props src es2 _ Hs) as (Hp & Hl & Hd & Hr).
  repeat split; assumption.
Qed.

Lemma preload_all_or_nothing_witness :
  exists src,
    preload (run homeProps
               (firstn 12 loadAll ++ ImageError 12
                  :: skipn 13 loadAll
                     ++ [Scroll (viewport (-3500)); AnimationFrame; Resize (viewport (-3500))])
               (mount homeProps (viewport 0)))
    = AllRejected src
    /\ src = "/images/13.jpg"%string
    /\ imagesLoaded
         (run homeProps
            (firstn 12 loadAll ++ ImageError 12
               :: skipn 13 loadAll
                  ++ [Scroll (viewport (-3500)); AnimationFrame; Resize (viewport (-3500))])
            (mount homeProps (viewport 0)))
       = false
    /\ drawn
         (run homeProps
            (firstn 12 loadAll ++ ImageError 12
               :: skipn 13 loadAll
                  ++ [Scroll (viewport (-3500)); AnimationFrame; Resize (viewport (-3500))])
            (mount homeProps (viewport 0)))
       = [].
Proof.
  destruct (preload_all_or_nothing homeProps (viewport 0) (firstn 12 loadAll) 12
              (skipn 13 loadAll
                 ++ [Scroll (viewport (-3500)); AnimationFrame; Resize (viewport (-3500))]))
    as (src & Hp & Hfirst & _ & Hl & _ & Hd).
  - vm_compute. reflexivity.
  - exists src. split; [exact Hp |]. split; [| split; [exact Hl | exact Hd]].
    assert (E : Some "/images/13.jpg"%string = Some src).
    { apply Hfirst. vm_compute. reflexivity. }
    congruence.
Defined.

(** ** What happens before the images are loaded *)

Lemma onload_drawn props i nw nh w : drawn (onload props i nw nh w) = drawn w.
Proof.
  unfold onload, promiseAll.
  destruct (nth_error (images props) i) as [src |]; [| reflexivity].
  destruct (nth_error (acquisitions w) i) as [[| li |] |]; try reflexivity.
  destruct w; cbn. destruct preload0; try reflexivity.
  destruct (allResolved _); reflexivity.
Qed.

Lemma onerror_drawn props i w : drawn (onerror props i w) = drawn w.
Proof.
  unfold onerror.
  destruct (nth_error (images props) i) as [src |]; [| reflexivity].
  destruct (nth_error (acquisitions w) i) as [[| li |] |]; try reflexivity.
  destruct w; cbn. destruct preload0; reflexivity.
Qed.

(** No handler draws while the flag is down. *)
Lemma handle_drawn props e w :
  imagesLoaded w = false -> drawn (handle props e w) = drawn w.
Proof.
  intros Hl. pose proof (handle_Quiet props e w) as Hq.
  destruct e; try (destruct Hq as (_ & _ & _ & _ & Hd); now apply Hd).
  - apply onload_drawn.
  - apply onerror_drawn.
Qed.

Lemma resizeCanvas_sizes w c r :
  canvasRef w = Some c ->
  parentRect (page w) = Some r ->
  canvasRef (resizeCanvas w)
  = Some (Canvas.resized r).
Proof.
  intros Hc Hr. unfold resizeCanvas. rewrite Hc, Hr.
  match goal with
  | |- context [drawFrame ?i ?x] => destruct (drawFrame_only_draws i x) as [ops ->]
  end.
  destruct w; cbn. break_tests; reflexivity.
Qed.

Lemma resizeCanvas_state w :
  imagesLoaded (resizeCanvas w) = imagesLoaded w
  /\ showDescription (resizeCanvas w) = showDescription w
  /\ currentFrame (resizeCanvas w) = currentFrame w.
Proof.
  unfold resizeCanvas.
  break_tests; try (repeat split; reflexivity);
    try match goal with
        | |- context [drawFrame ?i ?x] =>
            destruct (drawFrame_only_draws i x) as [ops ->]
        end; destruct w; repeat split; reflexivity.
Qed.

(** C4, counterexample. The flag is down after mounting, yet mounting has
    taken the canvas from its default size of 300 by 150 to the size of its
    parent, 1000 by 500, and a resize of the window to 1280 by 720, still
    before the flag is set, sizes it again. *)
Lemma canvas_sized_before_loaded :
  imagesLoaded (mount homeProps (viewport 0)) = false
  /\ canvasRef (initialWorld (viewport 0))
     = Some {| Canvas.width := 300; Canvas.height := 150 |}
  /\ canvasRef (mount homeProps (viewport 0))
     = Some {| Canvas.width := 1000; Canvas.height := 500 |}
  /\ imagesLoaded
       (step homeProps (mount homeProps (viewport 0))
          (Resize {| containerRect := None;
                     parentRect := Some {| DOMRect.top := 0; DOMRect.width := 1280;
                                           DOMRect.height := 720 |};
                     innerHeight := 720; context2d := true |}))
     = false
  /\ canvasRef
       (step homeProps (mount homeProps (viewport 0))
          (Resize {| containerRect := None;
                     parentRect := Some {| DOMRect.top := 0; DOMRect.width := 1280;
                                           DOMRect.height := 720 |};
                     innerHeight := 720; context2d := true |}))
     = Some {| Canvas.width := 1280; Canvas.height := 720 |}
  /\ canvasRef
       (step homeProps (mount homeProps (viewport 0))
          (Resize {| containerRect := None;
                     parentRect := Some {| DOMRect.top := 0; DOMRect.width := 1280;
                                           DOMRect.height := 720 |};
                     innerHeight := 720; context2d := true |}))
     <> canvasRef (mount homeProps (viewport 0)).
Proof.
  repeat split; try reflexivity. vm_compute. discriminate.
Qed.

(** * Further facts

    The rest of this file covers what the component does beyond the points
    above: the overlay below the trigger frame and when the timer fires,
    the redraw after a resize, the scheduler, unmounting, a preload that
    succeeds, and the frame counter. *)

(** ** Steps that leave the core alone *)

Lemma SameCore_refl w : SameCore w w.
Proof. unfold SameCore. repeat split; auto. Qed.

Lemma SameCore_trans w1 w2 w3 : SameCore w1 w2 -> SameCore w2 w3 -> SameCore w1 w3.
Proof.
  unfold SameCore. intros H1 H2.
  decompose [and] H1. decompose [and] H2. repeat split; try congruence. auto.
Qed.

Ltac same_core := solve [unfold SameCore; cbn; repeat split; auto].

Lemma set_page_SameCore pg w : SameCore w (set_page pg w).
Proof. destruct w. same_core. Qed.

Lemma set_clock_invariants props t w :
  SchedulerInv w -> OverlayInv props w ->
  SchedulerInv (set_clock t w) /\ OverlayInv props (set_clock t w).
Proof. destruct w. intros Hs Ho. split; assumption. Qed.

Lemma drawFrame_SameCore i w : SameCore w (drawFrame i w).
Proof. destruct (drawFrame_only_draws i w) as [ops ->]. destruct w. same_core. Qed.

Lemma resizeCanvas_SameCore w : SameCore w (resizeCanvas w).
Proof.
  unfold resizeCanvas. break_tests; try apply SameCore_refl.
  - eapply SameCore_trans; [| apply drawFrame_SameCore]. destruct w. same_core.
  - destruct w. same_core.
Qed.

Lemma onload_SameCore props i nw nh w : SameCore w (onload props i nw nh w).
Proof.
  unfold onload, promiseAll.
  destruct (nth_error (images props) i) as [src |]; [| apply SameCore_refl].
  destruct (nth_error (acquisitions w) i) as [[| li |] |]; try apply SameCore_refl.
  destruct w; cbn. destruct preload0; try same_core.
  destruct (allResolved _); same_core.
Qed.

Lemma onerror_SameCore props i w : SameCore w (onerror props i w).
Proof.
  unfold onerror.
  destruct (nth_error (images props) i) as [src |]; [| apply SameCore_refl].
  destruct (nth_error (acquisitions w) i) as [[| li |] |]; try apply SameCore_refl.
  destruct w; cbn. destruct preload0; same_core.
Qed.

Lemma SchedulerInv_SameCore w w' : SameCore w w' -> SchedulerInv w -> SchedulerInv w'.
Proof.
  unfold SameCore, SchedulerInv. intros H (H1 & H2 & H3). decompose [and] H.
  repeat match goal with E : _ w' = _ w |- _ => rewrite E; clear E end.
  split; [assumption |]. split; [assumption |].
  intros Hl. apply H3. destruct (imagesLoaded w); [| reflexivity].
  match goal with Hi : true = true -> _ |- _ => rewrite Hi in Hl; auto end.
Qed.

Lemma OverlayInv_SameCore props w w' :
  SameCore w w' -> OverlayInv props w -> OverlayInv props w'.
Proof.
  unfold SameCore, OverlayInv. intros H Hinv. decompose [and] H.
  repeat match goal with E : _ w' = _ w |- _ => rewrite E; clear E end.
  exact Hinv.
Qed.

(** ** The scheduler and the overlay along a trace *)

Lemma updateFrame_nextHandle props p w :
  (nextHandle w <= nextHandle (updateFrame props p w))%Z.
Proof.
  destruct (frameChanged props p w) eqn:H.
  - open_updateFrame props p w H. break_tests; cbn; lia.
  - rewrite (updateFrame_unchanged props p w H). lia.
Qed.

Lemma updateFrame_SchedulerInv props p w :
  SchedulerInv w -> SchedulerInv (updateFrame props p w).
Proof.
  intros (H1 & H2 & H3).
  destruct (updateFrame_untouched props p w)
    as (El & Eq & Et & _ & _ & _ & _ & Ea & _).
  pose proof (updateFrame_nextHandle props p w) as Hn.
  unfold SchedulerInv. rewrite El, Eq, Et, Ea.
  split; [lia |]. split; assumption.
Qed.

Lemma handleScroll_SchedulerInv w : SchedulerInv w -> SchedulerInv (handleScroll w).
Proof.
  unfold SchedulerInv, handleScroll, requestAnimationFrame.
  destruct w; cbn. intros (H1 & H2 & H3).
  break_tests; cbn; try (split; [assumption | split; assumption]).
  split; [lia |].
  destruct ticking0; [discriminate |].
  destruct H2 as [[_ Hq] | [Ht _]]; [| discriminate]. subst.
  split.
  - right. split; [reflexivity |]. split; [lia |]. eexists. reflexivity.
  - intros ->. discriminate.
Qed.

Lemma handleScroll_overlay w :
  currentFrame (handleScroll w) = currentFrame w
  /\ showText (handleScroll w) = showText w
  /\ showDescription (handleScroll w) = showDescription w
  /\ descriptionTimeout (handleScroll w) = descriptionTimeout w
  /\ lastFrameRef (handleScroll w) = lastFrameRef w
  /\ timers (handleScroll w) = timers w
  /\ clock (handleScroll w) = clock w
  /\ (nextHandle w <= nextHandle (handleScroll w))%Z.
Proof.
  unfold handleScroll, requestAnimationFrame.
  destruct w; cbn. break_tests; cbn; repeat split; try reflexivity; lia.
Qed.

Lemma handleScroll_OverlayInv props w :
  OverlayInv props w -> OverlayInv props (handleScroll w).
Proof.
  destruct (handleScroll_overlay w) as (E1 & E2 & E3 & E4 & E5 & E6 & _ & Hn).
  unfold OverlayInv. rewrite E1, E2, E3, E4, E5, E6.
  intros (H1 & H2). split; [lia | exact H2].
Qed.

(** With at most one timer pending, the one [descriptionTimeout] names,
    clearing that handle leaves no timer. *)
Lemma clearIfSet_pending w :
  (timers w = []
   \/ exists id due, id <> 0%Z /\ timers w = [(id, due)]
                     /\ descriptionTimeout w = Some id) ->
  clearIfSet (descriptionTimeout w) w = set_timers [] w.
Proof.
  destruct w; cbn. unfold clearIfSet, clearTimeout, dropHandle.
  intros [-> | (id & due & Hid & -> & ->)]; cbn.
  - destruct descriptionTimeout0 as [id |]; [destruct (id =? 0)%Z |]; reflexivity.
  - apply Z.eqb_neq in Hid. rewrite Hid. cbn. rewrite Z.eqb_refl. reflexivity.
Qed.

Lemma updateFrame_OverlayInv props p w :
  OverlayInv props w -> OverlayInv props (updateFrame props p w).
Proof.
  intros Hinv.
  destruct (frameChanged props p w) eqn:H;
    [| now rewrite (updateFrame_unchanged props p w H)].
  pose proof (proj1 (frameChanged_true props p w) H) as [Hne Hrange].
  rewrite (updateFrame_changed props p w H). cbv zeta.
  revert Hne Hrange. generalize (frameIndex props p). intros f Hne Hrange.
  destruct (drawFrame_only_draws f (set_currentFrame f (set_lastFrameRef f w)))
    as [ops ->].
  destruct Hinv as (H1 & H2 & H3 & H4).
  match goal with
  | |- context [clearIfSet (descriptionTimeout ?x) ?x] =>
      rewrite !(clearIfSet_pending x)
        by (destruct w; cbn in *;
            destruct H2 as [-> | (id & due & Hid & -> & -> & _)];
            [left; reflexivity | right; exists id, due; auto])
  end.
  unfold OverlayInv. destruct w; cbn in *.
  destruct (textTriggerFrame props <=? f)%Z eqn:Et; cbn.
  - destruct showDescription0; cbn.
    + split; [assumption |].
      split; [left; destruct H2 as [-> | (id & due & _ & _ & _ & _ & Hd)];
              [reflexivity | discriminate] |].
      split; [reflexivity |].
      right. repeat split; lia.
    + split; [lia |].
      split; [right; exists nextHandle0, (clock0 + 800)%Z; repeat split; lia |].
      split; [discriminate |].
      right. repeat split; lia.
  - split; [assumption |]. split; [left; reflexivity |].
    split; [discriminate |].
    right. repeat split; lia.
Qed.

Lemma runTimeout_OverlayInv props id w :
  OverlayInv props w -> OverlayInv props (runTimeout id w).
Proof.
  unfold OverlayInv, runTimeout. destruct w; cbn.
  intros (H1 & H2 & H3 & H4).
  destruct (existsb _ timers0) eqn:E; cbn; [| repeat split; assumption].
  destruct H2 as [-> | (id' & due & Hid & -> & -> & -> & ->)]; [discriminate |].
  cbn in E. rewrite orb_false_r in E. apply andb_true_iff in E as [E _].
  unfold dropHandle. cbn. rewrite E. cbn.
  split; [assumption |]. split; [left; reflexivity |]. split; [reflexivity |].
  destruct H4 as [(_ & _ & Hs & _) | (Hr & Hc & Hs)]; [discriminate |].
  right. repeat split; assumption || lia.
Qed.

Lemma runTimeout_SchedulerInv id w : SchedulerInv w -> SchedulerInv (runTimeout id w).
Proof.
  unfold SchedulerInv, runTimeout. destruct w; cbn.
  destruct (existsb _ timers0); cbn; auto.
Qed.

Lemma animationCallback_OverlayInv props p w :
  OverlayInv props w -> OverlayInv props (animationCallback props p w).
Proof.
  intros H. apply (updateFrame_OverlayInv props p) in H.
  unfold animationCallback. destruct (updateFrame props p w). exact H.
Qed.

Lemma runAnimationFrame_OverlayInv props w :
  OverlayInv props w -> OverlayInv props (runAnimationFrame props w).
Proof.
  unfold runAnimationFrame. intros H.
  assert (H0 : OverlayInv props (set_rafQueue [] w)) by (destruct w; exact H).
  revert H0. generalize (set_rafQueue [] w). generalize (rafQueue w).
  intros q. induction q as [| cb q IH]; intros w0 H0; cbn [fold_left]; [exact H0 |].
  apply IH, animationCallback_OverlayInv, H0.
Qed.

Lemma runAnimationFrame_SchedulerInv props w :
  SchedulerInv w -> SchedulerInv (runAnimationFrame props w).
Proof.
  intros (H1 & H2 & H3). unfold runAnimationFrame.
  destruct H2 as [[Ht Hq] | (Ht & Ha & p & Hq)]; rewrite Hq; cbn [fold_left snd].
  - unfold SchedulerInv. destruct w; cbn in *. subst. auto.
  - unfold animationCallback.
    destruct (updateFrame_untouched props p (set_rafQueue [] w)) as (_ & Eq' & _).
    pose proof (updateFrame_nextHandle props p (set_rafQueue [] w)) as Hn.
    revert Eq' Hn. generalize (updateFrame props p (set_rafQueue [] w)).
    intros u Eq' Hn.
    assert (Hq0 : rafQueue u = []) by (rewrite Eq'; destruct w; reflexivity).
    assert (Hn0 : (1 <= nextHandle u)%Z) by (destruct w; cbn in *; lia).
    clear Eq' Hn.
    unfold SchedulerInv. destruct u; cbn in *. subst.
    split; [lia |]. split; [left; split; reflexivity | auto].
Qed.

(** The clean-up of the scroll effect leaves nothing scheduled and no timer
    pending. *)
Lemma scrollEffectCleanup_clears w :
  SchedulerInv w ->
  (timers w = []
   \/ exists id due, id <> 0%Z /\ timers w = [(id, due)]
                     /\ descriptionTimeout w = Some id) ->
  scrollEffectCleanup w = set_timers [] (set_rafQueue [] w).
Proof.
  intros (H1 & H2 & H3) Ht. unfold scrollEffectCleanup.
  assert (Hc : (if (animationRef w =? 0)%Z then w
                else cancelAnimationFrame (animationRef w) w) = set_rafQueue [] w).
  { unfold cancelAnimationFrame, dropHandle. destruct w; cbn in *.
    destruct H2 as [[_ ->] | (_ & Ha & p & ->)].
    - destruct (animationRef0 =? 0)%Z; reflexivity.
    - apply Z.eqb_neq in Ha. rewrite Ha. cbn. rewrite Z.eqb_refl. reflexivity. }
  rewrite Hc.
  apply clearIfSet_pending. destruct w; exact Ht.
Qed.

Lemma OverlayInv_timers props w :
  OverlayInv props w ->
  timers w = []
  \/ exists id due, id <> 0%Z /\ timers w = [(id, due)]
                    /\ descriptionTimeout w = Some id.
Proof.
  intros (_ & [H | (id & due & Hid & Ht & Hd & _)] & _); [left; exact H |].
  right. exists id, due. auto.
Qed.

Lemma rerun_scrollEffect_SchedulerInv props w :
  SchedulerInv w -> OverlayInv props w ->
  SchedulerInv (scrollEffect (scrollEffectCleanup w)).
Proof.
  intros Hs Ho.
  rewrite (scrollEffectCleanup_clears w Hs (OverlayInv_timers props w Ho)).
  unfold scrollEffect. apply handleScroll_SchedulerInv.
  destruct Hs as (H1 & _ & _). unfold SchedulerInv. destruct w; cbn in *. auto.
Qed.

Lemma rerun_scrollEffect_OverlayInv props w :
  SchedulerInv w -> OverlayInv props w ->
  OverlayInv props (scrollEffect (scrollEffectCleanup w)).
Proof.
  intros Hs Ho.
  rewrite (scrollEffectCleanup_clears w Hs (OverlayInv_timers props w Ho)).
  unfold scrollEffect. apply handleScroll_OverlayInv.
  destruct Ho as (H1 & H2 & H3 & H4). unfold OverlayInv. destruct w; cbn in *.
  split; [assumption |]. split; [left; reflexivity |]. split; [assumption |].
  destruct H4 as [(Ha & Hb & Hc & Hd & He) | H4]; [left | right; exact H4].
  repeat split; auto.
Qed.

Lemma commit_invariants props before after :
  SchedulerInv after -> OverlayInv props after ->
  SchedulerInv (commit before after) /\ OverlayInv props (commit before after).
Proof.
  intros Hs Ho. unfold commit, resizeEffect.
  pose proof (rerun_scrollEffect_SchedulerInv props after Hs Ho) as Hs'.
  pose proof (rerun_scrollEffect_OverlayInv props after Hs Ho) as Ho'.
  break_tests; split;
    first [ assumption
          | eapply SchedulerInv_SameCore; [apply resizeCanvas_SameCore | assumption]
          | eapply OverlayInv_SameCore; [apply resizeCanvas_SameCore | assumption] ].
Qed.

Lemma handle_invariants props e w :
  SchedulerInv w -> OverlayInv props w ->
  SchedulerInv (handle props e w) /\ OverlayInv props (handle props e w).
Proof.
  intros Hs Ho. destruct e; cbn [handle].
  - split; [eapply SchedulerInv_SameCore | eapply OverlayInv_SameCore];
      try apply onload_SameCore; assumption.
  - split; [eapply SchedulerInv_SameCore | eapply OverlayInv_SameCore];
      try apply onerror_SameCore; assumption.
  - split.
    + apply handleScroll_SchedulerInv.
      eapply SchedulerInv_SameCore; [apply set_page_SameCore | assumption].
    + apply handleScroll_OverlayInv.
      eapply OverlayInv_SameCore; [apply set_page_SameCore | assumption].
  - split; [now apply runAnimationFrame_SchedulerInv
           | now apply runAnimationFrame_OverlayInv].
  - split; [eapply SchedulerInv_SameCore | eapply OverlayInv_SameCore];
      try (eapply SameCore_trans; [apply set_page_SameCore | apply resizeCanvas_SameCore]);
      assumption.
  - now apply set_clock_invariants.
  - split; [now apply runTimeout_SchedulerInv | now apply runTimeout_OverlayInv].
Qed.

Lemma step_invariants props w e :
  SchedulerInv w -> OverlayInv props w ->
  SchedulerInv (step props w e) /\ OverlayInv props (step props w e).
Proof.
  intros Hs Ho. unfold step.
  destruct (handle_invariants props e w Hs Ho) as [Hs' Ho'].
  now apply commit_invariants.
Qed.

Lemma run_invariants props es : forall w,
  SchedulerInv w -> OverlayInv props w ->
  SchedulerInv (run props es w) /\ OverlayInv props (run props es w).
Proof.
  induction es as [| e es IH]; intros w Hs Ho; [split; assumption |].
  rewrite run_cons.
  destruct (step_invariants props w e Hs Ho) as [Hs' Ho']. now apply IH.
Qed.

Lemma promiseAll_SameCore props w : SameCore w (promiseAll props w).
Proof.
  unfold promiseAll. destruct w; cbn.
  destruct preload0; try same_core. destruct (allResolved _); same_core.
Qed.

Lemma mount_invariants props pg :
  SchedulerInv (mount props pg) /\ OverlayInv props (mount props pg).
Proof.
  unfold mount.
  assert (H0 : SchedulerInv (preloadImages props (initialWorld pg))
               /\ OverlayInv props (preloadImages props (initialWorld pg))).
  { unfold SchedulerInv, OverlayInv. cbn. repeat split; auto; try lia.
    left. repeat split; reflexivity. }
  destruct H0 as [Hs Ho].
  assert (H1 : SchedulerInv (scrollEffect (preloadImages props (initialWorld pg)))
               /\ OverlayInv props (scrollEffect (preloadImages props (initialWorld pg)))).
  { unfold scrollEffect. split.
    - apply handleScroll_SchedulerInv. exact Hs.
    - apply handleScroll_OverlayInv. exact Ho. }
  destruct H1 as [Hs1 Ho1].
  apply commit_invariants.
  - eapply SchedulerInv_SameCore;
      [eapply SameCore_trans; [apply resizeCanvas_SameCore | apply promiseAll_SameCore] |].
    exact Hs1.
  - eapply OverlayInv_SameCore;
      [eapply SameCore_trans; [apply resizeCanvas_SameCore | apply promiseAll_SameCore] |].
    exact Ho1.
Qed.

Lemma reachable_invariants props pg es :
  SchedulerInv (run props es (mount props pg))
  /\ OverlayInv props (run props es (mount props pg)).
Proof.
  destruct (mount_invariants props pg) as [Hs Ho]. now apply run_invariants.
Qed.

(** X1. At every point of every run at most one animation-frame callback is
    scheduled, the one whose handle [animationRef] holds; [ticking] is up
    exactly while it is scheduled, so the flag never stays up with nothing
    left to take it down; and nothing is scheduled before the images are
    loaded. *)
Theorem scheduler_single_callback (props : Props) (pg : Page) (es : list Event) :
  let w := run props es (mount props pg) in
  (List.length (rafQueue w) <= 1)%nat
  /\ (ticking w = true <-> rafQueue w <> [])
  /\ (forall h p, In (h, p) (rafQueue w) -> h = animationRef w /\ h <> 0%Z)
  /\ (imagesLoaded w = false -> rafQueue w = [] /\ ticking w = false).
Proof.
  cbv zeta. destruct (reachable_invariants props pg es) as [(H1 & H2 & H3) _].
  destruct H2 as [[Ht Hq] | (Ht & Ha & p & Hq)]; rewrite Ht, Hq in *.
  - split; [cbn; lia |]. split; [split; intros; congruence |].
    split; [intros ? ? [] | auto].
  - split; [cbn; lia |]. split; [split; intros; congruence |].
    split.
    + intros h q [E | []]. inversion E; subst. auto.
    + intros Hl. specialize (H3 Hl). discriminate.
Qed.

(** X2. At every point of every run at most one settle timer is pending;
    its handle is the one [descriptionTimeout] holds, and while it is
    pending the primary text is visible and the secondary text is not. *)
Theorem settle_timer_single (props : Props) (pg : Page) (es : list Event) :
  let w := run props es (mount props pg) in
  (List.length (timers w) <= 1)%nat
  /\ (forall id due, In (id, due) (timers w) ->
        descriptionTimeout w = Some id /\ id <> 0%Z
        /\ showText w = true /\ showDescription w = false).
Proof.
  cbv zeta. destruct (reachable_invariants props pg es) as [_ (_ & H2 & _)].
  destruct H2 as [-> | (id & due & Hid & -> & Hd & Hs & Hn)].
  - split; [cbn; lia | intros ? ? []].
  - split; [cbn; lia |].
    intros id' due' [E | []]. inversion E; subst. auto.
Qed.

(** X3. At every point of every run the secondary text is visible only
    together with the primary text and the primary text is visible only at
    or above the trigger frame.  Once [updateFrame] has selected a frame
    ([lastFrameRef] is no longer -1) the primary text is visible exactly
    when the frame shown is at or above the trigger frame; until then both
    texts are hidden and the frame shown is frame 0, also when the resize
    effect has already drawn that frame and the trigger frame is 0. *)
Theorem overlay_consistent (props : Props) (pg : Page) (es : list Event) :
  let w := run props es (mount props pg) in
  (showDescription w = true -> showText w = true)
  /\ (showText w = true -> (textTriggerFrame props <= currentFrame w)%Z)
  /\ (lastFrameRef w <> (-1)%Z ->
      showText w = (textTriggerFrame props <=? currentFrame w)%Z)
  /\ (lastFrameRef w = (-1)%Z ->
      showText w = false /\ showDescription w = false /\ currentFrame w = 0%Z).
Proof.
  cbv zeta. destruct (reachable_invariants props pg es) as [_ (_ & _ & H3 & H4)].
  split; [exact H3 |].
  destruct H4 as [(Hl & Hc & Hs & Hd & _) | (Hr & Hc & Hs)].
  - split; [rewrite Hs; discriminate |]. split; [congruence |].
    intros _. auto.
  - rewrite Hc. split; [| split; [intros _; exact Hs | intros E; lia]].
    rewrite Hs. apply Z.leb_le.
Qed.

Lemma overlay_consistent_witness :
  showText (run homeProps settledTrace (mount homeProps (viewport 0))) = true
  /\ (26 <= currentFrame (run homeProps settledTrace (mount homeProps (viewport 0%Q))))%Z.
Proof.
  destruct (overlay_consistent homeProps (viewport 0) settledTrace) as (Hd & Ht & _).
  assert (Hs : showText (run homeProps settledTrace (mount homeProps (viewport 0))) = true)
    by (apply Hd; vm_compute; reflexivity).
  split; [exact Hs | exact (Ht Hs)].
Defined.

(** X4. At every point of every run the frame shown is the frame last
    drawn, or frame 0 before any frame was drawn; with at least one image
    the frame counter, once displayed, reads "Frame k / N" with
    [1 <= k <= N], and with no image it reads "Frame 1 / 0". *)
Theorem frame_counter_in_range (props : Props) (pg : Page) (es : list Event) :
  let w := run props es (mount props pg) in
  let N := images_length props in
  (currentFrame w = lastFrameRef w \/ (currentFrame w = 0%Z /\ lastFrameRef w = (-1)%Z))
  /\ (forall k n, frameCounter props w = Some (k, n) ->
        n = N /\ (1 <= N -> 1 <= k <= N)%Z /\ (N = 0%Z -> k = 1%Z)).
Proof.
  cbv zeta. destruct (reachable_invariants props pg es) as [_ (_ & _ & _ & H4)].
  split.
  - destruct H4 as [(Hl & Hc & _) | (_ & Hc & _)]; auto.
  - intros k n. unfold frameCounter.
    destruct (imagesLoaded _); [| discriminate].
    intros E. inversion E; subst; clear E.
    split; [reflexivity |].
    destruct H4 as [(Hl & Hc & _) | (Hr & Hc & _)]; rewrite Hc; split; intros; lia.
Qed.

Lemma frame_counter_in_range_witness :
  frameCounter homeProps (run homeProps bottomTrace (mount homeProps (viewport 0)))
  = Some (30%Z, 30%Z)
  /\ (1 <= 30 <= images_length homeProps)%Z.
Proof.
  split; [reflexivity |].
  apply (proj2 (frame_counter_in_range homeProps (viewport 0) bottomTrace) 30%Z 30%Z).
  - reflexivity.
  - vm_compute. discriminate.
Defined.

(** X5. Unmounting after any run leaves no animation-frame callback and no
    timer behind and touches nothing else, so that an animation frame or a
    timer tick that comes afterwards changes nothing. *)
Theorem unmount_leaves_nothing_pending
    (props : Props) (pg : Page) (es : list Event) (id : Z) :
  let w := run props es (mount props pg) in
  unmount w = set_timers [] (set_rafQueue [] w)
  /\ rafQueue (unmount w) = []
  /\ timers (unmount w) = []
  /\ runTimeout id (unmount w) = unmount w
  /\ runAnimationFrame props (unmount w) = unmount w.
Proof.
  cbv zeta. destruct (reachable_invariants props pg es) as [Hs Ho].
  unfold unmount.
  rewrite (scrollEffectCleanup_clears _ Hs (OverlayInv_timers props _ Ho)).
  generalize (run props es (mount props pg)). intros w.
  destruct w; cbn. repeat split; reflexivity.
Qed.

(** ** The overlay below the trigger frame, and the settle delay *)

(** X6. After any run, a frame change that lands below the trigger frame
    hides both texts at once and leaves no settle timer pending, so that no
    timer tick can bring the secondary text back. *)
Theorem drop_below_trigger_hides_overlays
    (props : Props) (pg : Page) (es : list Event) (p : number) (id : Z) :
  let w := run props es (mount props pg) in
  frameChanged props p w = true ->
  (frameIndex props p < textTriggerFrame props)%Z ->
  showText (updateFrame props p w) = false
  /\ showDescription (updateFrame props p w) = false
  /\ timers (updateFrame props p w) = []
  /\ runTimeout id (updateFrame props p w) = updateFrame props p w.
Proof.
  cbv zeta. destruct (reachable_invariants props pg es) as [_ Ho].
  pose proof (OverlayInv_timers props _ Ho) as Ht. clear Ho.
  revert Ht. generalize (run props es (mount props pg)). intros w Ht H Hlt.
  rewrite (updateFrame_changed props p w H). cbv zeta.
  apply Z.leb_gt in Hlt. rewrite Hlt. clear H Hlt.
  generalize (frameIndex props p). intros f.
  destruct (drawFrame_only_draws f (set_currentFrame f (set_lastFrameRef f w)))
    as [ops ->].
  match goal with
  | |- context [clearIfSet (descriptionTimeout ?x) ?x] =>
      rewrite !(clearIfSet_pending x) by (destruct w; exact Ht)
  end.
  unfold runTimeout. destruct w; cbn. repeat split; reflexivity.
Qed.

Lemma drop_below_trigger_hides_overlays_witness :
  showText
    (updateFrame homeProps (1 # 2) (run homeProps bottomTrace (mount homeProps (viewport 0))))
  = false
  /\ timers
       (updateFrame homeProps (1 # 2)
          (run homeProps bottomTrace (mount homeProps (viewport 0))))
     = [].
Proof.
  destruct (drop_below_trigger_hides_overlays homeProps (viewport 0) bottomTrace (1 # 2) 3)
    as (Hs & _ & Ht & _).
  - vm_compute. reflexivity.
  - vm_compute. reflexivity.
  - split; [exact Hs | exact Ht].
Defined.

Lemma rerun_scrollEffect_overlay w :
  showText (scrollEffect w) = showText w
  /\ showDescription (scrollEffect w) = showDescription w
  /\ timers (scrollEffect w) = timers w
  /\ clock (scrollEffect w) = clock w.
Proof.
  unfold scrollEffect.
  destruct (handleScroll_overlay (set_ticking false w))
    as (_ & E2 & E3 & _ & _ & E6 & E7 & _).
  rewrite E2, E3, E6, E7. destruct w; repeat split; reflexivity.
Qed.

Lemma resizeCanvas_overlay w :
  showText (resizeCanvas w) = showText w
  /\ showDescription (resizeCanvas w) = showDescription w
  /\ timers (resizeCanvas w) = timers w.
Proof.
  destruct (resizeCanvas_SameCore w) as (_ & E2 & E3 & _ & _ & _ & _ & _ & E9 & _).
  auto.
Qed.

(** Re-rendering shows and hides no text. *)
Lemma commit_overlay props before after :
  SchedulerInv after -> OverlayInv props after ->
  showText (commit before after) = showText after
  /\ showDescription (commit before after) = showDescription after
  /\ (timers (commit before after) = timers after \/ timers (commit before after) = []).
Proof.
  intros Hs Ho. unfold commit, resizeEffect.
  pose proof (scrollEffectCleanup_clears after Hs (OverlayInv_timers props after Ho)) as Hc.
  break_tests;
    repeat match goal with
           | |- context [resizeCanvas ?x] =>
               let E1 := fresh in let E2 := fresh in let E3 := fresh in
               destruct (resizeCanvas_overlay x) as (E1 & E2 & E3);
               rewrite E1, E2, E3; clear E1 E2 E3
           | |- context [scrollEffect ?x] =>
               let E1 := fresh in let E2 := fresh in let E3 := fresh in
               destruct (rerun_scrollEffect_overlay x) as (E1 & E2 & E3 & _);
               rewrite E1, E2, E3; clear E1 E2 E3
           end;
    rewrite ?Hc; destruct after; cbn; auto.
Qed.

(** X7. After any run, when the pending settle timer is due and fires, the
    secondary text becomes visible, the primary text stays visible and no
    timer remains. *)
Theorem settle_timer_fires
    (props : Props) (pg : Page) (es : list Event) (id due : Z) :
  let w := run props es (mount props pg) in
  In (id, due) (timers w) ->
  (due <= clock w)%Z ->
  showDescription (step props w (TimerFired id)) = true
  /\ showText (step props w (TimerFired id)) = true
  /\ timers (step props w (TimerFired id)) = [].
Proof.
  cbv zeta. destruct (reachable_invariants props pg es) as [Hs Ho].
  revert Hs Ho. generalize (run props es (mount props pg)). intros w Hs Ho Hin Hdue.
  destruct (handle_invariants props (TimerFired id) w Hs Ho) as [Hs' Ho'].
  destruct (commit_overlay props w (handle props (TimerFired id) w) Hs' Ho')
    as (E1 & E2 & E3).
  unfold step. rewrite E1, E2.
  assert (Hfired : showDescription (handle props (TimerFired id) w) = true
                   /\ showText (handle props (TimerFired id) w) = true
                   /\ timers (handle props (TimerFired id) w) = []).
  { clear E1 E2 E3 Hs' Ho'. cbn [handle]. unfold runTimeout.
    destruct Ho as (_ & H2 & _).
    destruct H2 as [H2 | (id' & due' & Hid & H2 & _ & Hst & _)];
      rewrite H2 in Hin; [destruct Hin |].
    destruct Hin as [E | []]. inversion E; subst id' due'; clear E.
    apply Z.leb_le in Hdue.
    destruct w; cbn in *. subst. cbn. rewrite Z.eqb_refl, Hdue. cbn. auto. }
  destruct Hfired as (F1 & F2 & F3).
  split; [exact F1 |]. split; [exact F2 |].
  destruct E3 as [E3 | E3]; congruence.
Qed.

Lemma settle_timer_fires_witness :
  showDescription (run homeProps settledTrace (mount homeProps (viewport 0))) = true.
Proof.
  change (run homeProps settledTrace (mount homeProps (viewport 0)))
    with (step homeProps
            (run homeProps (bottomTrace ++ [Elapse 800]) (mount homeProps (viewport 0)))
            (TimerFired 3)).
  apply (settle_timer_fires homeProps (viewport 0) (bottomTrace ++ [Elapse 800]) 3 800).
  - vm_compute. left. reflexivity.
  - vm_compute. discriminate.
Defined.

Lemma Waiting_SameCore T w w' : SameCore w w' -> Waiting T w -> Waiting T w'.
Proof.
  unfold SameCore, Waiting. intros H Hw. decompose [and] H.
  repeat match goal with E : _ w' = _ w |- _ => rewrite E; clear E end.
  exact Hw.
Qed.

Lemma Forall_dropHandle {A : Type} (P : Z * A -> Prop) id l :
  Forall P l -> Forall P (dropHandle id l).
Proof.
  unfold dropHandle. intros H. rewrite Forall_forall in *.
  intros x Hx. apply filter_In in Hx. apply H, Hx.
Qed.

Lemma clearIfSet_Waiting T h w : Waiting T w -> Waiting T (clearIfSet h w).
Proof.
  unfold Waiting, clearIfSet, clearTimeout. intros (H1 & H2 & H3).
  destruct h as [id |]; [destruct (id =? 0)%Z |]; auto.
  destruct w; cbn in *. repeat split; auto. now apply Forall_dropHandle.
Qed.

Lemma updateFrame_Waiting props T p w :
  Waiting T w -> Waiting T (updateFrame props p w).
Proof.
  intros Hw.
  destruct (frameChanged props p w) eqn:H;
    [| now rewrite (updateFrame_unchanged props p w H)].
  rewrite (updateFrame_changed props p w H). cbv zeta. clear H.
  generalize (frameIndex props p). intros f.
  destruct (drawFrame_only_draws f (set_currentFrame f (set_lastFrameRef f w)))
    as [ops ->].
  assert (H1 : Waiting T (set_showText (textTriggerFrame props <=? f)%Z
                            (set_drawn ops (set_currentFrame f (set_lastFrameRef f w)))))
    by (destruct w; exact Hw).
  revert H1.
  generalize (set_showText (textTriggerFrame props <=? f)%Z
                (set_drawn ops (set_currentFrame f (set_lastFrameRef f w)))).
  intros w1 H1.
  pose proof (clearIfSet_Waiting T (descriptionTimeout w1) w1 H1) as H2.
  revert H2. generalize (clearIfSet (descriptionTimeout w1) w1). intros c H2.
  destruct (textTriggerFrame props <=? f)%Z.
  - destruct (showDescription w1); cbn [negb]; [exact H1 |].
    destruct H2 as (A & B & C). unfold Waiting. destruct c; cbn in *.
    repeat split; auto. apply Forall_app. split; [assumption |].
    constructor; [cbn; lia | constructor].
  - destruct H2 as (A & B & C). unfold Waiting. destruct c; cbn in *. auto.
Qed.

Lemma runAnimationFrame_Waiting props T w :
  Waiting T w -> Waiting T (runAnimationFrame props w).
Proof.
  unfold runAnimationFrame. intros H.
  assert (H0 : Waiting T (set_rafQueue [] w)) by (destruct w; exact H).
  revert H0. generalize (set_rafQueue [] w). generalize (rafQueue w).
  intros q. induction q as [| cb q IH]; intros w0 H0; cbn [fold_left]; [exact H0 |].
  apply IH. unfold animationCallback.
  pose proof (updateFrame_Waiting props T (snd cb) w0 H0) as H1.
  destruct (updateFrame props (snd cb) w0). exact H1.
Qed.

Lemma handleScroll_Waiting T w : Waiting T w -> Waiting T (handleScroll w).
Proof.
  destruct (handleScroll_overlay w) as (_ & _ & E3 & _ & _ & E6 & E7 & _).
  unfold Waiting. now rewrite E3, E6, E7.
Qed.

Lemma scrollEffectCleanup_Waiting T w :
  Waiting T w -> Waiting T (scrollEffectCleanup w).
Proof.
  intros H. unfold scrollEffectCleanup. apply clearIfSet_Waiting.
  unfold cancelAnimationFrame. destruct (animationRef w =? 0)%Z; [exact H |].
  destruct w; exact H.
Qed.

Lemma commit_Waiting T before after :
  Waiting T after -> Waiting T (commit before after).
Proof.
  intros H. unfold commit, resizeEffect, scrollEffect.
  break_tests;
    repeat first
      [ assumption
      | eapply Waiting_SameCore; [apply resizeCanvas_SameCore |]
      | apply handleScroll_Waiting
      | match goal with
        | |- Waiting _ (set_ticking false ?x) =>
            assert (Waiting T x); [| destruct x; assumption]
        end
      | apply scrollEffectCleanup_Waiting ].
Qed.

(** Before [T] no timer can fire. *)
Lemma runTimeout_Waiting T id w :
  Waiting T w -> (clock w < T)%Z -> runTimeout id w = w.
Proof.
  intros (_ & H & _) Hc. unfold runTimeout.
  destruct (existsb _ (timers w)) eqn:E; [| reflexivity].
  apply existsb_exists in E as (t & Hin & Ht).
  rewrite Forall_forall in H. specialize (H t Hin).
  apply andb_true_iff in Ht as [_ Ht]. apply Z.leb_le in Ht. lia.
Qed.

Lemma handle_clock props e w :
  (clock w <= clock (handle props e w))%Z.
Proof.
  destruct e; cbn [handle].
  - destruct (onload_SameCore props i naturalWidth naturalHeight w) as (_&_&_&_&_&_&_&_&_&_&E&_).
    lia.
  - destruct (onerror_SameCore props i w) as (_&_&_&_&_&_&_&_&_&_&E&_). lia.
  - destruct (handleScroll_overlay (set_page pg w)) as (_&_&_&_&_&_&E&_).
    rewrite E. destruct w; cbn; lia.
  - unfold runAnimationFrame.
    assert (H0 : (clock w <= clock (set_rafQueue [] w))%Z) by (destruct w; cbn; lia).
    revert H0. generalize (set_rafQueue [] w). generalize (rafQueue w).
    intros q. induction q as [| cb q IH]; intros w0 H0; cbn [fold_left]; [exact H0 |].
    apply IH. unfold animationCallback.
    destruct (updateFrame_untouched props (snd cb) w0) as (_&_&_&_&_&_&_&_&_&E).
    revert E. generalize (updateFrame props (snd cb) w0). intros u E.
    destruct u; cbn in *. lia.
  - destruct (resizeCanvas_SameCore (set_page pg w)) as (_&_&_&_&_&_&_&_&_&_&E&_).
    rewrite E. destruct w; cbn; lia.
  - destruct w; cbn. lia.
  - unfold runTimeout. destruct (existsb _ (timers w)); [destruct w; cbn |]; lia.
Qed.

Lemma commit_clock before after : clock (commit before after) = clock after.
Proof.
  unfold commit, resizeEffect, scrollEffect, scrollEffectCleanup,
    cancelAnimationFrame, clearIfSet, clearTimeout.
  break_tests;
    repeat match goal with
           | |- context [resizeCanvas ?x] =>
               let E := fresh in
               destruct (resizeCanvas_SameCore x) as (_&_&_&_&_&_&_&_&_&_&E&_);
               rewrite E; clear E
           | |- context [handleScroll ?x] =>
               let E := fresh in
               destruct (handleScroll_overlay x) as (_&_&_&_&_&_&E&_);
               rewrite E; clear E
           end;
    destruct after; reflexivity.
Qed.

Lemma run_clock props es : forall w, (clock w <= clock (run props es w))%Z.
Proof.
  induction es as [| e es IH]; intros w; [cbn; lia |].
  rewrite run_cons. specialize (IH (step props w e)).
  unfold step in *. rewrite commit_clock in IH.
  pose proof (handle_clock props e w). lia.
Qed.

Lemma step_Waiting props T w e :
  Waiting T w -> (clock w < T)%Z -> Waiting T (step props w e).
Proof.
  intros H Hc. unfold step. apply commit_Waiting.
  destruct e; cbn [handle].
  - eapply Waiting_SameCore; [apply onload_SameCore | exact H].
  - eapply Waiting_SameCore; [apply onerror_SameCore | exact H].
  - apply handleScroll_Waiting.
    eapply Waiting_SameCore; [apply set_page_SameCore | exact H].
  - now apply runAnimationFrame_Waiting.
  - eapply Waiting_SameCore;
      [eapply SameCore_trans; [apply set_page_SameCore | apply resizeCanvas_SameCore] |].
    exact H.
  - destruct H as (A & B & C). unfold Waiting. destruct w; cbn in *.
    repeat split; auto. lia.
  - now rewrite (runTimeout_Waiting T id w H Hc).
Qed.

(** X8. The secondary text cannot be hurried: if it is hidden, no pending
    timer is due before [T] and [T] is at most 800ms away, then whatever
    events follow, it is still hidden at any moment before [T]. *)
Theorem secondary_text_waits_for_timer
    (props : Props) (T : Z) (es : list Event) (w : World) :
  showDescription w = false ->
  Forall (fun t => (T <= snd t)%Z) (timers w) ->
  (T <= clock w + 800)%Z ->
  (clock (run props es w) < T)%Z ->
  showDescription (run props es w) = false.
Proof.
  intros H1 H2 H3.
  assert (Hw : Waiting T w) by (repeat split; assumption). clear H1 H2 H3.
  revert w Hw. induction es as [| e es IH]; intros w Hw Hc; [apply Hw |].
  rewrite run_cons in *.
  apply IH; [| exact Hc].
  apply step_Waiting; [exact Hw |].
  pose proof (run_clock props es (step props w e)) as Hm.
  pose proof (handle_clock props e w) as Hh.
  unfold step in Hm at 1. rewrite commit_clock in Hm. lia.
Qed.

Lemma secondary_text_waits_for_timer_witness :
  showDescription
    (run homeProps
         [Elapse 200; TimerFired 3; Scroll (viewport (-3400)); AnimationFrame;
          Elapse 99; TimerFired 4; TimerFired 3]
         pendingWorld)
  = false.
Proof.
  apply (secondary_text_waits_for_timer homeProps 800).
  - reflexivity.
  - vm_compute. repeat constructor. discriminate.
  - vm_compute. discriminate.
  - vm_compute. reflexivity.
Defined.

(** ** A preload that succeeds *)

Lemma PublishedInv_Quiet props w w' :
  Quiet w w' -> PublishedInv props w -> PublishedInv props w'.
Proof.
  intros (H1 & H2 & H3 & H4 & _). unfold PublishedInv.
  now rewrite H1, H2, H3, H4.
Qed.

Lemma Forall2_set_nth {A B : Type} (R : A -> B -> Prop) l1 l2 i a x :
  Forall2 R l1 l2 -> nth_error l1 i = Some a -> R a x ->
  Forall2 R l1 (set_nth i x l2).
Proof.
  intros H. revert i. induction H as [| a' b' l1 l2 Hab H IH]; intros i Hi Hx.
  - destruct i; discriminate.
  - destruct i as [| j]; cbn in *.
    + inversion Hi; subst. now constructor.
    + constructor; [assumption | now apply IH].
Qed.

Lemma In_set_nth_other {A : Type} (a x : A) l i :
  In a l -> nth_error l i <> Some a -> In a (set_nth i x l).
Proof.
  revert i. induction l as [| h t IH]; intros i Hin Hi; [destruct Hin |].
  destruct i as [| j]; cbn in *.
  - destruct Hin as [-> | Hin]; [congruence | now right].
  - destruct Hin as [-> | Hin]; [now left | right; now apply IH].
Qed.

Lemma In_set_nth {A : Type} (x : A) l i :
  (i < List.length l)%nat -> In x (set_nth i x l).
Proof.
  revert i. induction l as [| h t IH]; intros i Hi; cbn in *; [lia |].
  destruct i as [| j]; cbn; [now left | right; apply IH; lia].
Qed.

Lemma In_set_nth_inv {A : Type} (a x : A) l i :
  In a (set_nth i x l) -> a = x \/ In a l.
Proof.
  revert i. induction l as [| h t IH]; intros i Hin.
  - destruct i; destruct Hin.
  - destruct i as [| j]; cbn [set_nth] in Hin; destruct Hin as [E | Hin].
    + left. now symmetry.
    + right. now right.
    + right. now left.
    + destruct (IH j Hin) as [E | Ht]; [left; exact E | right; now right].
Qed.

Lemma onload_PublishedInv props i nw nh w :
  PublishedInv props w -> PublishedInv props (onload props i nw nh w).
Proof.
  intros [Hall Hinv]. unfold onload.
  destruct (nth_error (images props) i) as [src |] eqn:Es; [| split; assumption].
  destruct (nth_error (acquisitions w) i) as [[| li |] |] eqn:Ei;
    try (split; assumption).
  assert (Hall' : Forall2 resolvedFor (images props)
                    (set_nth i
                       (Resolved {| image := {| Image.src := src; Image.width := nw;
                                                Image.height := nh |};
                                    loaded := true |})
                       (acquisitions w))).
  { eapply Forall2_set_nth; [exact Hall | exact Es | cbn; auto]. }
  unfold promiseAll, PublishedInv.
  destruct w; cbn in *.
  destruct preload0; cbn.
  - destruct (allResolved (set_nth i _ acquisitions0)) eqn:Ea; cbn.
    + split; [assumption | auto].
    + split; [assumption |]. destruct Hinv as (A & B & C). auto.
  - exfalso. destruct Hinv as (_ & Ea). exact (allResolved_settled _ _ i Ea Ei).
  - split; [assumption |]. destruct Hinv as (A & B & C). repeat split; auto.
    apply In_set_nth_other; [assumption | congruence].
Qed.

Lemma onerror_PublishedInv props i w :
  PublishedInv props w -> PublishedInv props (onerror props i w).
Proof.
  intros [Hall Hinv]. unfold onerror.
  destruct (nth_error (images props) i) as [src |] eqn:Es; [| split; assumption].
  destruct (nth_error (acquisitions w) i) as [[| li |] |] eqn:Ei;
    try (split; assumption).
  assert (Hall' : Forall2 resolvedFor (images props) (set_nth i Rejected (acquisitions w))).
  { eapply Forall2_set_nth; [exact Hall | exact Es | exact I]. }
  assert (Hlen : (i < List.length (acquisitions w))%nat).
  { apply nth_error_Some. congruence. }
  unfold PublishedInv.
  destruct w; cbn in *.
  destruct preload0; cbn.
  - split; [assumption |]. destruct Hinv as (A & B & C). repeat split; auto.
    now apply In_set_nth.
  - exfalso. destruct Hinv as (_ & Ea). exact (allResolved_settled _ _ i Ea Ei).
  - split; [assumption |]. destruct Hinv as (A & B & C). repeat split; auto.
    now apply In_set_nth.
Qed.

Lemma step_PublishedInv props w e :
  PublishedInv props w -> PublishedInv props (step props w e).
Proof.
  intros H. unfold step.
  apply (PublishedInv_Quiet props (handle props e w)); [apply commit_Quiet |].
  pose proof (handle_Quiet props e w) as Hq.
  destruct e; try (eapply PublishedInv_Quiet; eassumption).
  - now apply onload_PublishedInv.
  - now apply onerror_PublishedInv.
Qed.

Lemma run_PublishedInv props es : forall w,
  PublishedInv props w -> PublishedInv props (run props es w).
Proof.
  induction es as [| e es IH]; intros w H; [exact H |].
  rewrite run_cons. apply IH, step_PublishedInv, H.
Qed.

Lemma Forall2_unsettled (srcs : list string) :
  Forall2 resolvedFor srcs (map (fun _ => Unsettled) srcs).
Proof. induction srcs; constructor; [exact I | assumption]. Qed.

Lemma mount_PublishedInv props pg : PublishedInv props (mount props pg).
Proof.
  unfold mount.
  eapply PublishedInv_Quiet; [apply commit_Quiet |].
  assert (Hq : Quiet (preloadImages props (initialWorld pg))
                     (resizeEffect (scrollEffect (preloadImages props (initialWorld pg))))).
  { eapply Quiet_trans; [apply scrollEffect_Quiet | apply resizeCanvas_Quiet]. }
  revert Hq.
  generalize (resizeEffect (scrollEffect (preloadImages props (initialWorld pg)))).
  intros w0 (H1 & H2 & H3 & H4 & _). cbn in H1, H2, H3, H4.
  pose proof (Forall2_unsettled (images props)) as Hall.
  unfold promiseAll, PublishedInv. rewrite H2, H4.
  destruct (images props) as [| src srcs]; cbn [map allResolved resolved].
  - destruct w0; cbn in *. subst. split; [constructor | auto].
  - rewrite H2, H4, H1, H3. cbn. split; [exact Hall | auto].
Qed.

Lemma allResolved_Forall2 srcs acqs lis :
  Forall2 resolvedFor srcs acqs ->
  allResolved acqs = Some lis ->
  Forall2 (fun src li => loaded li = true /\ Image.src (image li) = src) srcs lis.
Proof.
  intros H. revert lis. induction H as [| src a srcs acqs Ha H IH]; intros lis E.
  - cbn in E. inversion E. constructor.
  - cbn in E. destruct a as [| li |]; cbn in E; try discriminate.
    destruct (allResolved acqs) as [lis' |]; [| discriminate].
    inversion E; subst. constructor; [exact Ha | now apply IH].
Qed.

Lemma Forall2_nth_error {A B : Type} (R : A -> B -> Prop) l1 l2 i b :
  Forall2 R l1 l2 -> nth_error l2 i = Some b ->
  exists a, nth_error l1 i = Some a /\ R a b.
Proof.
  intros H. revert i. induction H as [| a' b' l1 l2 Hab H IH]; intros i Hi.
  - destruct i; discriminate.
  - destruct i as [| j]; cbn in *.
    + inversion Hi; subst. now exists a'.
    + now apply IH.
Qed.

(** X9. At every point of every run, once the loaded flag is up
    [Promise.all] is fulfilled and [loadedImagesRef] holds one entry per
    image, in the order of [images] whatever the order in which the images
    loaded: the entry at position [i] is marked loaded and carries the
    source [images[i]]. *)
Theorem published_images_in_order (props : Props) (pg : Page) (es : list Event) :
  let w := run props es (mount props pg) in
  imagesLoaded w = true ->
  preload w = AllFulfilled
  /\ List.length (loadedImagesRef w) = List.length (images props)
  /\ (forall i li, nth_error (loadedImagesRef w) i = Some li ->
        loaded li = true /\ nth_error (images props) i = Some (Image.src (image li))).
Proof.
  cbv zeta. intros Hl.
  destruct (run_PublishedInv props es _ (mount_PublishedInv props pg)) as [Hall Hinv].
  destruct (preload _) eqn:Ep;
    try (destruct Hinv as (Hf & _); congruence).
  destruct Hinv as (_ & Ea).
  pose proof (allResolved_Forall2 _ _ _ Hall Ea) as H2.
  split; [reflexivity |]. split.
  - symmetry. eapply Forall2_length. exact H2.
  - intros i li Hi.
    destruct (Forall2_nth_error _ _ _ i li H2 Hi) as (src & Hs & Hld & Hsrc).
    split; [exact Hld | congruence].
Qed.

Lemma published_images_in_order_witness :
  nth_error
    (loadedImagesRef (run homeProps (rev loadAll) (mount homeProps (viewport 0)))) 4
  = Some {| image := {| Image.src := "/images/5.jpg"; Image.width := 400;
                        Image.height := 400 |};
            loaded := true |}
  /\ nth_error (images homeProps) 4 = Some "/images/5.jpg"%string.
Proof.
  split; [reflexivity |].
  apply (published_images_in_order homeProps (viewport 0) (rev loadAll))
    with (li := {| image := {| Image.src := "/images/5.jpg"; Image.width := 400;
                               Image.height := 400 |};
                   loaded := true |}); reflexivity.
Defined.

Lemma nth_error_set_nth_other {A : Type} (x : A) l i j :
  i <> j -> nth_error (set_nth j x l) i = nth_error l i.
Proof.
  revert i j. induction l as [| h t IH]; intros i j Hne.
  - destruct j; reflexivity.
  - destruct j as [| j]; destruct i as [| i]; cbn; try reflexivity; try congruence.
    apply IH. congruence.
Qed.

Lemma nth_error_set_nth_same {A : Type} (x : A) l i :
  (i < List.length l)%nat -> nth_error (set_nth i x l) i = Some x.
Proof.
  revert i. induction l as [| h t IH]; intros i Hi; cbn in *; [lia |].
  destruct i as [| i]; cbn; [reflexivity | apply IH; lia].
Qed.

(** What [onload] and [onerror] do to the promises. *)
Lemma onload_acquisitions props i nw nh w :
  acquisitions (onload props i nw nh w) = acquisitions w
  \/ exists src,
       nth_error (images props) i = Some src
       /\ nth_error (acquisitions w) i = Some Unsettled
       /\ acquisitions (onload props i nw nh w)
          = set_nth i (Resolved {| image := {| Image.src := src; Image.width := nw;
                                               Image.height := nh |};
                                   loaded := true |})
                    (acquisitions w).
Proof.
  unfold onload, promiseAll.
  destruct (nth_error (images props) i) as [src |]; [| now left].
  destruct (nth_error (acquisitions w) i) as [[| li |] |]; try now left.
  right. exists src. split; [reflexivity |]. split; [reflexivity |].
  destruct w; cbn. destruct preload0; try reflexivity.
  destruct (allResolved _); reflexivity.
Qed.

Lemma step_acquisitions props w e :
  acquisitions (step props w e) = acquisitions (handle props e w).
Proof.
  unfold step. destruct (commit_Quiet w (handle props e w)) as (_ & _ & _ & H & _).
  exact H.
Qed.

Lemma handle_acquisitions_other props e w :
  match e with
  | ImageLoad _ _ _ | ImageError _ => True
  | _ => acquisitions (handle props e w) = acquisitions w
  end.
Proof.
  pose proof (handle_Quiet props e w) as Hq.
  destruct e; try exact I; destruct Hq as (_ & _ & _ & H & _); exact H.
Qed.

(** A resolved promise stays resolved. *)
Lemma step_resolved_stays props w e i li :
  noImageError e = true ->
  nth_error (acquisitions w) i = Some (Resolved li) ->
  nth_error (acquisitions (step props w e)) i = Some (Resolved li).
Proof.
  intros He Hi. rewrite step_acquisitions.
  pose proof (handle_acquisitions_other props e w) as Ho.
  destruct e; try (rewrite Ho; exact Hi); [| discriminate].
  cbn [handle].
  destruct (onload_acquisitions props i0 naturalWidth naturalHeight w)
    as [E | (src & _ & Hu & E)]; rewrite E; [exact Hi |].
  rewrite nth_error_set_nth_other; [exact Hi | congruence].
Qed.

(** A load event resolves the promise of its image, unless it was rejected. *)
Lemma step_ImageLoad_resolves props w i nw nh :
  List.length (acquisitions w) = List.length (images props) ->
  (i < List.length (images props))%nat ->
  ~ In Rejected (acquisitions w) ->
  exists li, nth_error (acquisitions (step props w (ImageLoad i nw nh))) i
             = Some (Resolved li).
Proof.
  intros Hlen Hi Hrej. rewrite step_acquisitions. cbn [handle].
  destruct (nth_error (acquisitions w) i) as [a |] eqn:Ea;
    [| apply nth_error_None in Ea; lia].
  destruct (onload_acquisitions props i nw nh w) as [E | (src & _ & Hu & E)]; rewrite E.
  - destruct a as [| li |].
    + exfalso. revert E. unfold onload, promiseAll.
      destruct (nth_error (images props) i) as [src |] eqn:Es;
        [| apply nth_error_None in Es; lia].
      rewrite Ea. intros E.
      assert (Hs : nth_error (acquisitions w) i
                   = Some (Resolved {| image := {| Image.src := src; Image.width := nw;
                                                   Image.height := nh |};
                                       loaded := true |})).
      { rewrite <- E.
        match goal with
        | |- nth_error (acquisitions ?x) _ = _ =>
            replace (acquisitions x)
              with (set_nth i (Resolved {| image := {| Image.src := src; Image.width := nw;
                                                       Image.height := nh |};
                                           loaded := true |}) (acquisitions w))
        end.
        - apply nth_error_set_nth_same. lia.
        - destruct w; cbn. destruct preload0; try reflexivity.
          destruct (allResolved _); reflexivity. }
      congruence.
    + now exists li.
    + exfalso. apply Hrej. eapply nth_error_In. exact Ea.
  - eexists. apply nth_error_set_nth_same. lia.
Qed.

Lemma step_no_rejection props w e :
  noImageError e = true ->
  ~ In Rejected (acquisitions w) ->
  ~ In Rejected (acquisitions (step props w e)).
Proof.
  intros He Hrej. rewrite step_acquisitions.
  pose proof (handle_acquisitions_other props e w) as Ho.
  destruct e; try (rewrite Ho; exact Hrej); [| discriminate].
  cbn [handle].
  destruct (onload_acquisitions props i naturalWidth naturalHeight w)
    as [E | (src & _ & Hu & E)]; rewrite E; [exact Hrej |].
  intros Hin. apply In_set_nth_inv in Hin as [Hin | Hin]; [discriminate | auto].
Qed.

Lemma allResolved_complete l :
  (forall i, (i < List.length l)%nat -> exists li, nth_error l i = Some (Resolved li)) ->
  exists lis, allResolved l = Some lis.
Proof.
  induction l as [| a t IH]; intros H; [now exists [] |].
  destruct (H 0%nat) as (li & E); [cbn; lia |]. cbn in E. inversion E; subst.
  destruct IH as (lis & El).
  { intros i Hi. apply (H (S i)). cbn. lia. }
  exists (li :: lis). cbn. now rewrite El.
Qed.

Lemma run_resolves_all props es : forall w,
  PublishedInv props w ->
  ~ In Rejected (acquisitions w) ->
  forallb noImageError es = true ->
  forall i,
    (i < List.length (images props))%nat ->
    (exists li, nth_error (acquisitions w) i = Some (Resolved li))
    \/ existsb (loadsImage i) es = true ->
    exists li, nth_error (acquisitions (run props es w)) i = Some (Resolved li).
Proof.
  induction es as [| e es IH]; intros w Hinv Hrej Hes i Hi Hor.
  - destruct Hor as [H | H]; [exact H | discriminate].
  - cbn [forallb] in Hes. apply andb_true_iff in Hes as [He Hes].
    rewrite run_cons.
    apply IH; try assumption.
    + now apply step_PublishedInv.
    + now apply step_no_rejection.
    + destruct Hor as [(li & H) | H].
      * left. exists li. now apply step_resolved_stays.
      * cbn [existsb] in H. apply orb_true_iff in H as [H | H]; [| now right].
        left. destruct e; try discriminate. cbn in H. apply Nat.eqb_eq in H. subst i0.
        apply step_ImageLoad_resolves; try assumption.
        symmetry. eapply Forall2_length. apply Hinv.
Qed.

Lemma mount_acquisitions props pg :
  acquisitions (mount props pg) = map (fun _ => Unsettled) (images props).
Proof.
  unfold mount.
  match goal with
  | |- acquisitions (commit ?b ?a) = _ =>
      destruct (commit_Quiet b a) as (_ & _ & _ & E & _); rewrite E; clear E
  end.
  assert (Hq : Quiet (preloadImages props (initialWorld pg))
                     (resizeEffect (scrollEffect (preloadImages props (initialWorld pg))))).
  { eapply Quiet_trans; [apply scrollEffect_Quiet | apply resizeCanvas_Quiet]. }
  revert Hq.
  generalize (resizeEffect (scrollEffect (preloadImages props (initialWorld pg)))).
  intros w0 (_ & _ & _ & H4 & _). cbn in H4. rewrite <- H4.
  unfold promiseAll. destruct w0; cbn. destruct preload0; try reflexivity.
  destruct (allResolved _); reflexivity.
Qed.

(** X10. If no image fails and every image loads at some point of the run,
    in whatever order and with whatever else in between, the run ends with
    [Promise.all] fulfilled, the loaded flag up and one published entry per
    image. *)
Theorem preload_succeeds_when_all_load (props : Props) (pg : Page) (es : list Event) :
  forallb noImageError es = true ->
  (forall i, (i < List.length (images props))%nat -> existsb (loadsImage i) es = true) ->
  let w := run props es (mount props pg) in
  imagesLoaded w = true
  /\ preload w = AllFulfilled
  /\ List.length (loadedImagesRef w) = List.length (images props).
Proof.
  intros Hes Hall. cbv zeta.
  pose proof (mount_PublishedInv props pg) as Hm.
  assert (Hrej0 : ~ In Rejected (acquisitions (mount props pg))).
  { rewrite mount_acquisitions. clear. induction (images props); cbn; [tauto |].
    intros [H | H]; [discriminate | auto]. }
  pose proof (run_PublishedInv props es _ Hm) as [Hf Hinv].
  assert (Hres : exists lis,
             allResolved (acquisitions (run props es (mount props pg))) = Some lis).
  { apply allResolved_complete. intros i Hi.
    apply (run_resolves_all props es _ Hm Hrej0 Hes).
    - erewrite Forall2_length; [exact Hi | exact Hf].
    - right. apply Hall. erewrite Forall2_length; [exact Hi | exact Hf]. }
  destruct Hres as (lis & El).
  assert (Hrej : ~ In Rejected (acquisitions (run props es (mount props pg)))).
  { clear - Hrej0 Hes. revert Hrej0 Hes. generalize (mount props pg).
    induction es as [| e es IH]; intros w H Hes; [exact H |].
    cbn [forallb] in Hes. apply andb_true_iff in Hes as [He Hes].
    rewrite run_cons. apply IH; [now apply step_no_rejection | exact Hes]. }
  destruct (preload _) eqn:Ep.
  - destruct Hinv as (_ & _ & Hn). congruence.
  - destruct Hinv as (Hl & Ea). split; [exact Hl |]. split; [reflexivity |].
    pose proof (allResolved_Forall2 _ _ _ Hf Ea) as H2.
    symmetry. eapply Forall2_length. exact H2.
  - destruct Hinv as (_ & _ & Hn). contradiction.
Qed.

Lemma preload_succeeds_when_all_load_witness :
  imagesLoaded
    (run homeProps (Scroll (viewport (-100)) :: rev loadAll) (mount homeProps (viewport 0)))
  = true.
Proof.
  apply (preload_succeeds_when_all_load homeProps (viewport 0)
           (Scroll (viewport (-100)) :: rev loadAll)).
  - reflexivity.
  - intros i Hi.
    do 30 (destruct i as [| i]; [reflexivity |]).
    exfalso. vm_compute in Hi. lia.
Defined.

(** ** What reaches the canvas *)

Lemma Draws_refl w : Draws w w.
Proof.
  split; [reflexivity |]. exists []. cbn. rewrite app_nil_r. split; [reflexivity | constructor].
Qed.

Lemma Draws_trans w1 w2 w3 : Draws w1 w2 -> Draws w2 w3 -> Draws w1 w3.
Proof.
  intros (A1 & f1 & A2 & A3) (B1 & f2 & B2 & B3). split; [congruence |].
  exists (f1 ++ f2). split.
  - rewrite B2, A2, flat_map_app, app_assoc. reflexivity.
  - apply Forall_app. split; [exact A3 |]. now rewrite A1 in B3.
Qed.

Lemma Draws_same w w' :
  loadedImagesRef w' = loadedImagesRef w -> drawn w' = drawn w -> Draws w w'.
Proof.
  intros H1 H2. split; [exact H1 |]. exists []. cbn. rewrite app_nil_r.
  split; [exact H2 | constructor].
Qed.

Lemma Draws_fields w w' w'' :
  loadedImagesRef w'' = loadedImagesRef w' -> drawn w'' = drawn w' ->
  Draws w w' -> Draws w w''.
Proof.
  intros H1 H2 (A1 & f & A2 & A3). split; [congruence |].
  exists f. split; [congruence | exact A3].
Qed.

Lemma drawFrame_Draws i w : Draws w (drawFrame i w).
Proof.
  unfold drawFrame.
  destruct (canvasRef w) as [canvas |]; [| apply Draws_refl].
  destruct (negb (imagesLoaded w) || (i <? 0)%Z
            || (Z.of_nat (List.length (loadedImagesRef w)) <=? i)%Z);
    [apply Draws_refl |].
  destruct (negb (context2d (page w))); [apply Draws_refl |].
  destruct (nth_error (loadedImagesRef w) (Z.to_nat i)) as [li |] eqn:E;
    [| apply Draws_refl].
  destruct (negb (loaded li)) eqn:El; [apply Draws_refl |].
  apply negb_false_iff in El.
  split; [destruct w; reflexivity |].
  exists [(canvas, li)]. split.
  - rewrite drawn_set_drawn. cbn. unfold drawOps. reflexivity.
  - constructor; [| constructor]. cbn. split; [| exact El].
    eapply nth_error_In. exact E.
Qed.

Lemma updateFrame_Draws props p w : Draws w (updateFrame props p w).
Proof.
  destruct (updateFrame_untouched props p w) as (_ & _ & _ & _ & Hl & _).
  destruct (frameChanged props p w) eqn:H.
  - apply (Draws_fields w (drawFrame (frameIndex props p) w)).
    + rewrite Hl. destruct (drawFrame_Draws (frameIndex props p) w) as [E _].
      now rewrite E.
    + apply updateFrame_drawn, H.
    + apply drawFrame_Draws.
  - rewrite (updateFrame_unchanged props p w H). apply Draws_refl.
Qed.

Lemma handleScroll_Draws w : Draws w (handleScroll w).
Proof.
  apply Draws_same.
  - apply handleScroll_Quiet.
  - apply handleScroll_state.
Qed.

Lemma runAnimationFrame_Draws props w : Draws w (runAnimationFrame props w).
Proof.
  unfold runAnimationFrame.
  eapply Draws_trans; [apply (Draws_same w (set_rafQueue [] w)); destruct w; reflexivity |].
  generalize (set_rafQueue [] w). generalize (rafQueue w).
  intros q. induction q as [| cb q IH]; intros w0; cbn [fold_left]; [apply Draws_refl |].
  eapply Draws_trans; [| apply IH].
  unfold animationCallback.
  apply (Draws_fields w0 (updateFrame props (snd cb) w0));
    [destruct (updateFrame props (snd cb) w0); reflexivity ..
    | apply updateFrame_Draws].
Qed.

Lemma resizeCanvas_Draws w : Draws w (resizeCanvas w).
Proof.
  unfold resizeCanvas. break_tests; try apply Draws_refl.
  - eapply Draws_trans; [| apply drawFrame_Draws].
    apply Draws_same; destruct w; reflexivity.
  - apply Draws_same; destruct w; reflexivity.
Qed.

Lemma scrollEffect_Draws w : Draws w (scrollEffect w).
Proof.
  unfold scrollEffect.
  eapply Draws_trans; [| apply handleScroll_Draws].
  apply Draws_same; destruct w; reflexivity.
Qed.

Lemma scrollEffectCleanup_Draws w : Draws w (scrollEffectCleanup w).
Proof.
  unfold scrollEffectCleanup, cancelAnimationFrame, clearIfSet, clearTimeout.
  apply Draws_same; break_tests; destruct w; reflexivity.
Qed.

Lemma commit_Draws before after : Draws after (commit before after).
Proof.
  unfold commit, resizeEffect.
  break_tests; try apply Draws_refl;
    repeat (eapply Draws_trans;
            [| first [apply resizeCanvas_Draws | apply scrollEffect_Draws
                     | apply scrollEffectCleanup_Draws]]);
    apply Draws_refl.
Qed.

Lemma handle_Draws props e w :
  match e with
  | ImageLoad _ _ _ | ImageError _ => True
  | _ => Draws w (handle props e w)
  end.
Proof.
  destruct e; cbn [handle]; try exact I.
  - eapply Draws_trans; [| apply handleScroll_Draws].
    apply Draws_same; destruct w; reflexivity.
  - apply runAnimationFrame_Draws.
  - eapply Draws_trans; [| apply resizeCanvas_Draws].
    apply Draws_same; destruct w; reflexivity.
  - apply Draws_same; destruct w; reflexivity.
  - unfold runTimeout. apply Draws_same; break_tests; destruct w; reflexivity.
Qed.

Lemma CanvasLog_Draws w w' : Draws w w' -> CanvasLog w -> CanvasLog w'.
Proof.
  intros (A1 & f & A2 & A3) (f0 & B1 & B2).
  exists (f0 ++ f). split.
  - rewrite A2, B1, flat_map_app. reflexivity.
  - rewrite A1. apply Forall_app. split; assumption.
Qed.

(** Until [Promise.all] is fulfilled nothing has been drawn, and afterwards a
    load or error event changes nothing. *)
Lemma preload_event_CanvasLog props e w :
  PreloadInv props w -> CanvasLog w ->
  match e with
  | ImageLoad _ _ _ | ImageError _ => CanvasLog (handle props e w)
  | _ => True
  end.
Proof.
  intros [Hlen Hinv] Hlog.
  destruct e; try exact I; cbn [handle].
  - destruct (preload w) eqn:Ep.
    + exists []. rewrite onload_drawn. destruct Hinv as (_ & Hd & _).
      split; [exact Hd | constructor].
    + replace (onload props i naturalWidth naturalHeight w) with w; [exact Hlog |].
      unfold onload.
      destruct (nth_error (images props) i) as [src |]; [| reflexivity].
      destruct (nth_error (acquisitions w) i) as [[| li |] |] eqn:Ei; try reflexivity.
      exfalso. destruct (allResolved (acquisitions w)) as [v |] eqn:Ea; [| congruence].
      exact (allResolved_settled _ _ i Ea Ei).
    + exists []. rewrite onload_drawn. destruct Hinv as (_ & Hd & _).
      split; [exact Hd | constructor].
  - destruct (preload w) eqn:Ep.
    + exists []. rewrite onerror_drawn. destruct Hinv as (_ & Hd & _).
      split; [exact Hd | constructor].
    + replace (onerror props i w) with w; [exact Hlog |].
      unfold onerror.
      destruct (nth_error (images props) i) as [src |]; [| reflexivity].
      destruct (nth_error (acquisitions w) i) as [[| li |] |] eqn:Ei; try reflexivity.
      exfalso. destruct (allResolved (acquisitions w)) as [v |] eqn:Ea; [| congruence].
      exact (allResolved_settled _ _ i Ea Ei).
    + exists []. rewrite onerror_drawn. destruct Hinv as (_ & Hd & _).
      split; [exact Hd | constructor].
Qed.

Lemma step_CanvasLog props w e :
  PreloadInv props w -> CanvasLog w -> CanvasLog (step props w e).
Proof.
  intros Hinv Hlog. unfold step.
  apply (CanvasLog_Draws (handle props e w)); [apply commit_Draws |].
  pose proof (handle_Draws props e w) as Hd.
  pose proof (preload_event_CanvasLog props e w Hinv Hlog) as Hp.
  destruct e; try exact Hp; eapply CanvasLog_Draws; eassumption.
Qed.

Lemma run_CanvasLog props es : forall w,
  PreloadInv props w -> CanvasLog w -> CanvasLog (run props es w).
Proof.
  induction es as [| e es IH]; intros w Hinv Hlog; [exact Hlog |].
  rewrite run_cons. apply IH; [now apply step_PreloadInv | now apply step_CanvasLog].
Qed.

Lemma promiseAll_drawn props w : drawn (promiseAll props w) = drawn w.
Proof.
  unfold promiseAll. destruct w; cbn. destruct preload0; try reflexivity.
  destruct (allResolved _); reflexivity.
Qed.

Lemma mount_CanvasLog props pg : CanvasLog (mount props pg).
Proof.
  unfold mount.
  eapply CanvasLog_Draws; [apply commit_Draws |].
  assert (Hq : Quiet (preloadImages props (initialWorld pg))
                     (resizeEffect (scrollEffect (preloadImages props (initialWorld pg))))).
  { eapply Quiet_trans; [apply scrollEffect_Quiet | apply resizeCanvas_Quiet]. }
  destruct Hq as (_ & _ & _ & _ & Hd). specialize (Hd eq_refl). cbn in Hd.
  exists []. split; [| constructor].
  rewrite promiseAll_drawn. exact Hd.
Qed.

(** ** Resizing, and the guards of [drawFrame] *)

(** X13. [drawFrame] leaves the world exactly as it is when the canvas is
    not mounted, the images are not loaded, no 2D context can be had, the
    index is negative or past the last published image, or the entry at the
    index is not marked loaded. *)
Theorem drawFrame_guards (i : Z) (w : World) :
  canvasRef w = None
  \/ imagesLoaded w = false
  \/ context2d (page w) = false
  \/ (i < 0)%Z
  \/ (Z.of_nat (List.length (loadedImagesRef w)) <= i)%Z
  \/ (exists li, nth_error (loadedImagesRef w) (Z.to_nat i) = Some li /\ loaded li = false) ->
  drawFrame i w = w.
Proof.
  unfold drawFrame.
  intros [H | [H | [H | [H | [H | (li & H & Hl)]]]]].
  - now rewrite H.
  - rewrite H. destruct (canvasRef w); reflexivity.
  - rewrite H. destruct (canvasRef w); [| reflexivity]. cbn.
    destruct (negb (imagesLoaded w) || _ || _); reflexivity.
  - apply Z.ltb_lt in H. rewrite H. destruct (canvasRef w); [| reflexivity].
    rewrite orb_true_r. reflexivity.
  - apply Z.leb_le in H. rewrite H. destruct (canvasRef w); [| reflexivity].
    rewrite orb_true_r. reflexivity.
  - rewrite H, Hl. cbn. break_tests; reflexivity.
Qed.

Lemma drawFrame_guards_witness :
  drawFrame 30 readyWorld = readyWorld /\ drawFrame (-1) readyWorld = readyWorld.
Proof.
  split; apply drawFrame_guards.
  - right. right. right. right. left. vm_compute. discriminate.
  - right. right. right. left. reflexivity.
Defined.

(** ** More on the geometry *)

(** X14. For positive sizes the rectangle the image is drawn in contains the
    whole canvas: it starts at or before the top-left corner and ends at or
    after the bottom-right one; it touches the canvas exactly along one
    axis, and when image and canvas have the same aspect ratio it is the
    canvas itself. *)
Theorem coverFit_contains_canvas (canvas : Canvas.t) (img : Image.t) :
  0 < Canvas.width canvas -> 0 < Canvas.height canvas ->
  0 < Image.width img -> 0 < Image.height img ->
  let r := coverFit canvas img in
  offsetX r <= 0 /\ offsetY r <= 0
  /\ Canvas.width canvas <= offsetX r + drawWidth r
  /\ Canvas.height canvas <= offsetY r + drawHeight r
  /\ ((offsetX r == 0 /\ drawWidth r == Canvas.width canvas)
      \/ (offsetY r == 0 /\ drawHeight r == Canvas.height canvas))
  /\ (Image.width img / Image.height img == Canvas.width canvas / Canvas.height canvas ->
      offsetX r == 0 /\ offsetY r == 0
      /\ drawWidth r == Canvas.width canvas /\ drawHeight r == Canvas.height canvas).
Proof.
  intros Hcw Hch Hiw Hih. cbv zeta.
  destruct (coverFit_spec canvas img Hcw Hch Hiw Hih)
    as (Hwide & Htall & Hasp & Hw & Hh & Hx & Hy).
  cbv zeta in *.
  assert (Hhalf : forall a b, a <= b -> (a - b) / 2 <= 0).
  { intros a b Hab. apply Qle_shift_div_r; [reflexivity | lra]. }
  assert (Hend : forall a b, a <= b -> a <= (a - b) / 2 + b).
  { intros a b Hab. assert (E : (a - b) / 2 + b == (a + b) / 2) by field.
    rewrite E. apply Qle_shift_div_l; [reflexivity | lra]. }
  split; [rewrite Hx; now apply Hhalf |].
  split; [rewrite Hy; now apply Hhalf |].
  split; [rewrite Hx; now apply Hend |].
  split; [rewrite Hy; now apply Hend |].
  destruct (Qlt_le_dec (Canvas.width canvas / Canvas.height canvas)
                       (Image.width img / Image.height img)) as [Hlt | Hle].
  - destruct (Hwide Hlt) as (E1 & E2 & E3 & E4).
    split; [right; rewrite E4, E1; split; reflexivity |].
    intros Heq. exfalso. rewrite Heq in Hlt. now apply Qlt_irrefl in Hlt.
  - destruct (Htall Hle) as (E1 & E2 & E3 & E4).
    split; [left; rewrite E4, E1; split; reflexivity |].
    intros Heq.
    assert (Ed : drawHeight (coverFit canvas img) == Canvas.height canvas).
    { rewrite E2, E1, Heq. field. split; lra. }
    split; [now rewrite E4 |]. split; [| split; [now rewrite E1 | exact Ed]].
    rewrite Hy, Ed. field.
Qed.

Lemma coverFit_contains_canvas_witness :
  offsetX (coverFit {| Canvas.width := 1000; Canvas.height := 500 |}
                    {| Image.src := "/images/1.jpg"; Image.width := 1600; Image.height := 400 |})
  <= 0
  /\ 1000 <= offsetX (coverFit {| Canvas.width := 1000; Canvas.height := 500 |}
                               {| Image.src := "/images/1.jpg"; Image.width := 1600;
                                  Image.height := 400 |})
             + drawWidth (coverFit {| Canvas.width := 1000; Canvas.height := 500 |}
                                   {| Image.src := "/images/1.jpg"; Image.width := 1600;
                                      Image.height := 400 |}).
Proof.
  destruct (coverFit_contains_canvas
              {| Canvas.width := 1000; Canvas.height := 500 |}
              {| Image.src := "/images/1.jpg"; Image.width := 1600; Image.height := 400 |})
    as (H1 & _ & H3 & _); try reflexivity.
  split; assumption.
Defined.

Lemma Qdiv_le_compat_r a b c : 0 < c -> a <= b -> a / c <= b / c.
Proof.
  intros Hc Hab. unfold Qdiv. apply Qmult_le_compat_r; [exact Hab |].
  apply Qlt_le_weak, Qinv_lt_0_compat, Hc.
Qed.

(** X15. The progress follows the scroll position of a container taller than
    the viewport: it is 0 as long as the top edge of the container is at or
    below the top of the viewport, 1 once the container has been scrolled
    by its whole scrollable range or more, and never decreases as the top
    edge moves up. *)
Theorem scrollProgress_follows_scroll (top1 top2 width height innerHeight : number) :
  0 < height - innerHeight ->
  let progress top :=
    scrollProgress {| DOMRect.top := top; DOMRect.width := width;
                      DOMRect.height := height |} innerHeight in
  (0 <= top1 -> progress top1 == 0)
  /\ (height - innerHeight <= - top1 -> progress top1 == 1)
  /\ (top2 <= top1 -> progress top1 <= progress top2).
Proof.
  intros Hpos. cbv zeta. unfold scrollProgress. cbn [DOMRect.top DOMRect.height].
  apply gt_true in Hpos. rewrite Hpos. apply gt_true in Hpos.
  split; [| split].
  - intros Ht.
    assert (Hq : - top1 / (height - innerHeight) <= 0).
    { apply Qle_shift_div_r; [exact Hpos | lra]. }
    destruct (Math_min_cases 1 (- top1 / (height - innerHeight))) as [[H1 ->] | [H1 ->]];
      [lra |].
    destruct (Math_max_cases 0 (- top1 / (height - innerHeight))) as [[H2 ->] | [H2 ->]]; lra.
  - intros Ht.
    assert (Hq : 1 <= - top1 / (height - innerHeight)).
    { apply Qle_shift_div_l; [exact Hpos | lra]. }
    rewrite (clamp01_id_hi _ Hq). reflexivity.
  - intros Ht. apply clamp01_mono. apply Qdiv_le_compat_r; [exact Hpos | lra].
Qed.

Lemma scrollProgress_follows_scroll_witness :
  scrollProgress {| DOMRect.top := 120; DOMRect.width := 1000; DOMRect.height := 4000 |} 500
  == 0
  /\ scrollProgress {| DOMRect.top := -9000; DOMRect.width := 1000; DOMRect.height := 4000 |} 500
     == 1.
Proof.
  destruct (scrollProgress_follows_scroll 120 0 1000 4000 500) as (H0 & _); [reflexivity |].
  destruct (scrollProgress_follows_scroll (-9000) 0 1000 4000 500) as (_ & H1 & _);
    [reflexivity |].
  split; [apply H0; discriminate | apply H1; discriminate].
Defined.

(** X16. Every frame of the sequence can be shown: with at least two images,
    frame [k] is the one selected at progress [k / (N - 1)]; with a single
    image every progress selects frame 0. *)
Theorem frameIndex_reaches_every_frame (props : Props) (k : Z) (p : number) :
  let N := images_length props in
  ((2 <= N)%Z -> (0 <= k <= N - 1)%Z ->
   frameIndex props (inject_Z k / inject_Z (N - 1)) = k)
  /\ (N = 1%Z -> frameIndex props p = 0%Z).
Proof.
  cbv zeta. split.
  - intros HN Hk.
    assert (Hd : 0 < inject_Z (images_length props - 1)).
    { change 0 with (inject_Z 0). rewrite <- Zlt_Qlt. lia. }
    assert (Hk0 : 0 <= inject_Z k).
    { change 0 with (inject_Z 0). rewrite <- Zle_Qle. lia. }
    assert (Hk1 : inject_Z k <= inject_Z (images_length props - 1)).
    { rewrite <- Zle_Qle. lia. }
    rewrite frameIndex_in_unit.
    + transitivity (Math_round (inject_Z k)); [| apply Math_round_Z].
      apply Math_round_comp. field. lra.
    + split.
      * apply Qle_shift_div_l; [exact Hd | lra].
      * apply Qle_shift_div_r; [exact Hd | lra].
  - intros HN. unfold frameIndex. rewrite HN. cbn [Z.sub Z.add Z.opp Z.pos_sub].
    transitivity (Math_round (inject_Z 0)); [| apply Math_round_Z].
    apply Math_round_comp. change (inject_Z (1 - 1)) with 0. ring.
Qed.

Lemma frameIndex_reaches_every_frame_witness :
  frameIndex homeProps (inject_Z 17 / inject_Z 29) = 17%Z.
Proof.
  apply (proj1 (frameIndex_reaches_every_frame homeProps 17 0)).
  - vm_compute. discriminate.
  - vm_compute. split; discriminate.
Defined.

(** ** The canvas shows the current frame *)

Lemma SameView_refl w : SameView w w.
Proof. unfold SameView. repeat split; reflexivity. Qed.

Lemma SameView_trans w1 w2 w3 : SameView w1 w2 -> SameView w2 w3 -> SameView w1 w3.
Proof.
  unfold SameView. intros H1 H2. decompose [and] H1. decompose [and] H2.
  repeat split; congruence.
Qed.

Ltac same_view := solve [unfold SameView; cbn; repeat split; reflexivity].

Lemma Shows_SameView w w' : SameView w w' -> Shows w -> Shows w'.
Proof.
  unfold SameView, Shows. intros H Hs. decompose [and] H.
  repeat match goal with E : _ w' = _ w |- _ => rewrite E; clear E end.
  match goal with E : context2d _ = context2d _ |- _ => rewrite E end.
  exact Hs.
Qed.

Lemma DrawBase_SameView props w w' : SameView w w' -> DrawBase props w -> DrawBase props w'.
Proof.
  unfold SameView, DrawBase. intros H Hs. decompose [and] H.
  repeat match goal with E : _ w' = _ w |- _ => rewrite E; clear E end.
  exact Hs.
Qed.

Lemma handleScroll_SameView w : SameView w (handleScroll w).
Proof.
  unfold handleScroll, requestAnimationFrame. destruct w; cbn.
  break_tests; same_view.
Qed.

Lemma scrollEffect_SameView w : SameView w (scrollEffect w).
Proof.
  unfold scrollEffect.
  eapply SameView_trans; [| apply handleScroll_SameView]. destruct w; same_view.
Qed.

Lemma scrollEffectCleanup_SameView w : SameView w (scrollEffectCleanup w).
Proof.
  unfold scrollEffectCleanup, cancelAnimationFrame, clearIfSet, clearTimeout.
  break_tests; destruct w; same_view.
Qed.

Lemma runTimeout_SameView id w : SameView w (runTimeout id w).
Proof. unfold runTimeout. break_tests; destruct w; same_view. Qed.

(** The invariants give what drawing relies on. *)
Lemma DrawBase_of_invariants props w :
  OverlayInv props w -> PublishedInv props w -> PreloadInv props w -> DrawBase props w.
Proof.
  intros (_ & _ & _ & Hf) [Hall Hpub] [_ Hpre]. unfold DrawBase.
  split; [| split; [| split]].
  - intros Hl. destruct (preload w).
    + apply Hpre.
    + destruct Hpub as (Ht & _). congruence.
    + apply Hpre.
  - intros Hl. destruct (preload w);
      try (destruct Hpub as (Hn & _); congruence).
    destruct Hpub as (_ & Ea).
    pose proof (allResolved_Forall2 _ _ _ Hall Ea) as H2.
    split; [symmetry; eapply Forall2_length; exact H2 |].
    clear - H2. induction H2 as [| ? ? ? ? [Hl _] _ IH]; constructor; assumption.
  - destruct Hf as [(_ & Hc & _) | (Hr & Hc & _)]; lia.
  - destruct Hf as [(_ & Hc & _) | (Hr & Hc & _)]; [right; exact Hc | left; lia].
Qed.

Lemma drawFrame_valid props f w canvas :
  DrawBase props w ->
  imagesLoaded w = true ->
  context2d (page w) = true ->
  canvasRef w = Some canvas ->
  (0 <= f < images_length props)%Z ->
  exists li,
    nth_error (loadedImagesRef w) (Z.to_nat f) = Some li
    /\ drawFrame f w = set_drawn (drawn w ++ drawOps canvas li) w.
Proof.
  intros (_ & B2 & _) Hl Hctx Hc Hf.
  destruct (B2 Hl) as [Hlen Hall].
  unfold images_length in Hf. rewrite <- Hlen in Hf.
  destruct (nth_error (loadedImagesRef w) (Z.to_nat f)) as [li |] eqn:Hnth;
    [| apply nth_error_None in Hnth; lia].
  exists li. split; [reflexivity |].
  assert (Hli : loaded li = true).
  { rewrite Forall_forall in Hall. apply Hall. eapply nth_error_In; eassumption. }
  rewrite <- (Z2Nat.id f) at 1 by lia.
  apply (drawFrame_draws w (Z.to_nat f) canvas li); assumption.
Qed.

Lemma resizeCanvas_Shows props w :
  DrawBase props w -> Shows w -> Shows (resizeCanvas w).
Proof.
  intros Hb (Hctx & Hcan & Hs). unfold resizeCanvas.
  destruct (canvasRef w) as [c |] eqn:Ec; [| congruence].
  destruct (parentRect (page w)) as [r |] eqn:Er;
    [| split; [assumption | split; [congruence | rewrite Ec; exact Hs]]].
  set (canvas' := (Canvas.resized r)).
  set (w1 := set_canvasRef (Some canvas') w).
  assert (Hv : imagesLoaded w1 = imagesLoaded w /\ currentFrame w1 = currentFrame w
               /\ loadedImagesRef w1 = loadedImagesRef w /\ drawn w1 = drawn w
               /\ page w1 = page w /\ canvasRef w1 = Some canvas')
    by (destruct w; repeat split; reflexivity).
  destruct Hv as (V1 & V2 & V3 & V4 & V5 & V6).
  assert (Hb1 : DrawBase props w1).
  { unfold DrawBase. rewrite V1, V2, V3, V4. exact Hb. }
  destruct Hb as (B1 & B2 & B3 & B4).
  rewrite V1, V2.
  destruct (imagesLoaded w) eqn:El.
  - destruct (Z_lt_dec (currentFrame w) (images_length props)) as [Hlt | Hge].
    + destruct (drawFrame_valid props (currentFrame w) w1 canvas' Hb1)
        as (li & Hnth & ->); try congruence; [lia |].
      split; [destruct w; exact Hctx |]. split; [destruct w; discriminate |].
      right. exists canvas', li, (drawn w).
      rewrite V3 in Hnth. destruct w; cbn in *. auto.
    + assert (Hnone : drawn w = []).
      { destruct Hs as [Hs | (c0 & li & pre & _ & Hnth & _)]; [exact Hs |].
        exfalso. destruct (B2 eq_refl) as [Hlen _].
        assert (Hsome : nth_error (loadedImagesRef w) (Z.to_nat (currentFrame w)) <> None)
          by congruence.
        apply nth_error_Some in Hsome. unfold images_length in Hge. lia. }
      rewrite (drawFrame_guards (currentFrame w) w1).
      * split; [congruence |]. split; [congruence |]. left. congruence.
      * right. right. right. right. left. rewrite V3.
        destruct (B2 eq_refl) as [Hlen _]. unfold images_length in Hge. lia.
  - split; [congruence |]. split; [congruence |]. left. rewrite V4. now apply B1.
Qed.

Lemma updateFrame_view props p w :
  canvasRef (updateFrame props p w) = canvasRef w
  /\ loadedImagesRef (updateFrame props p w) = loadedImagesRef w
  /\ imagesLoaded (updateFrame props p w) = imagesLoaded w
  /\ page (updateFrame props p w) = page w.
Proof.
  destruct (updateFrame_untouched props p w) as (A & _ & _ & _ & B & _ & C & _ & D & _).
  auto.
Qed.

Lemma updateFrame_Shows props p w :
  DrawBase props w -> imagesLoaded w = true -> Shows w ->
  Shows (updateFrame props p w).
Proof.
  intros Hb Hl (Hctx & Hcan & Hs).
  destruct (frameChanged props p w) eqn:H;
    [| rewrite (updateFrame_unchanged props p w H); repeat split; assumption].
  destruct (updateFrame_view props p w) as (V1 & V2 & V3 & V4).
  destruct (updateFrame_lastFrameRef props p w H) as [_ Hc].
  pose proof (updateFrame_drawn props p w H) as Hd.
  apply frameChanged_true in H as [_ Hr].
  destruct (canvasRef w) as [c |] eqn:Ec; [| congruence].
  destruct (drawFrame_valid props (frameIndex props p) w c Hb Hl Hctx Ec Hr)
    as (li & Hnth & Hdraw).
  unfold Shows. rewrite V1, V2, V4, Hc, Hd, Hdraw, drawn_set_drawn.
  split; [assumption |]. split; [discriminate |].
  right. exists c, li, (drawn w). auto.
Qed.

Lemma updateFrame_DrawBase props p w :
  DrawBase props w -> imagesLoaded w = true -> DrawBase props (updateFrame props p w).
Proof.
  intros (B1 & B2 & B3 & B4) Hl.
  destruct (updateFrame_view props p w) as (V1 & V2 & V3 & V4).
  unfold DrawBase. rewrite V2, V3, Hl.
  split; [discriminate |]. split; [intros _; now apply B2 |].
  destruct (frameChanged props p w) eqn:H.
  - destruct (updateFrame_lastFrameRef props p w H) as [_ Hc]. rewrite Hc.
    apply frameChanged_true in H as [_ Hr]. split; [lia | left; lia].
  - rewrite (updateFrame_unchanged props p w H). auto.
Qed.

Lemma runAnimationFrame_Shows props w :
  SchedulerInv w -> DrawBase props w -> Shows w ->
  Shows (runAnimationFrame props w) /\ DrawBase props (runAnimationFrame props w).
Proof.
  intros (_ & Hq & Hnl) Hb Hs. unfold runAnimationFrame.
  destruct Hq as [[_ Hq] | (_ & _ & p & Hq)]; rewrite Hq; cbn [fold_left snd].
  - split; [apply (Shows_SameView w) | apply (DrawBase_SameView props w)];
      try assumption; destruct w; same_view.
  - assert (Hl : imagesLoaded w = true).
    { destruct (imagesLoaded w); [reflexivity |]. specialize (Hnl eq_refl). congruence. }
    assert (Hv : SameView w (set_rafQueue [] w)) by (destruct w; same_view).
    pose proof (Shows_SameView _ _ Hv Hs) as Hs1.
    pose proof (DrawBase_SameView props _ _ Hv Hb) as Hb1.
    assert (Hl1 : imagesLoaded (set_rafQueue [] w) = true) by (destruct w; exact Hl).
    pose proof (updateFrame_Shows props p _ Hb1 Hl1 Hs1) as Hs2.
    pose proof (updateFrame_DrawBase props p _ Hb1 Hl1) as Hb2.
    unfold animationCallback.
    revert Hs2 Hb2. generalize (updateFrame props p (set_rafQueue [] w)). intros u Hs2 Hb2.
    split; [apply (Shows_SameView u) | apply (DrawBase_SameView props u)];
      try assumption; destruct u; same_view.
Qed.

Lemma handle_PreloadInv props e w :
  PreloadInv props w -> PreloadInv props (handle props e w).
Proof.
  intros H. pose proof (handle_Quiet props e w) as Hq.
  destruct e; try (eapply PreloadInv_Quiet; eassumption).
  - now apply onload_PreloadInv.
  - now apply onerror_PreloadInv.
Qed.

Lemma handle_PublishedInv props e w :
  PublishedInv props w -> PublishedInv props (handle props e w).
Proof.
  intros H. pose proof (handle_Quiet props e w) as Hq.
  destruct e; try (eapply PublishedInv_Quiet; eassumption).
  - now apply onload_PublishedInv.
  - now apply onerror_PublishedInv.
Qed.

Lemma handle_Invariants props e w :
  Invariants props w -> Invariants props (handle props e w).
Proof.
  intros (Hs & Ho & Hp & Hl).
  destruct (handle_invariants props e w Hs Ho) as [Hs' Ho'].
  split; [exact Hs' |]. split; [exact Ho' |].
  split; [now apply handle_PublishedInv | now apply handle_PreloadInv].
Qed.

Lemma commit_Invariants props before after :
  Invariants props after -> Invariants props (commit before after).
Proof.
  intros (Hs & Ho & Hp & Hl).
  destruct (commit_invariants props before after Hs Ho) as [Hs' Ho'].
  split; [exact Hs' |]. split; [exact Ho' |]. split.
  - eapply PublishedInv_Quiet; [apply commit_Quiet | exact Hp].
  - eapply PreloadInv_Quiet; [apply commit_Quiet | exact Hl].
Qed.

Lemma DrawBase_Invariants props w : Invariants props w -> DrawBase props w.
Proof. intros (_ & Ho & Hp & Hl). now apply DrawBase_of_invariants. Qed.

Lemma set_page_Shows pg w : context2d pg = true -> Shows w -> Shows (set_page pg w).
Proof.
  unfold Shows. intros Hctx (_ & Hc & Hs). destruct w; cbn in *. auto.
Qed.

Lemma set_page_DrawBase props pg w : DrawBase props w -> DrawBase props (set_page pg w).
Proof. unfold DrawBase. destruct w; cbn. auto. Qed.

Lemma onload_Shows props i nw nh w :
  DrawBase props w -> PublishedInv props w -> Shows w ->
  Shows (onload props i nw nh w).
Proof.
  intros (B1 & _) [_ Hp] (Hctx & Hcan & Hs). unfold onload, promiseAll.
  destruct (nth_error (images props) i) as [src |];
    [| split; [assumption | split; assumption]].
  destruct (nth_error (acquisitions w) i) as [[| li |] |];
    try (split; [assumption | split; assumption]).
  unfold Shows. destruct w; cbn in *.
  destruct preload0; cbn; try (split; [assumption | split; assumption]).
  destruct Hp as (Hl0 & _).
  match goal with
  | |- context [allResolved ?l] => destruct (allResolved l)
  end; cbn; [| split; [assumption | split; assumption]].
  split; [assumption |]. split; [assumption |].
  left. now apply B1.
Qed.

Lemma onerror_SameView props i w : SameView w (onerror props i w).
Proof.
  unfold onerror.
  destruct (nth_error (images props) i) as [src |]; [| apply SameView_refl].
  destruct (nth_error (acquisitions w) i) as [[| li |] |]; try apply SameView_refl.
  destruct w; cbn. destruct preload0; same_view.
Qed.

Lemma handle_Shows props e w :
  Invariants props w -> Shows w -> pageHasContext e = true ->
  Shows (handle props e w).
Proof.
  intros Hinv Hs He.
  pose proof (DrawBase_Invariants props w Hinv) as Hb.
  destruct e; cbn [handle]; cbn in He.
  - apply (onload_Shows props); [exact Hb | apply Hinv | exact Hs].
  - eapply Shows_SameView; [apply onerror_SameView | exact Hs].
  - eapply Shows_SameView; [apply handleScroll_SameView |].
    now apply set_page_Shows.
  - apply (runAnimationFrame_Shows props); [apply Hinv | exact Hb | exact Hs].
  - apply (resizeCanvas_Shows props).
    + now apply set_page_DrawBase.
    + now apply set_page_Shows.
  - eapply Shows_SameView; [| exact Hs]. destruct w; same_view.
  - eapply Shows_SameView; [apply runTimeout_SameView | exact Hs].
Qed.

Lemma commit_Shows props before after :
  Invariants props after -> Shows after -> Shows (commit before after).
Proof.
  intros Hinv Hs. pose proof (DrawBase_Invariants props after Hinv) as Hb.
  unfold commit, resizeEffect.
  assert (Hv : SameView after (scrollEffect (scrollEffectCleanup after))).
  { eapply SameView_trans; [apply scrollEffectCleanup_SameView | apply scrollEffect_SameView]. }
  break_tests; try assumption;
    first [ apply (resizeCanvas_Shows props);
            [ first [exact Hb | eapply DrawBase_SameView; [exact Hv | exact Hb]]
            | first [exact Hs | eapply Shows_SameView; [exact Hv | exact Hs]] ]
          | eapply Shows_SameView; [exact Hv | exact Hs] ].
Qed.

Lemma step_Shows props w e :
  Invariants props w -> Shows w -> pageHasContext e = true ->
  Invariants props (step props w e) /\ Shows (step props w e).
Proof.
  intros Hinv Hs He. unfold step.
  pose proof (handle_Invariants props e w Hinv) as Hinv'.
  pose proof (handle_Shows props e w Hinv Hs He) as Hs'.
  split; [now apply commit_Invariants | now apply (commit_Shows props)].
Qed.

Lemma run_Shows props es : forall w,
  Invariants props w -> Shows w -> forallb pageHasContext es = true ->
  Invariants props (run props es w) /\ Shows (run props es w).
Proof.
  induction es as [| e es IH]; intros w Hinv Hs Hes; [split; assumption |].
  cbn [forallb] in Hes. apply andb_true_iff in Hes as [He Hes].
  rewrite run_cons.
  destruct (step_Shows props w e Hinv Hs He) as [Hinv' Hs']. now apply IH.
Qed.

Lemma mount_Invariants props pg : Invariants props (mount props pg).
Proof.
  destruct (mount_invariants props pg) as [Hs Ho].
  split; [exact Hs |]. split; [exact Ho |].
  split; [apply mount_PublishedInv | apply mount_PreloadInv].
Qed.

Lemma mount_Shows props pg : context2d pg = true -> Shows (mount props pg).
Proof.
  intros Hctx. unfold mount.
  set (w0 := resizeEffect (scrollEffect (preloadImages props (initialWorld pg)))).
  assert (Hw0 : exists c,
             w0 = set_canvasRef (Some c) (preloadImages props (initialWorld pg))).
  { unfold w0, resizeEffect, resizeCanvas, scrollEffect, handleScroll. cbn.
    destruct (containerRect pg); cbn; destruct (parentRect pg); cbn; eexists; reflexivity. }
  destruct Hw0 as [c Hw0].
  assert (Hinv : Invariants props (promiseAll props w0)).
  { split; [| split; [| split]].
    - eapply SchedulerInv_SameCore; [apply promiseAll_SameCore |].
      rewrite Hw0. unfold SchedulerInv. cbn. repeat split; auto; lia.
    - eapply OverlayInv_SameCore; [apply promiseAll_SameCore |].
      rewrite Hw0. unfold OverlayInv. cbn. repeat split; auto; try lia.
      left. repeat split; reflexivity.
    - rewrite Hw0. unfold promiseAll, PublishedInv. cbn.
      pose proof (Forall2_unsettled (images props)) as Hall.
      destruct (images props) as [| src srcs]; cbn; split; auto.
    - apply promiseAll_PreloadInv. rewrite Hw0. unfold PreloadInv. cbn.
      rewrite length_map. auto. }
  apply (commit_Shows props); [exact Hinv |].
  unfold Shows. rewrite promiseAll_drawn. rewrite Hw0.
  unfold promiseAll. cbn.
  destruct (allResolved _); cbn; repeat split; auto; discriminate.
Qed.

(** ** Crossing the trigger frame, and mounting *)

(** X18. After any run in which the secondary text is not visible, a frame
    change that lands at or above the trigger frame shows the primary text
    at once, keeps the secondary text hidden and leaves exactly one settle
    timer pending, a new one due 800ms from now, whatever timer was pending
    before. *)
Theorem cross_above_trigger_arms_timer
    (props : Props) (pg : Page) (es : list Event) (p : number) :
  let w := run props es (mount props pg) in
  frameChanged props p w = true ->
  (textTriggerFrame props <= frameIndex props p)%Z ->
  showDescription w = false ->
  showText (updateFrame props p w) = true
  /\ showDescription (updateFrame props p w) = false
  /\ timers (updateFrame props p w) = [(nextHandle w, (clock w + 800)%Z)]
  /\ descriptionTimeout (updateFrame props p w) = Some (nextHandle w).
Proof.
  cbv zeta. destruct (reachable_invariants props pg es) as [_ Ho].
  pose proof (OverlayInv_timers props _ Ho) as Ht. clear Ho.
  revert Ht. generalize (run props es (mount props pg)). intros w Ht H Hle Hd.
  rewrite (updateFrame_changed props p w H). cbv zeta.
  apply Z.leb_le in Hle. rewrite Hle. clear H Hle.
  generalize (frameIndex props p). intros f.
  destruct (drawFrame_only_draws f (set_currentFrame f (set_lastFrameRef f w)))
    as [ops ->].
  replace (showDescription (set_showText true
                              (set_drawn ops (set_currentFrame f (set_lastFrameRef f w)))))
    with false by (destruct w; cbn in *; congruence).
  cbn [negb].
  match goal with
  | |- context [clearIfSet (descriptionTimeout ?x) ?x] =>
      rewrite !(clearIfSet_pending x) by (destruct w; exact Ht)
  end.
  destruct w; cbn in *. subst. repeat split; reflexivity.
Qed.

Lemma cross_above_trigger_arms_timer_witness :
  timers
    (updateFrame homeProps 1
       (run homeProps (loadAll ++ [AnimationFrame]) (mount homeProps (viewport 0))))
  = [(2, 800)]%Z.
Proof.
  apply (cross_above_trigger_arms_timer homeProps (viewport 0) (loadAll ++ [AnimationFrame]) 1).
  - vm_compute. reflexivity.
  - vm_compute. discriminate.
  - vm_compute. reflexivity.
Defined.

(** The world mounting builds before React re-renders: the canvas has been
    sized, nothing else has happened. *)
Lemma mount_before_commit props pg :
  exists c,
    resizeEffect (scrollEffect (preloadImages props (initialWorld pg)))
    = set_canvasRef (Some c) (preloadImages props (initialWorld pg))
    /\ (forall r, parentRect pg = Some r ->
          c = (Canvas.resized r)).
Proof.
  unfold resizeEffect, resizeCanvas, scrollEffect, handleScroll. cbn.
  destruct (containerRect pg); cbn; destruct (parentRect pg); cbn;
    eexists; (split; [reflexivity |]); intros r Hr; inversion Hr; reflexivity.
Qed.

(** Running the scroll effect again leaves the frame, the layout and the
    canvas alone and arms no timer. *)
Lemma rerun_scrollEffect_fields w :
  currentFrame (scrollEffect (scrollEffectCleanup w)) = currentFrame w
  /\ lastFrameRef (scrollEffect (scrollEffectCleanup w)) = lastFrameRef w
  /\ page (scrollEffect (scrollEffectCleanup w)) = page w
  /\ canvasRef (scrollEffect (scrollEffectCleanup w)) = canvasRef w
  /\ (timers w = [] -> timers (scrollEffect (scrollEffectCleanup w)) = []).
Proof.
  unfold scrollEffect.
  destruct (handleScroll_overlay (set_ticking false (scrollEffectCleanup w)))
    as (E1 & _ & _ & _ & E5 & E6 & _).
  destruct (handleScroll_state (set_ticking false (scrollEffectCleanup w)))
    as (_ & _ & _ & _ & E8).
  assert (E7 : page (handleScroll (set_ticking false (scrollEffectCleanup w)))
               = page (set_ticking false (scrollEffectCleanup w))).
  { generalize (set_ticking false (scrollEffectCleanup w)). intros x.
    unfold handleScroll, requestAnimationFrame. destruct x; cbn.
    break_tests; reflexivity. }
  rewrite E1, E5, E6, E7, E8.
  unfold scrollEffectCleanup, cancelAnimationFrame, clearIfSet, clearTimeout.
  destruct w; cbn. break_tests; cbn; repeat split; try reflexivity;
    intros ->; reflexivity.
Qed.

Lemma resizeCanvas_fields w :
  currentFrame (resizeCanvas w) = currentFrame w
  /\ lastFrameRef (resizeCanvas w) = lastFrameRef w
  /\ page (resizeCanvas w) = page w
  /\ timers (resizeCanvas w) = timers w.
Proof.
  destruct (resizeCanvas_SameCore w) as (E1 & _ & _ & _ & _ & E6 & _ & _ & E9 & _).
  repeat split; try assumption.
  unfold resizeCanvas. break_tests; try reflexivity;
    try match goal with
        | |- context [drawFrame ?i ?x] =>
            destruct (drawFrame_only_draws i x) as [ops ->]
        end; destruct w; reflexivity.
Qed.

(** Re-rendering leaves the frame and the layout alone and arms no timer. *)
Lemma commit_fields before after :
  currentFrame (commit before after) = currentFrame after
  /\ lastFrameRef (commit before after) = lastFrameRef after
  /\ page (commit before after) = page after
  /\ (timers after = [] -> timers (commit before after) = []).
Proof.
  destruct (rerun_scrollEffect_fields after) as (A & B & C & _ & D).
  unfold commit, resizeEffect.
  break_tests;
    repeat match goal with
           | |- context [resizeCanvas ?x] =>
               let A' := fresh in let B' := fresh in let C' := fresh in let D' := fresh in
               destruct (resizeCanvas_fields x) as (A' & B' & C' & D');
               rewrite A', B', C', D'; clear A' B' C' D'
           end;
    rewrite ?A, ?B, ?C; auto.
Qed.

(** Re-rendering leaves the canvas at the size of its parent. *)
Lemma commit_canvas_size before after c r :
  canvasRef after = Some c ->
  parentRect (page after) = Some r ->
  c = (Canvas.resized r) ->
  canvasRef (commit before after)
  = Some (Canvas.resized r).
Proof.
  intros Hc Hr Heq.
  destruct (rerun_scrollEffect_fields after) as (_ & _ & Hp & Hv & _).
  unfold commit, resizeEffect.
  break_tests;
    first [ apply (resizeCanvas_sizes _ c r); congruence
          | congruence ].
Qed.

(** X19. Right after mounting: with at least one image the component is not
    loaded, shows no frame counter, has drawn nothing, has scheduled nothing
    and waits for every image; with no image at all it is loaded at once,
    with nothing published and nothing drawn, and its counter reads
    "Frame 1 / 0".  In both cases the canvas has the size of its parent in
    whole pixels, as [canvas.width] and [canvas.height] store it. *)
Theorem mount_state (props : Props) (pg : Page) :
  let w := mount props pg in
  (images props <> [] ->
   imagesLoaded w = false /\ preload w = AllPending /\ frameCounter props w = None
   /\ rafQueue w = [] /\ ticking w = false)
  /\ (images props = [] ->
      imagesLoaded w = true /\ preload w = AllFulfilled
      /\ loadedImagesRef w = [] /\ frameCounter props w = Some (1%Z, 0%Z))
  /\ drawn w = [] /\ timers w = [] /\ lastFrameRef w = (-1)%Z
  /\ acquisitions w = map (fun _ => Unsettled) (images props)
  /\ (forall r, parentRect pg = Some r ->
        canvasRef w = Some (Canvas.resized r)).
Proof.
  cbv zeta.
  destruct (mount_before_commit props pg) as (c & Hw0 & Hsize).
  unfold mount. rewrite Hw0.
  set (base := set_canvasRef (Some c) (preloadImages props (initialWorld pg))).
  assert (Hacq : acquisitions (mount props pg) = map (fun _ => Unsettled) (images props))
    by apply mount_acquisitions.
  unfold mount in Hacq. rewrite Hw0 in Hacq. fold base in Hacq.
  destruct (images props) as [| src srcs] eqn:Ei.
  - (* no image: fulfilled at once, then the effects run again *)
    assert (E1 : imagesLoaded (promiseAll props base) = true
                 /\ preload (promiseAll props base) = AllFulfilled
                 /\ loadedImagesRef (promiseAll props base) = []
                 /\ drawn (promiseAll props base) = []
                 /\ currentFrame (promiseAll props base) = 0%Z
                 /\ lastFrameRef (promiseAll props base) = (-1)%Z
                 /\ timers (promiseAll props base) = []
                 /\ canvasRef (promiseAll props base) = Some c
                 /\ page (promiseAll props base) = pg).
    { unfold promiseAll, base. cbn. rewrite Ei. cbn. repeat split; reflexivity. }
    revert Hacq E1. generalize (promiseAll props base). intros w1 Hacq E1.
    destruct E1 as (L1 & L2 & L3 & L4 & L5 & L6 & L7 & L8 & L9).
    destruct (commit_Quiet base w1) as (Q1 & Q2 & Q3 & _).
    destruct (commit_fields base w1) as (F1 & F2 & F3 & F4).
    destruct (commit_Draws base w1) as (_ & frames & D1 & D2).
    assert (Hframes : frames = []).
    { destruct frames as [| f frames]; [reflexivity |].
      inversion D2 as [| ? ? [Hin _] _]; subst. rewrite L3 in Hin. destruct Hin. }
    subst frames. cbn [flat_map] in D1. rewrite app_nil_r in D1.
    split; [intros Hne; congruence |].
    split.
    { intros _. unfold frameCounter, images_length.
      rewrite Q1, Q2, Q3, F1, L1, L2, L3, L5, Ei. repeat split; reflexivity. }
    split; [congruence |].
    split; [apply F4; exact L7 |].
    split; [congruence |].
    split; [exact Hacq |].
    intros r Hr. specialize (Hsize r Hr).
    apply (commit_canvas_size base w1 c r); congruence.
  - (* at least one image: nothing happens yet *)
    assert (Hw1 : promiseAll props base = base).
    { unfold promiseAll, base. cbn. rewrite Ei. reflexivity. }
    rewrite Hw1 in *. rewrite (commit_same base base) in * by reflexivity.
    unfold frameCounter, base. cbn. rewrite Ei.
    split; [intros _; repeat split; reflexivity |].
    split; [intros He; discriminate |].
    repeat split; try reflexivity.
    intros r Hr. now rewrite (Hsize r Hr).
Qed.

Lemma mount_state_witness :
  imagesLoaded (mount homeProps (viewport 0)) = false
  /\ imagesLoaded (mount emptyProps (viewport 0)) = true
  /\ canvasRef (mount homeProps (viewport 0))
     = Some {| Canvas.width := 1000; Canvas.height := 500 |}.
Proof.
  destruct (mount_state homeProps (viewport 0)) as (Hne & _ & _ & _ & _ & _ & Hsize).
  destruct (mount_state emptyProps (viewport 0)) as (_ & He & _).
  split; [apply Hne; discriminate |].
  split; [apply He; reflexivity |].
  apply (Hsize {| DOMRect.top := 0; DOMRect.width := 1000; DOMRect.height := 500 |}).
  reflexivity.
Defined.

(** ** Sizes along a trace *)

Lemma IntegerPart_floor x : 0 <= x -> IntegerPart x = Qfloor x.
Proof.
  intros H. unfold IntegerPart.
  apply Qle_bool_iff in H. now rewrite H.
Qed.

Lemma wholePixels_bounds x :
  wholePixels x = true <-> 1 <= x /\ x < 4294967296.
Proof.
  unfold wholePixels. rewrite andb_true_iff, Qle_bool_iff, lt_true. tauto.
Qed.

(** A length of whole pixels below 2^31 is stored as its integer part. *)
Lemma reflect_floor d x :
  0 <= x -> x < 2147483648 -> Canvas.reflect d x = inject_Z (Qfloor x).
Proof.
  intros H0 H1. unfold Canvas.reflect, toUnsignedLong.
  rewrite (IntegerPart_floor x H0).
  assert (Hlo : (0 <= Qfloor x)%Z).
  { change 0%Z with (Qfloor (inject_Z 0)). apply Qfloor_resp_le. exact H0. }
  assert (Hhi : (Qfloor x < 2147483648)%Z).
  { rewrite Zlt_Qlt. eapply Qle_lt_trans; [apply Qfloor_le | exact H1]. }
  rewrite Z.mod_small by lia.
  replace (Qfloor x <=? 2147483647)%Z with true by (symmetry; apply Z.leb_le; lia).
  reflexivity.
Qed.

Lemma reflect_pos d x :
  (0 < d)%Z -> wholePixels x = true -> 0 < Canvas.reflect d x.
Proof.
  intros Hd Hx. apply wholePixels_bounds in Hx as [H1 H2].
  unfold Canvas.reflect, toUnsignedLong.
  rewrite (IntegerPart_floor x) by lra.
  assert (Hlo : (1 <= Qfloor x)%Z).
  { change 1%Z with (Qfloor (inject_Z 1)). apply Qfloor_resp_le. exact H1. }
  assert (Hhi : (Qfloor x < 4294967296)%Z).
  { rewrite Zlt_Qlt. eapply Qle_lt_trans; [apply Qfloor_le | exact H2]. }
  rewrite Z.mod_small by lia.
  change 0 with (inject_Z 0). rewrite <- Zlt_Qlt.
  destruct (Qfloor x <=? 2147483647)%Z; lia.
Qed.

Lemma resized_positive r :
  wholePixels (DOMRect.width r) = true ->
  wholePixels (DOMRect.height r) = true ->
  positiveCanvas (Canvas.resized r).
Proof.
  intros Hw Hh. split; cbn; apply reflect_pos; (lia || assumption).
Qed.

Lemma SameSizes_refl w : SameSizes w w.
Proof. unfold SameSizes. repeat split; reflexivity. Qed.

Lemma SameSizes_trans w1 w2 w3 : SameSizes w1 w2 -> SameSizes w2 w3 -> SameSizes w1 w3.
Proof.
  unfold SameSizes. intros (A1 & A2 & A3 & A4) (B1 & B2 & B3 & B4).
  repeat split; congruence.
Qed.

Lemma Sized_SameSizes w w' : SameSizes w w' -> Sized w -> Sized w'.
Proof.
  unfold SameSizes, Sized. intros (A1 & A2 & A3 & A4). now rewrite A1, A2, A3, A4.
Qed.

Ltac same_sizes := solve [unfold SameSizes; cbn; repeat split; reflexivity].

Lemma drawFrame_SameSizes i w : SameSizes w (drawFrame i w).
Proof. destruct (drawFrame_only_draws i w) as [ops ->]. destruct w; same_sizes. Qed.

Lemma updateFrame_SameSizes props p w : SameSizes w (updateFrame props p w).
Proof.
  destruct (updateFrame_untouched props p w)
    as (_ & _ & _ & _ & U5 & U6 & U7 & _ & U9 & _).
  unfold SameSizes. auto.
Qed.

Lemma handleScroll_SameSizes w : SameSizes w (handleScroll w).
Proof.
  unfold handleScroll, requestAnimationFrame. destruct w; cbn.
  break_tests; same_sizes.
Qed.

Lemma scrollEffect_SameSizes w : SameSizes w (scrollEffect w).
Proof.
  unfold scrollEffect.
  eapply SameSizes_trans; [| apply handleScroll_SameSizes]. destruct w; same_sizes.
Qed.

Lemma scrollEffectCleanup_SameSizes w : SameSizes w (scrollEffectCleanup w).
Proof.
  unfold scrollEffectCleanup, cancelAnimationFrame, clearIfSet, clearTimeout.
  break_tests; destruct w; same_sizes.
Qed.

Lemma runTimeout_SameSizes id w : SameSizes w (runTimeout id w).
Proof. unfold runTimeout. break_tests; destruct w; same_sizes. Qed.

Lemma runAnimationFrame_SameSizes props w : SameSizes w (runAnimationFrame props w).
Proof.
  unfold runAnimationFrame.
  eapply SameSizes_trans; [apply (SameSizes_refl w) |].
  assert (H : SameSizes w (set_rafQueue [] w)) by (destruct w; same_sizes).
  eapply SameSizes_trans; [exact H |].
  generalize (set_rafQueue [] w). generalize (rafQueue w).
  intros q. induction q as [| cb q IH]; intros w0; cbn [fold_left];
    [apply SameSizes_refl |].
  eapply SameSizes_trans; [| apply IH].
  unfold animationCallback.
  eapply SameSizes_trans; [apply (updateFrame_SameSizes props (snd cb) w0) |].
  destruct (updateFrame props (snd cb) w0); same_sizes.
Qed.

Lemma resizeCanvas_Sized w : Sized w -> Sized (resizeCanvas w).
Proof.
  intros Hs. unfold resizeCanvas.
  destruct (canvasRef w) as [c |] eqn:Ec; [| exact Hs].
  destruct (parentRect (page w)) as [r |] eqn:Er; [| exact Hs].
  assert (H1 : Sized (set_canvasRef (Some (Canvas.resized r)) w)).
  { destruct Hs as (S1 & S2 & S3 & S4).
    unfold sizedPage in S2. rewrite Er in S2. apply andb_true_iff in S2 as [Hw Hh].
    unfold Sized. destruct w; cbn in *.
    split; [| split; [| split]]; try assumption.
    - intros canvas [= <-]. now apply resized_positive.
    - unfold sizedPage. rewrite Er, Hw, Hh. reflexivity. }
  assert (E : imagesLoaded (set_canvasRef (Some (Canvas.resized r)) w) = imagesLoaded w
              /\ currentFrame (set_canvasRef (Some (Canvas.resized r)) w) = currentFrame w)
    by (destruct w; split; reflexivity).
  destruct E as [-> ->].
  destruct (imagesLoaded w); [| exact H1].
  eapply Sized_SameSizes; [apply drawFrame_SameSizes | exact H1].
Qed.

Lemma commit_Sized before after : Sized after -> Sized (commit before after).
Proof.
  intros Hs. unfold commit, resizeEffect.
  assert (Hv : SameSizes after (scrollEffect (scrollEffectCleanup after))).
  { eapply SameSizes_trans;
      [apply scrollEffectCleanup_SameSizes | apply scrollEffect_SameSizes]. }
  break_tests; try assumption;
    first [ apply resizeCanvas_Sized;
            first [exact Hs | eapply Sized_SameSizes; [exact Hv | exact Hs]]
          | eapply Sized_SameSizes; [exact Hv | exact Hs] ].
Qed.

Lemma set_page_Sized pg w : sizedPage pg = true -> Sized w -> Sized (set_page pg w).
Proof.
  intros Hp (S1 & S2 & S3 & S4). unfold Sized. destruct w; cbn in *. auto.
Qed.

Lemma Forall_set_nth {A : Type} (P : A -> Prop) i x l :
  P x -> Forall P l -> Forall P (set_nth i x l).
Proof.
  intros Hx Hl. revert i. induction Hl as [| h t Hh Ht IH]; intros [| j]; cbn;
    constructor; auto.
Qed.

Lemma allResolved_positive l values :
  Forall (fun a => forall li, a = Resolved li -> positiveImage li) l ->
  allResolved l = Some values -> Forall positiveImage values.
Proof.
  intros Hl. revert values. induction Hl as [| a t Ha Ht IH]; intros values H; cbn in H.
  - injection H as <-. constructor.
  - destruct a as [| li |]; cbn in H; try discriminate.
    destruct (allResolved t) as [lis |]; [| discriminate].
    injection H as <-. constructor; [now apply Ha | now apply IH].
Qed.

Lemma promiseAll_Sized props w : Sized w -> Sized (promiseAll props w).
Proof.
  intros Hs. pose proof Hs as (S1 & S2 & S3 & S4). unfold promiseAll.
  destruct (preload w); try exact Hs.
  destruct (allResolved (acquisitions w)) as [values |] eqn:Ea; [| exact Hs].
  pose proof (allResolved_positive _ _ S3 Ea) as Hv.
  unfold Sized. destruct w; cbn in *. auto.
Qed.

Lemma onload_Sized props i nw nh w :
  lt 0 nw && lt 0 nh = true -> Sized w -> Sized (onload props i nw nh w).
Proof.
  intros Hpos Hs. apply andb_true_iff in Hpos as [Hw Hh].
  apply lt_true in Hw, Hh. unfold onload.
  destruct (nth_error (images props) i) as [src |]; [| exact Hs].
  destruct (nth_error (acquisitions w) i) as [[| li |] |]; try exact Hs.
  apply promiseAll_Sized.
  destruct Hs as (S1 & S2 & S3 & S4).
  unfold Sized. destruct w; cbn in *.
  split; [assumption |]. split; [assumption |]. split; [| assumption].
  apply Forall_set_nth; [| assumption].
  intros li [= <-]. split; assumption.
Qed.

Lemma onerror_Sized props i w : Sized w -> Sized (onerror props i w).
Proof.
  intros Hs. unfold onerror.
  destruct (nth_error (images props) i) as [src |]; [| exact Hs].
  destruct (nth_error (acquisitions w) i) as [[| li |] |]; try exact Hs.
  destruct Hs as (S1 & S2 & S3 & S4).
  assert (H : Forall (fun a => forall li, a = Resolved li -> positiveImage li)
                     (set_nth i Rejected (acquisitions w))).
  { apply Forall_set_nth; [discriminate | assumption]. }
  unfold Sized. destruct w; cbn in *.
  match goal with
  | |- context [match ?x with AllPending => _ | _ => _ end] => destruct x
  end; cbn; auto.
Qed.

Lemma handle_Sized props e w :
  sizedEvent e = true -> Sized w -> Sized (handle props e w).
Proof.
  intros He Hs. destruct e; cbn [handle]; cbn in He.
  - now apply onload_Sized.
  - now apply onerror_Sized.
  - eapply Sized_SameSizes; [apply handleScroll_SameSizes |]. now apply set_page_Sized.
  - eapply Sized_SameSizes; [apply runAnimationFrame_SameSizes | exact Hs].
  - apply resizeCanvas_Sized. now apply set_page_Sized.
  - eapply Sized_SameSizes; [| exact Hs]. destruct w; same_sizes.
  - eapply Sized_SameSizes; [apply runTimeout_SameSizes | exact Hs].
Qed.

Lemma step_Sized props w e :
  sizedEvent e = true -> Sized w -> Sized (step props w e).
Proof. intros He Hs. unfold step. now apply commit_Sized, handle_Sized. Qed.

Lemma run_Sized props es : forall w,
  forallb sizedEvent es = true -> Sized w -> Sized (run props es w).
Proof.
  induction es as [| e es IH]; intros w Hes Hs; [exact Hs |].
  cbn [forallb] in Hes. apply andb_true_iff in Hes as [He Hes].
  rewrite run_cons. apply IH; [exact Hes | now apply step_Sized].
Qed.

Lemma mount_Sized props pg : sizedPage pg = true -> Sized (mount props pg).
Proof.
  intros Hp. unfold mount.
  apply commit_Sized, promiseAll_Sized.
  unfold resizeEffect. apply resizeCanvas_Sized.
  eapply Sized_SameSizes; [apply scrollEffect_SameSizes |].
  unfold Sized, preloadImages, initialWorld. cbn.
  split; [| split; [exact Hp | split; [| constructor]]].
  - intros canvas [= <-]. split; reflexivity.
  - apply Forall_forall. intros a Ha. apply in_map_iff in Ha as (s & <- & _).
    discriminate.
Qed.

(** ** Frames and the canvas they are drawn on *)

Lemma DrawsOn_same cs w w' :
  loadedImagesRef w' = loadedImagesRef w -> drawn w' = drawn w -> DrawsOn cs w w'.
Proof.
  intros H1 H2. split; [exact H1 |]. exists []. cbn. rewrite app_nil_r.
  split; [exact H2 | constructor].
Qed.

Lemma DrawsOn_trans cs w1 w2 w3 :
  DrawsOn cs w1 w2 -> DrawsOn cs w2 w3 -> DrawsOn cs w1 w3.
Proof.
  intros (A1 & f1 & A2 & A3) (B1 & f2 & B2 & B3). split; [congruence |].
  exists (f1 ++ f2). split.
  - rewrite B2, A2, flat_map_app, app_assoc. reflexivity.
  - apply Forall_app. split; [exact A3 |]. now rewrite A1 in B3.
Qed.

Lemma DrawsOn_incl cs cs' w w' :
  incl cs cs' -> DrawsOn cs w w' -> DrawsOn cs' w w'.
Proof.
  intros Hi (A1 & f & A2 & A3). split; [exact A1 |]. exists f. split; [exact A2 |].
  eapply Forall_impl; [| exact A3]. cbn. intros a (H1 & H2 & H3). auto.
Qed.

Lemma DrawsOn_fields cs w w' w'' :
  loadedImagesRef w'' = loadedImagesRef w' -> drawn w'' = drawn w' ->
  DrawsOn cs w w' -> DrawsOn cs w w''.
Proof.
  intros H1 H2 (A1 & f & A2 & A3). split; [congruence |].
  exists f. split; [congruence | exact A3].
Qed.

(** [drawFrame] draws on the canvas as it is when it is called. *)
Lemma drawFrame_DrawsOn i w : DrawsOn [canvasRef w] w (drawFrame i w).
Proof.
  unfold drawFrame.
  destruct (canvasRef w) as [canvas |]; [| now apply DrawsOn_same].
  destruct (negb (imagesLoaded w) || (i <? 0)%Z
            || (Z.of_nat (List.length (loadedImagesRef w)) <=? i)%Z);
    [now apply DrawsOn_same |].
  destruct (negb (context2d (page w))); [now apply DrawsOn_same |].
  destruct (nth_error (loadedImagesRef w) (Z.to_nat i)) as [li |] eqn:E;
    [| now apply DrawsOn_same].
  destruct (negb (loaded li)) eqn:El; [now apply DrawsOn_same |].
  apply negb_false_iff in El.
  split; [destruct w; reflexivity |].
  exists [(canvas, li)]. split.
  - rewrite drawn_set_drawn. cbn. unfold drawOps. reflexivity.
  - constructor; [| constructor]. cbn. split; [now left |]. split; [| exact El].
    eapply nth_error_In. exact E.
Qed.

Lemma updateFrame_DrawsOn props p w :
  DrawsOn [canvasRef w] w (updateFrame props p w).
Proof.
  destruct (updateFrame_untouched props p w) as (_ & _ & _ & _ & Hl & _).
  destruct (frameChanged props p w) eqn:H.
  - apply (DrawsOn_fields _ w (drawFrame (frameIndex props p) w)).
    + rewrite Hl. destruct (drawFrame_DrawsOn (frameIndex props p) w) as [E _].
      now rewrite E.
    + apply updateFrame_drawn, H.
    + apply drawFrame_DrawsOn.
  - rewrite (updateFrame_unchanged props p w H). now apply DrawsOn_same.
Qed.

Lemma runAnimationFrame_DrawsOn props w :
  DrawsOn [canvasRef w] w (runAnimationFrame props w).
Proof.
  unfold runAnimationFrame.
  eapply DrawsOn_trans;
    [apply (DrawsOn_same _ w (set_rafQueue [] w)); destruct w; reflexivity |].
  assert (Hc : canvasRef (set_rafQueue [] w) = canvasRef w) by (destruct w; reflexivity).
  revert Hc. generalize (set_rafQueue [] w). generalize (rafQueue w).
  intros q. induction q as [| cb q IH]; intros w0 Hc; cbn [fold_left];
    [now apply DrawsOn_same |].
  eapply DrawsOn_trans; [| apply IH].
  - unfold animationCallback. rewrite <- Hc.
    apply (DrawsOn_fields _ w0 (updateFrame props (snd cb) w0));
      [destruct (updateFrame props (snd cb) w0); reflexivity ..
      | apply updateFrame_DrawsOn].
  - unfold animationCallback.
    destruct (updateFrame_SameSizes props (snd cb) w0) as (E & _).
    rewrite <- Hc, <- E. destruct (updateFrame props (snd cb) w0); reflexivity.
Qed.

(** [resizeCanvas] draws on the canvas it has just sized. *)
Lemma resizeCanvas_DrawsOn w :
  DrawsOn [canvasRef (resizeCanvas w)] w (resizeCanvas w).
Proof.
  unfold resizeCanvas.
  destruct (canvasRef w) as [c |] eqn:Ec; [| now apply DrawsOn_same].
  destruct (parentRect (page w)) as [r |]; [| now apply DrawsOn_same].
  set (w1 := set_canvasRef (Some (Canvas.resized r)) w).
  assert (E : imagesLoaded w1 = imagesLoaded w /\ currentFrame w1 = currentFrame w
              /\ loadedImagesRef w1 = loadedImagesRef w /\ drawn w1 = drawn w)
    by (destruct w; repeat split; reflexivity).
  destruct E as (E1 & E2 & E3 & E4). rewrite E1, E2.
  destruct (imagesLoaded w); [| now apply DrawsOn_same].
  destruct (drawFrame_SameSizes (currentFrame w) w1) as (V & _). rewrite V.
  eapply DrawsOn_trans; [apply (DrawsOn_same _ w w1); assumption |].
  apply drawFrame_DrawsOn.
Qed.

(** Re-rendering draws, if at all, on the canvas it leaves. *)
Lemma commit_DrawsOn before after :
  DrawsOn [canvasRef (commit before after)] after (commit before after).
Proof.
  unfold commit, resizeEffect.
  assert (Hd : forall w, DrawsOn [canvasRef (scrollEffect (scrollEffectCleanup w))]
                                 w (scrollEffect (scrollEffectCleanup w))).
  { intros w. apply DrawsOn_same.
    - destruct (scrollEffectCleanup_SameSizes w) as (_ & _ & _ & A).
      destruct (scrollEffect_SameSizes (scrollEffectCleanup w)) as (_ & _ & _ & B).
      congruence.
    - destruct (scrollEffectCleanup_Draws w) as (_ & f1 & A & _).
      destruct (scrollEffectCleanup_SameView w) as (_ & _ & _ & A' & _).
      destruct (scrollEffect_SameView (scrollEffectCleanup w)) as (_ & _ & _ & B' & _).
      congruence. }
  cbv zeta.
  generalize (negb (Bool.eqb (imagesLoaded before) (imagesLoaded after))
              || negb (Bool.eqb (showDescription before) (showDescription after))).
  generalize (negb (Bool.eqb (imagesLoaded before) (imagesLoaded after))
              || negb (currentFrame before =? currentFrame after)%Z).
  intros rd sd. destruct sd, rd.
  - eapply DrawsOn_trans; [| apply resizeCanvas_DrawsOn].
    destruct (Hd after) as (A & f & B & _).
    apply DrawsOn_same; [exact A |].
    destruct (scrollEffectCleanup_SameView after) as (_ & _ & _ & A' & _).
    destruct (scrollEffect_SameView (scrollEffectCleanup after)) as (_ & _ & _ & B' & _).
    congruence.
  - apply Hd.
  - apply resizeCanvas_DrawsOn.
  - now apply DrawsOn_same.
Qed.

Lemma step_Resize props pg w :
  step props w (Resize pg) = resizeCanvas (set_page pg w).
Proof.
  unfold step. cbn [handle].
  destruct (resizeCanvas_state (set_page pg w)) as (H1 & H2 & H3).
  apply commit_same.
  - rewrite H1. destruct w; reflexivity.
  - rewrite H2. destruct w; reflexivity.
  - rewrite H3. destruct w; reflexivity.
Qed.

(** One event: the frames it adds are drawn on the canvas as it was before
    the event or as it is after it. *)
Lemma step_DrawsOn props w e :
  exists frames : list (Canvas.t * LoadedImage),
    drawn (step props w e)
    = drawn w ++ flat_map (fun f => drawOps (fst f) (snd f)) frames
    /\ Forall (fun f => (canvasRef w = Some (fst f)
                         \/ canvasRef (step props w e) = Some (fst f))
                        /\ In (snd f) (loadedImagesRef (step props w e))
                        /\ loaded (snd f) = true)
              frames.
Proof.
  assert (Hc : forall (x : option Canvas.t) (c : Canvas.t), In (Some c) [x] -> x = Some c).
  { intros x c [E | []]. exact E. }
  assert (Hcommit : forall after,
             drawn after = drawn w ->
             exists frames : list (Canvas.t * LoadedImage),
               drawn (commit w after)
               = drawn w ++ flat_map (fun f => drawOps (fst f) (snd f)) frames
               /\ Forall (fun f => (canvasRef w = Some (fst f)
                                    \/ canvasRef (commit w after) = Some (fst f))
                                   /\ In (snd f) (loadedImagesRef (commit w after))
                                   /\ loaded (snd f) = true)
                         frames).
  { intros after Hd. destruct (commit_DrawsOn w after) as (A1 & f & A2 & A3).
    exists f. split; [congruence |].
    eapply Forall_impl; [| exact A3]. cbn. intros a (H1 & H2 & H3).
    rewrite A1. auto. }
  destruct e.
  - apply Hcommit. apply onload_drawn.
  - apply Hcommit. apply onerror_drawn.
  - apply Hcommit. cbn [handle].
    destruct (handleScroll_state (set_page pg w)) as (_ & _ & _ & -> & _).
    destruct w; reflexivity.
  - unfold step. cbn [handle].
    destruct (runAnimationFrame_DrawsOn props w) as (A1 & f1 & A2 & A3).
    destruct (commit_DrawsOn w (runAnimationFrame props w)) as (B1 & f2 & B2 & B3).
    exists (f1 ++ f2). split.
    + rewrite B2, A2, flat_map_app, app_assoc. reflexivity.
    + apply Forall_app. split.
      * eapply Forall_impl; [| exact A3]. cbn. intros a (H1 & H2 & H3).
        rewrite B1, A1. auto.
      * eapply Forall_impl; [| exact B3]. cbn. intros a (H1 & H2 & H3).
        rewrite B1. auto.
  - rewrite step_Resize.
    destruct (resizeCanvas_DrawsOn (set_page pg w)) as (A1 & f & A2 & A3).
    exists f. split.
    + rewrite A2. destruct w; reflexivity.
    + eapply Forall_impl; [| exact A3]. cbn. intros a (H1 & H2 & H3).
      rewrite A1. auto.
  - apply Hcommit. destruct w; reflexivity.
  - apply Hcommit. cbn [handle].
    destruct (runTimeout_SameView id w) as (_ & _ & _ & E & _). exact E.
Qed.

(** ** What reaches the canvas, and on which canvas *)

(** Every published image carries the source of an entry of [images]. *)
Lemma published_sources props w li :
  PublishedInv props w -> In li (loadedImagesRef w) ->
  In (Image.src (image li)) (images props).
Proof.
  intros [Hall Hinv] Hin.
  destruct (preload w);
    try (destruct Hinv as (_ & Hr & _); rewrite Hr in Hin; destruct Hin).
  destruct Hinv as (_ & Ea).
  pose proof (allResolved_Forall2 _ _ _ Hall Ea) as H2.
  apply In_nth_error in Hin as (i & Hi).
  destruct (Forall2_nth_error _ _ _ i li H2 Hi) as (src & Hs & _ & Hsrc).
  rewrite Hsrc. eapply nth_error_In. exact Hs.
Qed.

Lemma mount_draws_nothing props pg : drawn (mount props pg) = [].
Proof.
  destruct (mount_before_commit props pg) as (c & Hw0 & _).
  unfold mount. rewrite Hw0.
  set (base := set_canvasRef (Some c) (preloadImages props (initialWorld pg))).
  assert (E : drawn (promiseAll props base) = []
              /\ loadedImagesRef (promiseAll props base) = []).
  { unfold promiseAll, base. cbn.
    destruct (images props) as [| src srcs]; cbn; split; reflexivity. }
  revert E. generalize (promiseAll props base). intros w1 (E3 & E4).
  destruct (commit_Draws base w1) as (_ & frames & D1 & D2).
  destruct frames as [| f frames].
  - rewrite D1, E3. reflexivity.
  - exfalso. inversion D2 as [| ? ? [Hin _] _]; subst.
    rewrite E4 in Hin. destruct Hin.
Qed.

(** X11. Mounting draws nothing, and every event of every run adds to what
    the component has issued to the 2D context only whole frames: a
    [clearRect] of the full canvas, at the size the canvas has before the
    event or after it, followed by one [drawImage], in the cover-fit
    rectangle for that size, of an image that the preload published and
    marked loaded and whose source is one of [images].  The layouts give the
    parent of the canvas at least one pixel each way and the images have
    positive sizes, and so have the canvas and the image of every frame.
    With no image nothing is ever drawn. *)
Theorem canvas_draws_only_published_frames
    (props : Props) (pg : Page) (es : list Event) (e : Event) :
  sizedPage pg = true ->
  forallb sizedEvent es = true ->
  sizedEvent e = true ->
  let w := run props es (mount props pg) in
  let w' := step props w e in
  drawn (mount props pg) = []
  /\ (exists frames : list (Canvas.t * LoadedImage),
        drawn w' = drawn w ++ flat_map (fun f => drawOps (fst f) (snd f)) frames
        /\ Forall (fun f => (canvasRef w = Some (fst f) \/ canvasRef w' = Some (fst f))
                            /\ positiveCanvas (fst f)
                            /\ In (snd f) (loadedImagesRef w')
                            /\ loaded (snd f) = true
                            /\ positiveImage (snd f)
                            /\ In (Image.src (image (snd f))) (images props))
                  frames)
  /\ (images props = [] -> drawn w' = []).
Proof.
  intros Hpg Hes He. cbv zeta.
  pose proof (run_Sized props es _ Hes (mount_Sized props pg Hpg)) as Hs.
  pose proof (step_Sized props _ e He Hs) as Hs'.
  pose proof (run_PublishedInv props (es ++ [e]) _ (mount_PublishedInv props pg)) as Hp.
  pose proof (run_CanvasLog props (es ++ [e]) _ (mount_PreloadInv props pg)
                (mount_CanvasLog props pg)) as (all & Hall & Hin).
  rewrite run_app, run_cons in Hp, Hall, Hin.
  change (run props [] ?x) with x in Hp, Hall, Hin.
  split; [apply mount_draws_nothing |]. split.
  - destruct (step_DrawsOn props (run props es (mount props pg)) e) as (frames & Hd & Hf).
    exists frames. split; [exact Hd |].
    eapply Forall_impl; [| exact Hf]. cbn. intros f (Hc & Hl & Hld).
    destruct Hs as (S1 & _). destruct Hs' as (S1' & _ & _ & S4').
    split; [exact Hc |].
    split; [destruct Hc as [Hc | Hc]; [now apply S1 | now apply S1'] |].
    split; [exact Hl |]. split; [exact Hld |].
    split; [rewrite Forall_forall in S4'; now apply S4' |].
    now apply (published_sources props _ _ Hp).
  - intros Hempty. rewrite Hall.
    destruct all as [| f all]; [reflexivity |].
    exfalso. inversion Hin as [| ? ? [Hi _] _]; subst.
    apply (published_sources props _ _ Hp) in Hi. rewrite Hempty in Hi. destruct Hi.
Qed.

Lemma canvas_draws_only_published_frames_witness :
  exists frames : list (Canvas.t * LoadedImage),
    drawn (step homeProps
             (run homeProps (loadAll ++ [AnimationFrame; Scroll (viewport (-1750))])
                  (mount homeProps (viewport 0)))
             AnimationFrame)
    = drawn (run homeProps (loadAll ++ [AnimationFrame; Scroll (viewport (-1750))])
                 (mount homeProps (viewport 0)))
      ++ flat_map (fun f => drawOps (fst f) (snd f)) frames
    /\ Forall (fun f => positiveCanvas (fst f) /\ positiveImage (snd f)) frames.
Proof.
  destruct (canvas_draws_only_published_frames homeProps (viewport 0)
              (loadAll ++ [AnimationFrame; Scroll (viewport (-1750))]) AnimationFrame)
    as (_ & (frames & Hd & Hf) & _); [reflexivity | reflexivity | reflexivity |].
  exists frames. split; [exact Hd |].
  clear Hd. revert Hf.
  generalize (run homeProps (loadAll ++ [AnimationFrame; Scroll (viewport (-1750))])
                  (mount homeProps (viewport 0))).
  intros w Hf.
  eapply Forall_impl; [| exact Hf]. cbn beta. intros f (_ & Hc & _ & _ & Hi & _).
  split; assumption.
Defined.

(** X12. A resize, once the images are loaded, first gives the canvas the
    size of its parent in whole pixels (the fractional part of the rendered
    size is dropped) and then redraws the frame being shown, fitted to the
    new size so that it covers the canvas and keeps its aspect ratio, the
    frame index being left as it was.  The parent is at least one pixel
    wide and high and the image has a positive size. *)
Theorem resize_redraws_current_frame
    (w : World) (pg : Page) (c : Canvas.t) (r : DOMRect.t) (li : LoadedImage) :
  canvasRef w = Some c ->
  parentRect pg = Some r ->
  context2d pg = true ->
  imagesLoaded w = true ->
  (0 <= currentFrame w)%Z ->
  nth_error (loadedImagesRef w) (Z.to_nat (currentFrame w)) = Some li ->
  loaded li = true ->
  wholePixels (DOMRect.width r) = true ->
  wholePixels (DOMRect.height r) = true ->
  positiveImage li ->
  let canvas' := Canvas.resized r in
  let rect := coverFit canvas' (image li) in
  canvasRef (resizeCanvas (set_page pg w)) = Some canvas'
  /\ (DOMRect.width r < 2147483648 ->
      Canvas.width canvas' = inject_Z (Qfloor (DOMRect.width r)))
  /\ (DOMRect.height r < 2147483648 ->
      Canvas.height canvas' = inject_Z (Qfloor (DOMRect.height r)))
  /\ drawn (resizeCanvas (set_page pg w)) = drawn w ++ drawOps canvas' li
  /\ Canvas.width canvas' <= drawWidth rect
  /\ Canvas.height canvas' <= drawHeight rect
  /\ drawWidth rect / drawHeight rect == Image.width (image li) / Image.height (image li)
  /\ currentFrame (resizeCanvas (set_page pg w)) = currentFrame w
  /\ lastFrameRef (resizeCanvas (set_page pg w)) = lastFrameRef w.
Proof.
  intros Hc Hr Hctx Hl H0 Hnth Hli Hw Hh [Hiw Hih]. cbv zeta.
  destruct (resized_positive r Hw Hh) as [Hcw Hch].
  pose proof (coverFit_spec (Canvas.resized r) (image li) Hcw Hch Hiw Hih) as Hfit.
  cbv zeta in Hfit. destruct Hfit as (_ & _ & F3 & F4 & F5 & _).
  apply wholePixels_bounds in Hw as [Hw1 _]. apply wholePixels_bounds in Hh as [Hh1 _].
  unfold resizeCanvas.
  replace (canvasRef (set_page pg w)) with (Some c) by (destruct w; cbn in *; congruence).
  replace (parentRect (page (set_page pg w))) with (Some r)
    by (destruct w; cbn in *; congruence).
  set (canvas' := Canvas.resized r) in *.
  set (w1 := set_canvasRef (Some canvas') (set_page pg w)).
  assert (E1 : imagesLoaded w1 = true) by (destruct w; exact Hl).
  assert (E2 : currentFrame w1 = currentFrame w) by (destruct w; reflexivity).
  rewrite E1, E2. rewrite <- (Z2Nat.id (currentFrame w)) by exact H0.
  rewrite (drawFrame_draws w1 (Z.to_nat (currentFrame w)) canvas' li);
    try (destruct w; cbn in *; congruence).
  rewrite Z2Nat.id by exact H0.
  split; [destruct w; reflexivity |].
  split; [intros Hlt; apply reflect_floor; lra |].
  split; [intros Hlt; apply reflect_floor; lra |].
  split; [destruct w; reflexivity |].
  split; [exact F4 |]. split; [exact F5 |]. split; [exact F3 |].
  destruct w; split; reflexivity.
Qed.

Lemma resize_redraws_current_frame_witness :
  canvasRef (resizeCanvas (set_page fractionalPage pendingWorld))
  = Some {| Canvas.width := 1000; Canvas.height := 500 |}
  /\ drawn (resizeCanvas (set_page fractionalPage pendingWorld))
     = drawn pendingWorld
       ++ drawOps {| Canvas.width := 1000; Canvas.height := 500 |}
            {| image := {| Image.src := "/images/30.jpg"; Image.width := 400;
                           Image.height := 400 |};
               loaded := true |}.
Proof.
  destruct (resize_redraws_current_frame pendingWorld fractionalPage
              {| Canvas.width := 1000; Canvas.height := 500 |}
              {| DOMRect.top := 0; DOMRect.width := 2001 # 2; DOMRect.height := 2001 # 4 |}
              {| image := {| Image.src := "/images/30.jpg"; Image.width := 400;
                             Image.height := 400 |};
                 loaded := true |})
    as (H1 & _ & _ & H2 & _); try reflexivity.
  - vm_compute. discriminate.
  - split; reflexivity.
  - split; assumption.
Defined.

(** X17. As long as the canvas gives a 2D context, the layouts give its
    parent at least one pixel each way and the images have positive sizes,
    the canvas always shows the current frame: at every point of every run,
    if anything has been drawn at all, the last operations are the
    [clearRect] and [drawImage] of the image published at index
    [currentFrame], whose source is [images[currentFrame]], fitted to the
    size the canvas has at that point, which it covers. *)
Theorem canvas_shows_current_frame
    (props : Props) (pg : Page) (es : list Event) :
  context2d pg = true ->
  forallb pageHasContext es = true ->
  sizedPage pg = true ->
  forallb sizedEvent es = true ->
  let w := run props es (mount props pg) in
  drawn w = []
  \/ exists canvas li pre,
       canvasRef w = Some canvas
       /\ nth_error (loadedImagesRef w) (Z.to_nat (currentFrame w)) = Some li
       /\ nth_error (images props) (Z.to_nat (currentFrame w)) = Some (Image.src (image li))
       /\ drawn w = pre ++ drawOps canvas li
       /\ positiveCanvas canvas
       /\ positiveImage li
       /\ Canvas.width canvas <= drawWidth (coverFit canvas (image li))
       /\ Canvas.height canvas <= drawHeight (coverFit canvas (image li)).
Proof.
  intros Hctx Hes Hpg Hsz. cbv zeta.
  destruct (run_Shows props es _ (mount_Invariants props pg) (mount_Shows props pg Hctx) Hes)
    as [Hinv (_ & _ & Hs)].
  destruct (run_Sized props es _ Hsz (mount_Sized props pg Hpg)) as (S1 & _ & _ & S4).
  destruct Hs as [Hs | (canvas & li & pre & Hc & Hnth & Hd)]; [left; exact Hs | right].
  exists canvas, li, pre.
  assert (Hpc : positiveCanvas canvas) by now apply S1.
  assert (Hpi : positiveImage li).
  { rewrite Forall_forall in S4. apply S4. eapply nth_error_In. exact Hnth. }
  split; [exact Hc |]. split; [exact Hnth |]. split.
  - destruct Hinv as (_ & _ & [Hall Hpub] & _).
    destruct (preload _);
      try (destruct Hpub as (_ & Hr & _); rewrite Hr in Hnth;
           destruct (Z.to_nat (currentFrame _)); discriminate).
    destruct Hpub as (_ & Ea).
    pose proof (allResolved_Forall2 _ _ _ Hall Ea) as H2.
    destruct (Forall2_nth_error _ _ _ _ li H2 Hnth) as (src & Hsrc & _ & Esrc).
    congruence.
  - split; [exact Hd |]. split; [exact Hpc |]. split; [exact Hpi |].
    destruct Hpc as [Hcw Hch]. destruct Hpi as [Hiw Hih].
    pose proof (coverFit_spec canvas (image li) Hcw Hch Hiw Hih) as Hfit.
    cbv zeta in Hfit. destruct Hfit as (_ & _ & _ & F4 & F5 & _). split; assumption.
Qed.

Lemma canvas_shows_current_frame_witness :
  exists pre,
    drawn (run homeProps (bottomTrace ++ [Resize fractionalPage])
               (mount homeProps (viewport 0)))
    = pre ++ drawOps {| Canvas.width := 1000; Canvas.height := 500 |}
               {| image := {| Image.src := "/images/30.jpg"; Image.width := 400;
                              Image.height := 400 |};
                  loaded := true |}.
Proof.
  destruct (canvas_shows_current_frame homeProps (viewport 0)
              (bottomTrace ++ [Resize fractionalPage]))
    as [Hnil | (canvas & li & pre & Hc & Hnth & _ & Hd & _)];
    try reflexivity.
  - exfalso. vm_compute in Hnil. discriminate.
  - exists pre. rewrite Hd.
    replace canvas with {| Canvas.width := 1000; Canvas.height := 500 |}
      by (vm_compute in Hc; congruence).
    replace li with {| image := {| Image.src := "/images/30.jpg"; Image.width := 400;
                                   Image.height := 400 |};
                       loaded := true |}
      by (vm_compute in Hnth; congruence).
    reflexivity.
Defined.

(** ** The claims, seen from the events *)

(** What mounting leaves of the canvas: it has been sized and nothing has
    been drawn on it. *)
Lemma mount_canvas props pg r :
  parentRect pg = Some r ->
  drawn (mount props pg) = []
  /\ canvasRef (mount props pg) = Some (Canvas.resized r)
  /\ (images props <> [] -> imagesLoaded (mount props pg) = false).
Proof.
  intros Hr.
  destruct (mount_before_commit props pg) as (c & Hw0 & Hsize).
  specialize (Hsize r Hr).
  unfold mount. rewrite Hw0.
  set (base := set_canvasRef (Some c) (preloadImages props (initialWorld pg))).
  assert (E : canvasRef (promiseAll props base) = Some c
              /\ page (promiseAll props base) = pg
              /\ drawn (promiseAll props base) = []
              /\ loadedImagesRef (promiseAll props base) = []
              /\ (images props <> [] -> promiseAll props base = base)).
  { unfold promiseAll, base. cbn.
    destruct (images props) as [| src srcs]; cbn; repeat split; try reflexivity.
    intros Hne. congruence. }
  revert E. generalize (promiseAll props base). intros w1 (E1 & E2 & E3 & E4 & E5).
  split; [| split].
  - destruct (commit_Draws base w1) as (_ & frames & D1 & D2).
    destruct frames as [| f frames].
    + rewrite D1, E3. reflexivity.
    + exfalso. inversion D2 as [| ? ? [Hin _] _]; subst.
      rewrite E4 in Hin. destruct Hin.
  - apply (commit_canvas_size base w1 c r); congruence.
  - intros Hne. rewrite (E5 Hne).
    rewrite (commit_same base base) by reflexivity. reflexivity.
Qed.

(** C4, as amended. While the loaded flag is down a scroll event is not
    processed (only the layout it brings is recorded) and no event leads to
    a canvas operation as long as the flag stays down; the canvas is sized
    all the same, to the size of its parent in whole pixels, when the
    component mounts and on every resize, without anything being drawn. *)
Theorem loaded_flag_gates_scroll_and_draw (props : Props) (w : World) :
  imagesLoaded w = false ->
  (forall pg, step props w (Scroll pg) = set_page pg w)
  /\ (forall e, imagesLoaded (step props w e) = false ->
                drawn (step props w e) = drawn w)
  /\ (forall pg c r,
        canvasRef w = Some c ->
        parentRect pg = Some r ->
        imagesLoaded (step props w (Resize pg)) = false
        /\ drawn (step props w (Resize pg)) = drawn w
        /\ canvasRef (step props w (Resize pg)) = Some (Canvas.resized r))
  /\ (forall pg r,
        parentRect pg = Some r ->
        drawn (mount props pg) = []
        /\ canvasRef (mount props pg) = Some (Canvas.resized r)
        /\ (images props <> [] -> imagesLoaded (mount props pg) = false)).
Proof.
  intros Hl.
  assert (Hdraw : forall e, imagesLoaded (step props w e) = false ->
                            drawn (step props w e) = drawn w).
  { intros e He. unfold step in *.
    destruct (commit_Quiet w (handle props e w)) as (H1 & _ & _ & _ & H5).
    rewrite H5 by congruence. now apply handle_drawn. }
  split; [| split; [exact Hdraw | split]].
  - intros pg. rewrite step_Scroll. unfold handleScroll.
    destruct w; cbn in *; subst. cbn. destruct (containerRect pg); reflexivity.
  - intros pg c r Hc Hr.
    assert (Hsame : step props w (Resize pg) = resizeCanvas (set_page pg w)).
    { unfold step. cbn [handle].
      destruct (resizeCanvas_state (set_page pg w)) as (H1 & H2 & H3).
      apply commit_same.
      - rewrite H1. destruct w; reflexivity.
      - rewrite H2. destruct w; reflexivity.
      - rewrite H3. destruct w; reflexivity. }
    assert (Hdown : imagesLoaded (step props w (Resize pg)) = false).
    { rewrite Hsame. destruct (resizeCanvas_state (set_page pg w)) as (H1 & _).
      rewrite H1. destruct w; exact Hl. }
    split; [exact Hdown |]. split; [exact (Hdraw _ Hdown) |].
    rewrite Hsame. apply (resizeCanvas_sizes (set_page pg w) c r).
    + destruct w; exact Hc.
    + destruct w; exact Hr.
  - intros pg r Hr. now apply mount_canvas.
Qed.

Lemma loaded_flag_gates_scroll_and_draw_witness :
  step homeProps (mount homeProps (viewport 0)) (Scroll (viewport (-3500)))
  = set_page (viewport (-3500)) (mount homeProps (viewport 0))
  /\ drawn (step homeProps (mount homeProps (viewport 0)) (ImageLoad 0 400 400))
     = drawn (mount homeProps (viewport 0))
  /\ canvasRef (mount homeProps (viewport 0))
     = Some (Canvas.resized {| DOMRect.top := 0; DOMRect.width := 1000;
                               DOMRect.height := 500 |}).
Proof.
  destruct (loaded_flag_gates_scroll_and_draw homeProps (mount homeProps (viewport 0)))
    as (Hscroll & Hdraw & _ & Hmount).
  - reflexivity.
  - split; [apply Hscroll |]. split; [apply Hdraw; reflexivity |].
    apply (Hmount (viewport 0)). reflexivity.
Defined.

(** *** Scroll bursts *)




(** *** Redraw gating *)

(** C9, counterexample. [readyWorld] shows frame 0.  A scroll to the middle
    of the container and the animation frame that follows select frame 15
    and issue two [drawImage] calls: one by [updateFrame] and one by the
    resize effect, which runs again because [currentFrame] has changed.  A
    second scroll that selects frame 15 again and its animation frame issue
    none.  The same frame processed twice in a row has cost two draw calls,
    not one. *)
Lemma same_frame_twice_draws_twice :
  frameIndex homeProps
    (scrollProgress {| DOMRect.top := -1750; DOMRect.width := 1000;
                       DOMRect.height := 4000 |} 500) = 15%Z
  /\ frameIndex homeProps
       (scrollProgress {| DOMRect.top := -1751; DOMRect.width := 1000;
                          DOMRect.height := 4000 |} 500) = 15%Z
  /\ lastFrameRef readyWorld = 0%Z
  /\ lastFrameRef (run homeProps [Scroll (viewport (-1750)); AnimationFrame] readyWorld)
     = 15%Z
  /\ drawCalls
       (drawn (run homeProps [Scroll (viewport (-1750)); AnimationFrame] readyWorld))
     = (drawCalls (drawn readyWorld) + 2)%nat
  /\ drawCalls
       (drawn (run homeProps
                 [Scroll (viewport (-1750)); AnimationFrame;
                  Scroll (viewport (-1751)); AnimationFrame] readyWorld))
     = (drawCalls (drawn readyWorld) + 2)%nat
  /\ drawCalls
       (drawn (run homeProps
                 [Scroll (viewport (-1750)); AnimationFrame;
                  Scroll (viewport (-1751)); AnimationFrame] readyWorld))
     <> (drawCalls (drawn readyWorld) + 1)%nat.
Proof.
  repeat split; try reflexivity. vm_compute. discriminate.
Qed.

Lemma Ready_fields props w w' :
  canvasRef w' <> None ->
  context2d (page w') = context2d (page w) ->
  imagesLoaded w' = imagesLoaded w ->
  loadedImagesRef w' = loadedImagesRef w ->
  Ready props w -> Ready props w'.
Proof.
  intros Hc E1 E2 E3 (_ & R2 & R3 & R4 & R5).
  unfold Ready. rewrite E1, E2, E3. auto.
Qed.

(** In a ready world whose canvas has a parent, [resizeCanvas] issues exactly
    one [drawImage] for a valid current frame. *)
Lemma resizeCanvas_redraws props w :
  Ready props w ->
  parentRect (page w) <> None ->
  (0 <= currentFrame w < images_length props)%Z ->
  drawCalls (drawn (resizeCanvas w)) = S (drawCalls (drawn w)).
Proof.
  intros Hr Hp Hf. unfold resizeCanvas.
  destruct Hr as (Hc & Hr).
  destruct (canvasRef w) as [c |] eqn:Ec; [| congruence].
  destruct (parentRect (page w)) as [r |] eqn:Er; [| congruence].
  set (w1 := set_canvasRef (Some (Canvas.resized r)) w).
  assert (E : imagesLoaded w1 = imagesLoaded w /\ currentFrame w1 = currentFrame w
              /\ drawn w1 = drawn w /\ page w1 = page w
              /\ loadedImagesRef w1 = loadedImagesRef w
              /\ canvasRef w1 = Some (Canvas.resized r))
    by (destruct w; repeat split; reflexivity).
  destruct E as (E1 & E2 & E3 & E4 & E5 & E6).
  assert (Hr1 : Ready props w1).
  { apply (Ready_fields props w); try congruence.
    split; [congruence | exact Hr]. }
  destruct Hr as (_ & Hl & _). rewrite E1, Hl, E2.
  rewrite (drawFrame_ready props (currentFrame w) w1 Hr1 Hf), E3. reflexivity.
Qed.

(** C9, as amended. An animation frame that finds one callback pending, in
    a world that is ready to draw and whose canvas has a parent: when the
    frame index computed from the progress of the callback is the one drawn
    last, [updateFrame] does nothing and the whole step draws nothing and
    changes neither the frame nor the overlays nor the timers; when it
    differs, [updateFrame] issues one [drawImage] and records the frame,
    and the step as a whole issues two, the second by the resize effect,
    which runs again because [currentFrame] has changed (one only when the
    frame selected is the frame [currentFrame] already names, which is the
    first selection of frame 0). *)
Theorem frame_change_redraw_gating
    (props : Props) (w : World) (h : Z) (p : number) :
  Ready props w ->
  parentRect (page w) <> None ->
  rafQueue w = [(h, p)] ->
  let N := images_length props in
  let tick := step props w AnimationFrame in
  (frameIndex props p = lastFrameRef w ->
   updateFrame props p w = w
   /\ drawn tick = drawn w
   /\ lastFrameRef tick = lastFrameRef w
   /\ currentFrame tick = currentFrame w
   /\ showText tick = showText w
   /\ showDescription tick = showDescription w
   /\ timers tick = timers w
   /\ descriptionTimeout tick = descriptionTimeout w)
  /\ (frameIndex props p <> lastFrameRef w -> (1 <= N)%Z ->
      lastFrameRef tick = frameIndex props p
      /\ currentFrame tick = frameIndex props p
      /\ drawCalls (drawn (updateFrame props p w)) = S (drawCalls (drawn w))
      /\ drawCalls (drawn tick)
         = (drawCalls (drawn w)
            + (if (frameIndex props p =? currentFrame w)%Z then 1 else 2))%nat).
Proof.
  intros Hready Hparent Hq. cbv zeta.
  set (w0 := set_rafQueue [] w).
  assert (E0 : lastFrameRef w0 = lastFrameRef w /\ currentFrame w0 = currentFrame w
               /\ drawn w0 = drawn w /\ page w0 = page w
               /\ imagesLoaded w0 = imagesLoaded w
               /\ loadedImagesRef w0 = loadedImagesRef w
               /\ canvasRef w0 = canvasRef w
               /\ showDescription w0 = showDescription w)
    by (unfold w0; destruct w; repeat split; reflexivity).
  destruct E0 as (A1 & A2 & A3 & A4 & A5 & A6 & A7 & A8).
  assert (Htick : step props w AnimationFrame
                  = commit w (set_ticking false (updateFrame props p w0))).
  { unfold step. cbn [handle]. unfold runAnimationFrame. rewrite Hq. reflexivity. }
  assert (Hfc : frameChanged props p w0 = frameChanged props p w).
  { unfold frameChanged. now rewrite A1. }
  assert (Hready0 : Ready props w0).
  { apply (Ready_fields props w); try congruence.
    rewrite A7. apply Hready. }
  split.
  - intros Hsame.
    assert (E : frameChanged props p w = false).
    { unfold frameChanged. rewrite Hsame, Z.eqb_refl. reflexivity. }
    split; [now apply updateFrame_unchanged |].
    rewrite Htick, (updateFrame_unchanged props p w0) by congruence.
    rewrite commit_same by (unfold w0; destruct w; reflexivity).
    unfold w0. destruct w; cbn. repeat split; reflexivity.
  - intros Hne HN.
    pose proof (frameIndex_range props p HN) as Hrange.
    assert (E : frameChanged props p w = true).
    { apply frameChanged_true. split; [exact Hne | lia]. }
    assert (E' : frameChanged props p w0 = true) by congruence.
    destruct (updateFrame_lastFrameRef props p w0 E') as [L1 L2].
    pose proof (updateFrame_drawn props p w0 E') as D0.
    pose proof (drawFrame_ready props (frameIndex props p) w0 Hready0) as D1.
    rewrite <- D0, A3 in D1.
    destruct (updateFrame_untouched props p w0)
      as (U1 & _ & _ & _ & U5 & _ & U7 & _ & U9 & _).
    assert (Dw : drawCalls (drawn (updateFrame props p w)) = S (drawCalls (drawn w))).
    { rewrite (updateFrame_drawn props p w E).
      apply (drawFrame_ready props); [exact Hready | lia]. }
    rewrite Htick.
    revert L1 L2 D1 U1 U5 U7 U9.
    generalize (updateFrame props p w0). intros u L1 L2 D1 U1 U5 U7 U9.
    set (after := set_ticking false u).
    assert (B : lastFrameRef after = frameIndex props p
                /\ currentFrame after = frameIndex props p
                /\ drawn after = drawn u
                /\ imagesLoaded after = imagesLoaded w
                /\ loadedImagesRef after = loadedImagesRef w
                /\ canvasRef after = canvasRef w
                /\ page after = page w
                /\ showDescription after = showDescription u).
    { unfold after. destruct u; cbn in *. repeat split; congruence. }
    destruct B as (B1 & B2 & B3 & B4 & B5 & B6 & B7 & B8).
    destruct (commit_fields w after) as (F1 & F2 & _).
    rewrite F1, F2, B1, B2.
    split; [reflexivity |]. split; [reflexivity |]. split; [exact Dw |].
    specialize (D1 ltac:(lia)).
    unfold commit. rewrite B4, Bool.eqb_reflx, B2. cbn [negb orb].
    set (w1 := if negb (Bool.eqb (showDescription w) (showDescription after))
               then scrollEffect (scrollEffectCleanup after) else after).
    assert (V : SameView after w1 /\ page w1 = page after).
    { unfold w1. destruct (negb _).
      - split.
        + eapply SameView_trans;
            [apply scrollEffectCleanup_SameView | apply scrollEffect_SameView].
        + apply rerun_scrollEffect_fields.
      - split; [apply SameView_refl | reflexivity]. }
    destruct V as [(V1 & V2 & V3 & V4 & V5 & V6) V7].
    assert (Hw1 : (if negb (Bool.eqb (showDescription w) (showDescription after))
                   then scrollEffect
                          (if negb (Bool.eqb (showDescription w) (showDescription after))
                           then scrollEffectCleanup after else after)
                   else (if negb (Bool.eqb (showDescription w) (showDescription after))
                         then scrollEffectCleanup after else after)) = w1).
    { unfold w1. destruct (negb _); reflexivity. }
    rewrite Hw1.
    rewrite (Z.eqb_sym (currentFrame w)).
    destruct (frameIndex props p =? currentFrame w)%Z; cbn [negb].
    + rewrite V4, B3, D1. lia.
    + unfold resizeEffect.
      rewrite (resizeCanvas_redraws props w1).
      * rewrite V4, B3, D1. lia.
      * apply (Ready_fields props w); try congruence.
        rewrite V1, B6. apply Hready.
      * rewrite V7, B7. exact Hparent.
      * rewrite V2, B2. lia.
Qed.

Lemma frame_change_redraw_gating_witness :
  drawCalls (drawn (step homeProps scrolledWorld AnimationFrame))
  = (drawCalls (drawn scrolledWorld) + 2)%nat
  /\ lastFrameRef (step homeProps scrolledWorld AnimationFrame) = 15%Z.
Proof.
  destruct (frame_change_redraw_gating homeProps scrolledWorld 2
              (scrollProgress {| DOMRect.top := -1750; DOMRect.width := 1000;
                                 DOMRect.height := 4000 |} 500))
    as (_ & Hchanged).
  - unfold Ready. repeat split; try reflexivity; [discriminate |].
    vm_compute. repeat constructor.
  - discriminate.
  - reflexivity.
  - destruct Hchanged as (Hl & _ & _ & Hd).
    + vm_compute. discriminate.
    + vm_compute. discriminate.
    + split; [exact Hd | exact Hl].
Defined.

(** * The frame-copy script

    Facts about [scripts/copy-to-frames.js]: which files it copies, in which
    order, and under which names. *)


Import CopyToFrames.

Lemma length_append (a b : string) :
  String.length (a ++ b) = (String.length a + String.length b)%nat.
Proof. induction a as [|c a IH]; cbn; [reflexivity | now rewrite IH]. Qed.

Lemma append_inj_r (s a b : string) : (a ++ s = b ++ s)%string -> a = b.
Proof.
  revert b; induction a as [|c a IH]; intros [|d b] H; cbn in H.
  - reflexivity.
  - apply (f_equal String.length) in H; cbn in H; rewrite length_append in H; lia.
  - apply (f_equal String.length) in H; cbn in H; rewrite length_append in H; lia.
  - injection H as -> H; f_equal; now apply IH.
Qed.

Lemma string_of_uint_inj (d e : Decimal.uint) :
  NilEmpty.string_of_uint d = NilEmpty.string_of_uint e -> d = e.
Proof.
  intros H; pose proof (NilEmpty.usu d) as Hd; rewrite H, NilEmpty.usu in Hd.
  now injection Hd.
Qed.

Lemma frameName_inj (i j : nat) : frameName i = frameName j -> i = j.
Proof.
  unfold frameName; intros H; cbn in H.
  injection H as H.
  apply append_inj_r, string_of_uint_inj, DecimalNat.Unsigned.to_uint_inj in H; lia.
Qed.

(** *** Sorting *)

Lemma insert_perm key x l : Permutation (insert key x l) (x :: l).
Proof.
  induction l as [|y l IH]; cbn; [reflexivity |].
  destruct (key x <=? key y)%N; [reflexivity |].
  rewrite IH; apply perm_swap.
Qed.

Lemma sortByKey_perm key l : Permutation (sortByKey key l) l.
Proof.
  induction l as [|x l IH]; cbn; [reflexivity |].
  fold (sortByKey key l); rewrite insert_perm; now constructor.
Qed.

Lemma insert_sorted key x l :
  StronglySorted (fun a b => (key a <= key b)%N) l ->
  StronglySorted (fun a b => (key a <= key b)%N) (insert key x l).
Proof.
  induction 1 as [|y l Hs IH Hy]; cbn.
  - constructor; constructor.
  - destruct (N.leb_spec (key x) (key y)) as [Hle | Hlt].
    + constructor; [constructor; assumption |].
      constructor; [assumption |].
      eapply Forall_impl; [| exact Hy]; cbn; intros; lia.
    + constructor; [assumption |].
      eapply Permutation_Forall; [symmetry; apply insert_perm |].
      constructor; [lia | assumption].
Qed.

Lemma sortByKey_sorted key l :
  StronglySorted (fun a b => (key a <= key b)%N) (sortByKey key l).
Proof.
  induction l as [|x l IH]; cbn; [constructor |].
  now apply insert_sorted.
Qed.

Lemma insert_stable key x l k :
  filter (fun f => (key f =? k)%N) (insert key x l)
  = filter (fun f => (key f =? k)%N) (x :: l).
Proof.
  induction l as [|y l IH]; [reflexivity |].
  cbn [insert]; destruct (N.leb_spec (key x) (key y)) as [Hle | Hlt]; [reflexivity |].
  cbn [filter] in *; rewrite IH.
  destruct (N.eqb_spec (key x) k) as [Hx | Hx]; [| reflexivity].
  destruct (N.eqb_spec (key y) k) as [Hy | Hy]; [lia | reflexivity].
Qed.

Lemma sortByKey_stable key l k :
  filter (fun f => (key f =? k)%N) (sortByKey key l)
  = filter (fun f => (key f =? k)%N) l.
Proof.
  induction l as [|x l IH]; [reflexivity |].
  cbn [sortByKey fold_right]; fold (sortByKey key l).
  rewrite insert_stable; cbn [filter]; now rewrite IH.
Qed.

Lemma short_sorted (R : string -> string -> Prop) (l : list string) :
  (List.length l <= 1)%nat -> StronglySorted R l.
Proof.
  destruct l as [|x [|y l]]; cbn; intros H; try lia; repeat constructor.
Qed.

Lemma sortFiles_spec (l files : list string) :
  sortFiles l = Some files ->
  Permutation files l
  /\ StronglySorted (fun a b => (keyOf a <= keyOf b)%N) files
  /\ forall k, filter (fun f => (keyOf f =? k)%N) files
               = filter (fun f => (keyOf f =? k)%N) l.
Proof.
  unfold sortFiles.
  destruct (Nat.leb_spec (List.length l) 1) as [Hs | Hl].
  - intros [= <-]; split; [reflexivity |]; split; [now apply short_sorted | reflexivity].
  - destruct (forallb hasKey l); [| discriminate].
    intros [= <-]; split; [apply sortByKey_perm |].
    split; [apply sortByKey_sorted | apply sortByKey_stable].
Qed.

Lemma sortFiles_None (l : list string) :
  sortFiles l = None <->
  (2 <= List.length l)%nat /\ exists f, In f l /\ matchDigits f = None.
Proof.
  unfold sortFiles.
  destruct (Nat.leb_spec (List.length l) 1) as [Hs | Hl].
  - split; [discriminate | intros [H _]; lia].
  - destruct (forallb hasKey l) eqn:E.
    + split; [discriminate |].
      intros [_ (f & Hin & Hf)].
      rewrite forallb_forall in E; specialize (E f Hin).
      unfold hasKey, frameKey in E; rewrite Hf in E; discriminate.
    + split; [intros _ | reflexivity].
      split; [lia |].
      assert (H : ~ forall f, In f l -> hasKey f = true).
      { intros H; rewrite <- forallb_forall in H; congruence. }
      clear E Hl; induction l as [|x l IH].
      * exfalso; apply H; intros f [].
      * destruct (hasKey x) eqn:Ex.
        -- destruct IH as (f & Hin & Hf).
           ++ intros H'; apply H; intros f [<- | Hin]; auto.
           ++ exists f; split; [now right | assumption].
        -- exists x; split; [now left |].
           unfold hasKey, frameKey in Ex.
           destruct (matchDigits x); [discriminate | reflexivity].
Qed.

(** *** The loop *)

Lemma reported_forEach cf files i : reported (forEach cf files i) = files.
Proof.
  revert i; induction files as [|f files IH]; intros i; [reflexivity |].
  cbn [forEach]; unfold reported in *; cbn [flat_map].
  rewrite IH; now destruct (cf f (frameName i)).
Qed.

Lemma copies_forEach cf files i :
  copies (forEach cf files i)
  = filter (fun c => negb (cf (fst c) (snd c)))
           (combine files (map frameName (seq i (List.length files)))).
Proof.
  revert i; induction files as [|f files IH]; intros i; [reflexivity |].
  cbn [forEach List.length seq map combine filter fst snd]; unfold copies in *.
  cbn [flat_map]; rewrite IH.
  now destruct (cf f (frameName i)).
Qed.

Lemma copies_app a b : copies (a ++ b) = (copies a ++ copies b)%list.
Proof. unfold copies; apply flat_map_app. Qed.

Lemma reported_app a b : reported (a ++ b) = (reported a ++ reported b)%list.
Proof. unfold reported; apply flat_map_app. Qed.

Lemma script_lines entries cf lines :
  script entries cf = Some lines ->
  exists files, sortFiles (filter wanted entries) = Some files
                /\ reported lines = files
                /\ copies lines
                   = filter (fun c => negb (cf (fst c) (snd c)))
                            (combine files (map frameName (seq 0 (List.length files)))).
Proof.
  unfold script; destruct (sortFiles (filter wanted entries)) as [files|]; [| discriminate].
  intros [= <-]; exists files; split; [reflexivity |].
  change (Found ?n :: ?l) with ([Found n] ++ l)%list.
  rewrite !reported_app, !copies_app, reported_forEach, copies_forEach; cbn.
  now rewrite !app_nil_r.
Qed.

Lemma NoDup_filter {A} (p : A -> bool) (l : list A) : NoDup l -> NoDup (filter p l).
Proof.
  induction 1 as [|x l Hx Hl IH]; cbn; [constructor |].
  destruct (p x); [constructor; [| assumption] | assumption].
  rewrite filter_In; tauto.
Qed.

Lemma map_snd_filter_incl {A B} (p : A * B -> bool) (l : list (A * B)) :
  forall y, In y (map snd (filter p l)) -> In y (map snd l).
Proof.
  intros y; rewrite !in_map_iff; intros (c & <- & Hin).
  apply filter_In in Hin; exists c; tauto.
Qed.

Lemma NoDup_map_snd_filter {A B} (p : A * B -> bool) (l : list (A * B)) :
  NoDup (map snd l) -> NoDup (map snd (filter p l)).
Proof.
  induction l as [|c l IH]; cbn; [constructor |].
  intros H; inversion H as [|? ? Hc Hl]; subst.
  destruct (p c); cbn; [constructor |]; auto.
  intros Hin; apply Hc; eapply map_snd_filter_incl; eassumption.
Qed.

Lemma map_snd_combine {A B} (l : list A) (l' : list B) :
  List.length l = List.length l' -> map snd (combine l l') = l'.
Proof.
  revert l'; induction l as [|x l IH]; intros [|y l'] H; cbn in *; try lia; [reflexivity |].
  f_equal; apply IH; lia.
Qed.

Lemma NoDup_frameNames i n : NoDup (map frameName (seq i n)).
Proof.
  apply Finite.Injective_map_NoDup; [| apply seq_NoDup].
  intros a b; apply frameName_inj.
Qed.

(** *** Keys *)

Lemma isDigit_digit (d : Decimal.uint) :
  match NilEmpty.string_of_uint d with
  | EmptyString => d = Decimal.Nil
  | String c _ => isDigit c = true
  end.
Proof. destruct d; cbn; reflexivity. Qed.

Lemma takeDigits_decimal (d : Decimal.uint) (rest : string) :
  startsWithDigit rest = false ->
  takeDigits (NilEmpty.string_of_uint d ++ rest) = NilEmpty.string_of_uint d.
Proof.
  intros Hr; induction d; cbn; rewrite ?IHd; try reflexivity.
  destruct rest as [|c rest]; [reflexivity |]; cbn in *; now rewrite Hr.
Qed.

Lemma matchDigits_skip (p s : string) :
  noDigit p = true -> matchDigits (p ++ s) = matchDigits s.
Proof.
  induction p as [|c p IH]; cbn; [reflexivity |].
  intros H; apply andb_prop in H as [Hc Hp].
  apply negb_true_iff in Hc; rewrite Hc; auto.
Qed.

Lemma parseIntFrom_decimal (d : Decimal.uint) (acc : N) :
  parseIntFrom acc (NilEmpty.string_of_uint d)
  = N.of_nat (Nat.of_uint_acc d (N.to_nat acc)).
Proof.
  revert acc; induction d; intros acc; cbn [NilEmpty.string_of_uint parseIntFrom Nat.of_uint_acc];
    [now rewrite N2Nat.id | ..];
    rewrite IHd; f_equal; f_equal; rewrite Nat.tail_mul_spec; cbn; lia.
Qed.

Lemma parseIntFrom_numeral (n : nat) : parseIntFrom 0 (decimal n) = N.of_nat n.
Proof.
  unfold decimal; rewrite parseIntFrom_decimal.
  change (Nat.of_uint_acc (Nat.to_uint n) (N.to_nat 0)) with (Nat.of_uint (Nat.to_uint n)).
  now rewrite DecimalNat.Unsigned.of_to.
Qed.

Lemma parseInt_decimal (n : nat) : parseInt (decimal n) = toDouble (N.of_nat n).
Proof. unfold parseInt. now rewrite parseIntFrom_numeral. Qed.

(** An integer below 2^53 is read exactly. *)
Lemma toDouble_small (n : N) : (n < 2 ^ 53)%N -> toDouble n = n.
Proof.
  intros H. unfold toDouble.
  apply N.ltb_lt in H. now rewrite H.
Qed.

Lemma to_uint_not_nil (n : nat) : Nat.to_uint n <> Decimal.Nil.
Proof.
  intros H; pose proof (DecimalNat.Unsigned.of_to n) as Hn.
  rewrite H in Hn; cbn in Hn; subst n; discriminate.
Qed.

Lemma matchDigits_decimal (n : nat) (rest : string) :
  startsWithDigit rest = false ->
  matchDigits (decimal n ++ rest) = Some (decimal n).
Proof.
  intros Hr; unfold decimal.
  pose proof (takeDigits_decimal (Nat.to_uint n) rest Hr) as Ht.
  pose proof (isDigit_digit (Nat.to_uint n)) as Hd.
  destruct (NilEmpty.string_of_uint (Nat.to_uint n)) as [|c s] eqn:E.
  - exfalso; exact (to_uint_not_nil n Hd).
  - cbn in *; rewrite Hd in *; now injection Ht as ->.
Qed.


(** *** Rounding to a double *)

Section Rounding.
Local Open Scope N_scope.

Lemma toDouble_large n : 2 ^ 53 <= n -> toDouble n = N.min (rounded n) (2 ^ 1024).
Proof.
  intros H. unfold toDouble.
  replace (n <? 2 ^ 53) with false by (symmetry; apply N.ltb_ge; exact H).
  reflexivity.
Qed.

(** For [n] from 2^53 on: with [e = log2 n - 52], the rounded value is a
    multiple of [2^e] within [2^(e-1)] of [n], between [2^(log2 n)] and
    twice that. *)
Lemma rounded_spec n :
  2 ^ 53 <= n ->
  let e := N.log2 n - 52 in
  exists k,
    rounded n = k * 2 ^ e
    /\ 2 ^ 52 <= k <= 2 ^ 53
    /\ 2 * rounded n <= 2 * n + 2 ^ e
    /\ 2 * n <= 2 * rounded n + 2 ^ e.
Proof.
  intros H. cbv zeta.
  assert (Hpos : 0 < n) by (pose proof (N.pow_nonzero 2 53); lia).
  assert (Hl : 53 <= N.log2 n).
  { apply N.log2_le_pow2; assumption. }
  destruct (N.log2_spec n Hpos) as [Hlo Hhi].
  set (e := N.log2 n - 52) in *.
  assert (He : N.log2 n = e + 52) by (unfold e; lia).
  assert (He1 : 1 <= e) by (unfold e; lia).
  rewrite He in Hlo, Hhi.
  rewrite N.pow_succ_r', N.pow_add_r in Hhi. rewrite N.pow_add_r in Hlo.
  assert (P : 0 < 2 ^ e) by (apply N.neq_0_lt_0, N.pow_nonzero; lia).
  assert (Ph : 2 ^ e = 2 * 2 ^ (e - 1)).
  { rewrite <- N.pow_succ_r'. f_equal. lia. }
  unfold rounded. fold e.
  rewrite !N.shiftl_mul_pow2, N.shiftr_div_pow2, N.mul_1_l.
  pose proof (N.div_mod n (2 ^ e) ltac:(lia)) as Hdm.
  pose proof (N.mod_lt n (2 ^ e) ltac:(lia)) as Hm.
  set (q := n / 2 ^ e) in *. set (m := n mod 2 ^ e) in *.
  assert (Hr : n - q * 2 ^ e = m) by lia.
  rewrite Hr.
  assert (Hq : 2 ^ 52 <= q < 2 ^ 53).
  { split.
    - apply N.div_le_lower_bound; [lia |]. lia.
    - apply N.Div0.div_lt_upper_bound. lia. }
  set (h := 2 ^ (e - 1)) in *.
  destruct (N.ltb_spec m h) as [C1 | C1].
  - exists q. repeat split; try lia.
  - destruct (N.ltb_spec h m) as [C2 | C2].
    + exists (q + 1). repeat split; try lia.
    + destruct (N.even q).
      * exists q. repeat split; try lia.
      * exists (q + 1). repeat split; try lia.
Qed.

Lemma rounded_mono m n :
  2 ^ 53 <= m -> m <= n -> rounded m <= rounded n.
Proof.
  intros Hm Hmn.
  assert (Hn : 2 ^ 53 <= n) by lia.
  destruct (rounded_spec m Hm) as (k & Ek & Hk & A1 & A2).
  destruct (rounded_spec n Hn) as (l & El & Hl & B1 & B2).
  cbv zeta in *.
  assert (Hm0 : 0 < m) by (pose proof (N.pow_nonzero 2 53); lia).
  assert (Hn0 : 0 < n) by lia.
  assert (Hlm : 53 <= N.log2 m) by (apply N.log2_le_pow2; assumption).
  assert (Hln : 53 <= N.log2 n) by (apply N.log2_le_pow2; assumption).
  pose proof (N.log2_le_mono m n Hmn) as Hlog.
  set (em := N.log2 m - 52) in *. set (en := N.log2 n - 52) in *.
  destruct (N.eq_dec em en) as [E | NE].
  - rewrite E in *. rewrite Ek, El.
    assert (P : 0 < 2 ^ en) by (apply N.neq_0_lt_0, N.pow_nonzero; lia).
    destruct (N.le_gt_cases k l) as [Hkl | Hkl].
    + apply N.mul_le_mono_r. exact Hkl.
    + exfalso. rewrite Ek in A1, A2. rewrite El in B1, B2.
      assert (l + 1 <= k) by lia.
      assert ((l + 1) * 2 ^ en <= k * 2 ^ en) by (apply N.mul_le_mono_r; assumption).
      assert (2 * m = 2 * n) by nia.
      assert (m = n) by lia. subst m.
      lia.
  - assert (Hlt : em + 1 <= en) by (unfold em, en in *; lia).
    rewrite Ek, El.
    assert (k * 2 ^ em <= 2 ^ 53 * 2 ^ em) by (apply N.mul_le_mono_r; lia).
    assert (2 ^ 52 * 2 ^ en <= l * 2 ^ en) by (apply N.mul_le_mono_r; lia).
    assert (2 ^ (em + 1) <= 2 ^ en) by (apply N.pow_le_mono_r; lia).
    rewrite N.pow_add_r in *. change (2 ^ 53) with (2 ^ 52 * 2) in *.
    change (2 ^ 1) with 2 in *. nia.
Qed.

(** Reading is monotone: a larger integer never gives a smaller double. *)
Lemma toDouble_mono m n : m <= n -> toDouble m <= toDouble n.
Proof.
  intros Hmn.
  destruct (N.lt_ge_cases n (2 ^ 53)) as [Hn | Hn].
  - rewrite !toDouble_small by lia. exact Hmn.
  - rewrite (toDouble_large n Hn).
    destruct (N.lt_ge_cases m (2 ^ 53)) as [Hm | Hm].
    + rewrite (toDouble_small m Hm).
      destruct (rounded_spec n Hn) as (l & El & Hl & _). cbv zeta in El.
      assert (0 < n) by (pose proof (N.pow_nonzero 2 53); lia).
      assert (53 <= N.log2 n) by (apply N.log2_le_pow2; assumption).
      assert (2 ^ 1 <= 2 ^ (N.log2 n - 52)) by (apply N.pow_le_mono_r; lia).
      assert (2 ^ 52 * 2 ^ (N.log2 n - 52) <= l * 2 ^ (N.log2 n - 52))
        by (apply N.mul_le_mono_r; lia).
      apply N.min_glb.
      * rewrite El. change (2 ^ 53) with (2 ^ 52 * 2) in Hm.
        change (2 ^ 1) with 2 in *. nia.
      * assert (2 ^ 53 <= 2 ^ 1024) by (apply N.pow_le_mono_r; lia). lia.
    + rewrite (toDouble_large m Hm).
      apply N.min_le_compat_r. now apply rounded_mono.
Qed.

End Rounding.

Lemma keyOf_numberOf (file : string) : keyOf file = toDouble (numberOf file).
Proof.
  unfold keyOf, numberOf, frameKey, firstNumber, parseInt.
  destruct (matchDigits file); reflexivity.
Qed.

(** In a sorted list what comes first is below what comes later. *)
Lemma StronglySorted_before {A : Type} (R : A -> A -> Prop) pre a mid b post :
  StronglySorted R (pre ++ a :: mid ++ b :: post) -> R a b.
Proof.
  induction pre as [| x pre IH]; cbn; intros H; apply StronglySorted_inv in H as [Hs Hf].
  - rewrite Forall_forall in Hf. apply Hf. apply in_elt.
  - now apply IH.
Qed.

(** X20.  A run of the script that does not throw reports on every listed
    file whose name starts with "parallax test" and ends with ".jpg" exactly
    once, copied or not, and on no other file.  The reports come in
    non-decreasing order of the number [parseInt] reads, which is the
    double nearest to the first number in the name, and files that are read
    as the same double keep the order of the directory listing: so two
    files are reported against the order of the numbers in their names only
    if both numbers round to the same double, which numbers below 2^53
    never do. *)
Theorem script_reports_in_number_order (entries : list string)
    (copyFails : string -> string -> bool) (lines : list Line) :
  script entries copyFails = Some lines ->
  Permutation (reported lines) (filter wanted entries)
  /\ StronglySorted (fun a b => (keyOf a <= keyOf b)%N) (reported lines)
  /\ (forall k, filter (fun f => (keyOf f =? k)%N) (reported lines)
                = filter (fun f => (keyOf f =? k)%N) (filter wanted entries))
  /\ (forall file, keyOf file = toDouble (numberOf file)
                   /\ ((numberOf file < 2 ^ 53)%N -> keyOf file = numberOf file))
  /\ (forall pre a mid b post,
        reported lines = pre ++ a :: mid ++ b :: post ->
        (numberOf b < numberOf a)%N ->
        keyOf a = keyOf b /\ (2 ^ 53 <= numberOf a)%N).
Proof.
  intros H; apply script_lines in H as (files & Hs & -> & _).
  apply sortFiles_spec in Hs as (Hp & Hsorted & Hstable).
  split; [exact Hp |]. split; [exact Hsorted |]. split; [exact Hstable |].
  split.
  - intros file. split; [apply keyOf_numberOf |].
    intros Hlt. rewrite keyOf_numberOf. now apply toDouble_small.
  - intros pre a mid b post E Hlt. rewrite E in Hsorted.
    apply StronglySorted_before in Hsorted.
    assert (Hle : (keyOf b <= keyOf a)%N).
    { rewrite !keyOf_numberOf. apply toDouble_mono. lia. }
    split; [lia |].
    destruct (N.lt_ge_cases (numberOf a) (2 ^ 53)) as [Ha | Ha]; [| exact Ha].
    exfalso. rewrite !keyOf_numberOf in Hsorted.
    rewrite !toDouble_small in Hsorted by lia. lia.
Qed.

Lemma script_reports_in_number_order_witness :
  script bigListing (fun _ _ => false)
  = Some [Found 4; Copied "parallax test 7.jpg" "frame1.jpg";
          Copied "parallax test 9007199254740993.jpg" "frame2.jpg";
          Copied "parallax test 9007199254740992.jpg" "frame3.jpg";
          Copied "parallax test 9007199254740995.jpg" "frame4.jpg"; CopyComplete 4]
  /\ keyOf "parallax test 9007199254740993.jpg" = keyOf "parallax test 9007199254740992.jpg".
Proof.
  split; [reflexivity |].
  destruct (script_reports_in_number_order bigListing (fun _ _ => false)
              [Found 4; Copied "parallax test 7.jpg" "frame1.jpg";
               Copied "parallax test 9007199254740993.jpg" "frame2.jpg";
               Copied "parallax test 9007199254740992.jpg" "frame3.jpg";
               Copied "parallax test 9007199254740995.jpg" "frame4.jpg"; CopyComplete 4])
    as (_ & _ & _ & _ & Hout); [reflexivity |].
  apply (Hout ["parallax test 7.jpg"%string]
              "parallax test 9007199254740993.jpg"%string []
              "parallax test 9007199254740992.jpg"%string
              ["parallax test 9007199254740995.jpg"%string]); reflexivity.
Defined.

(** X21.  The file reported at position [i] (from 0) is copied to
    "frame[i + 1].jpg" whether or not the copies before it succeeded: a
    failed copy leaves a gap in the numbering and the later files are not
    renumbered.  No two copies of a run have the same target, and every
    source was in the listing with the wanted prefix and suffix. *)
Theorem script_targets_by_position (entries : list string)
    (copyFails : string -> string -> bool) (lines : list Line) :
  script entries copyFails = Some lines ->
  copies lines
  = filter (fun c => negb (copyFails (fst c) (snd c)))
           (combine (reported lines)
                    (map frameName (seq 0 (List.length (reported lines)))))
  /\ NoDup (map snd (copies lines))
  /\ forall file target, In (file, target) (copies lines) ->
       In file entries /\ wanted file = true
       /\ exists i, nth_error (reported lines) i = Some file
                    /\ target = frameName i.
Proof.
  intros H; apply script_lines in H as (files & Hs & -> & Hc).
  split; [exact Hc |].
  split.
  - rewrite Hc; apply NoDup_map_snd_filter.
    rewrite map_snd_combine; [apply NoDup_frameNames |].
    now rewrite length_map, length_seq.
  - intros file target Hin; rewrite Hc in Hin.
    apply filter_In in Hin as [Hin _].
    apply sortFiles_spec in Hs as (Hp & _).
    assert (Hf : In file (filter wanted entries)).
    { eapply Permutation_in; [exact Hp |]. eapply in_combine_l; exact Hin. }
    apply filter_In in Hf as [Hf Hw].
    split; [exact Hf |]; split; [exact Hw |].
    apply In_nth_error in Hin as [i Hi].
    exists i.
    assert (Hn : forall (l : list string) (j k : nat) c,
               nth_error (combine l (map frameName (seq j (List.length l)))) k = Some c ->
               nth_error l k = Some (fst c) /\ snd c = frameName (j + k)).
    { clear; induction l as [|x l IH]; intros j [|k] c H; cbn in H; try discriminate.
      - injection H as <-; split; [reflexivity |].
        cbn [snd]; now rewrite Nat.add_0_r.
      - apply IH in H as [H1 H2]; split; [exact H1 |].
        rewrite H2; now replace (S j + k)%nat with (j + S k)%nat by lia. }
    apply Hn in Hi as [H1 H2]; cbn in H1, H2; split; assumption.
Qed.

Lemma script_targets_by_position_witness :
  script listing oneFails
  = Some [Found 3; Copied "parallax test 2.jpg" "frame1.jpg";
          FailedToCopy "parallax test 03.jpg";
          Copied "parallax test 10.jpg" "frame3.jpg"; CopyComplete 3]
  /\ NoDup (map snd (copies
       [Found 3; Copied "parallax test 2.jpg" "frame1.jpg";
        FailedToCopy "parallax test 03.jpg";
        Copied "parallax test 10.jpg" "frame3.jpg"; CopyComplete 3])).
Proof.
  split; [reflexivity |].
  apply (script_targets_by_position listing oneFails); reflexivity.
Defined.

(** X22.  The script throws, before it copies or prints anything, exactly
    when two or more listed files have the wanted prefix and suffix and one
    of them has no digit in its name.  A single wanted file needs no digit:
    the comparator is never called. *)
Theorem script_throws_iff (entries : list string)
    (copyFails : string -> string -> bool) :
  script entries copyFails = None <->
  (2 <= List.length (filter wanted entries))%nat
  /\ exists file, In file entries /\ wanted file = true
                  /\ matchDigits file = None.
Proof.
  unfold script.
  destruct (sortFiles (filter wanted entries)) as [files|] eqn:E.
  - split; [discriminate |].
    intros [Hl (f & Hin & Hw & Hf)].
    assert (sortFiles (filter wanted entries) = None); [| congruence].
    apply sortFiles_None; split; [exact Hl |].
    exists f; split; [apply filter_In; tauto | exact Hf].
  - split; [intros _ | reflexivity].
    apply sortFiles_None in E as [Hl (f & Hin & Hf)].
    split; [exact Hl |].
    apply filter_In in Hin as [Hin Hw]; exists f; tauto.
Qed.

(** X23.  The sort key of a name is the first number that occurs in it, as
    a double: for a name made of a part without digits, the decimal numeral
    of [n] and a rest that does not start with a digit, the number read is
    [n], whatever numbers the rest contains, and the key is the double
    nearest to [n], which is [n] itself below 2^53. *)
Theorem frameKey_first_number (before rest : string) (n : nat) :
  noDigit before = true ->
  startsWithDigit rest = false ->
  firstNumber (before ++ decimal n ++ rest) = Some (N.of_nat n)
  /\ frameKey (before ++ decimal n ++ rest) = Some (toDouble (N.of_nat n))
  /\ ((N.of_nat n < 2 ^ 53)%N ->
      frameKey (before ++ decimal n ++ rest) = Some (N.of_nat n)).
Proof.
  intros Hb Hr; unfold frameKey, firstNumber.
  rewrite matchDigits_skip, matchDigits_decimal by assumption.
  cbn [option_map]; rewrite parseInt_decimal, parseIntFrom_numeral.
  split; [reflexivity |]. split; [reflexivity |].
  intros Hn. now rewrite toDouble_small.
Qed.

Lemma frameKey_first_number_witness :
  frameKey "parallax test 12 copy 3.jpg" = Some 12%N.
Proof.
  apply (frameKey_first_number "parallax test " " copy 3.jpg" 12); reflexivity.
Defined.
